(** * QTextMarkdownImporter: the event-driven document builder

    A shallow embedding of src/gui/text/qtextmarkdownimporter.cpp.

    The importer is a class whose five callbacks (cbEnterBlock, cbLeaveBlock,
    cbEnterSpan, cbLeaveSpan, cbText) are driven by the MD4C tokenizer.  Each
    callback reads and writes the importer's fields and issues calls on a
    QTextCursor, a QTextTable and QTextList objects.  Here

    - the fields are one record, [Importer], threaded through a state and
      failure monad;
    - the document is the chronological sequence of the calls issued on the
      cursor, the table and the lists ([Trace]);
    - whatever the importer reads back from the document (the cursor's block
      format, whether the cursor is in a list, the table's geometry) is
      answered by a [DocumentSink], a parameter of every callback;
    - dereferencing a null m_currentTable and top()/pop() on an empty QStack
      are undefined behaviour: the callback has no result ([None]).

    C++ int fields are integers [Z].  The counters move by one per event, so
    their overflow is out of reach of any input a machine can hold and no
    wrap-around is written out for them.  The three int expressions whose
    operands come from outside or are scaled, 4 - int(detail->level),
    BlockQuoteIndent * m_blockQuoteDepth and pointSize() * 2, are taken in
    32-bit two's complement ([wrap_int]), as the compiled code computes
    them.  The one narrowing conversion of the source, int(detail->level) on
    an unsigned, is [int_of_unsigned].  qCDebug output is not part of the
    model. *)

From Stdlib Require Import ZArith String Ascii List Bool Lia.
Import ListNotations.
Local Open Scope Z_scope.

(** ** Strings *)

(** A QChar is a UTF-16 code unit, a QString a sequence of them. *)
Definition QChar := Z.
Definition QString := list QChar.

Definition QChar_fromLatin1 (c : ascii) : QChar := Z.of_nat (nat_of_ascii c).

(** QLatin1String / QStringLiteral of a literal. *)
Definition qstr (s : string) : QString :=
  map QChar_fromLatin1 (list_ascii_of_string s).

Definition Newline : QChar := QChar_fromLatin1 "010"%char.
Definition Space : QChar := QChar_fromLatin1 " "%char.

Definition BlockQuoteIndent : Z := 40.

(** s.isEmpty() *)
Definition isEmpty {A} (l : list A) : bool :=
  match l with [] => true | _ :: _ => false end.

(** ** MD4C's vocabulary

    Modelled from the spec: the enumerations and detail structures of
    3rdparty/md4c/md4c.h, which is outside this file; the names are the ones
    the callbacks switch on. *)

(** The block types; [MD_BLOCK_UNKNOWN n] is any other integer the tokenizer
    may send in a later version. *)
Inductive MD_BLOCKTYPE : Type :=
| MD_BLOCK_DOC | MD_BLOCK_QUOTE | MD_BLOCK_UL | MD_BLOCK_OL | MD_BLOCK_LI
| MD_BLOCK_HR | MD_BLOCK_H | MD_BLOCK_CODE | MD_BLOCK_HTML | MD_BLOCK_P
| MD_BLOCK_TABLE | MD_BLOCK_THEAD | MD_BLOCK_TBODY | MD_BLOCK_TR
| MD_BLOCK_TH | MD_BLOCK_TD
| MD_BLOCK_UNKNOWN (n : Z).

Inductive MD_ALIGN : Type :=
| MD_ALIGN_DEFAULT | MD_ALIGN_LEFT | MD_ALIGN_CENTER | MD_ALIGN_RIGHT.

(** A block type together with the detail structure MD4C passes for it
    (the [void *det] of cbEnterBlock, cast by block type in the source). *)
Inductive Block : Type :=
| BlockDoc
| BlockQuote
| BlockUL (mark : ascii)
| BlockOL (mark_delimiter : ascii)
| BlockLI (is_task : bool) (task_mark : ascii)
| BlockHR
| BlockH (level : Z)                      (* unsigned level *)
| BlockCode (info lang : QString)
| BlockHtml
| BlockP
| BlockTable
| BlockTHead
| BlockTBody
| BlockTR
| BlockTH (align : MD_ALIGN)
| BlockTD (align : MD_ALIGN)
| BlockUnknown (n : Z).

Definition blockType (b : Block) : MD_BLOCKTYPE :=
  match b with
  | BlockDoc => MD_BLOCK_DOC
  | BlockQuote => MD_BLOCK_QUOTE
  | BlockUL _ => MD_BLOCK_UL
  | BlockOL _ => MD_BLOCK_OL
  | BlockLI _ _ => MD_BLOCK_LI
  | BlockHR => MD_BLOCK_HR
  | BlockH _ => MD_BLOCK_H
  | BlockCode _ _ => MD_BLOCK_CODE
  | BlockHtml => MD_BLOCK_HTML
  | BlockP => MD_BLOCK_P
  | BlockTable => MD_BLOCK_TABLE
  | BlockTHead => MD_BLOCK_THEAD
  | BlockTBody => MD_BLOCK_TBODY
  | BlockTR => MD_BLOCK_TR
  | BlockTH _ => MD_BLOCK_TH
  | BlockTD _ => MD_BLOCK_TD
  | BlockUnknown n => MD_BLOCK_UNKNOWN n
  end.

Inductive MD_SPANTYPE : Type :=
| MD_SPAN_EM | MD_SPAN_STRONG | MD_SPAN_A | MD_SPAN_IMG | MD_SPAN_CODE
| MD_SPAN_DEL
| MD_SPAN_UNKNOWN (n : Z).

(** A span type together with its detail structure. *)
Inductive Span : Type :=
| SpanEm
| SpanStrong
| SpanA (href title : QString)
| SpanImg (src title : QString)
| SpanCode
| SpanDel
| SpanUnknown (n : Z).

Definition spanType (sp : Span) : MD_SPANTYPE :=
  match sp with
  | SpanEm => MD_SPAN_EM
  | SpanStrong => MD_SPAN_STRONG
  | SpanA _ _ => MD_SPAN_A
  | SpanImg _ _ => MD_SPAN_IMG
  | SpanCode => MD_SPAN_CODE
  | SpanDel => MD_SPAN_DEL
  | SpanUnknown n => MD_SPAN_UNKNOWN n
  end.

Inductive MD_TEXTTYPE : Type :=
| MD_TEXT_NORMAL | MD_TEXT_NULLCHAR | MD_TEXT_BR | MD_TEXT_SOFTBR
| MD_TEXT_ENTITY | MD_TEXT_CODE | MD_TEXT_HTML
| MD_TEXT_UNKNOWN (n : Z).

(** int(x) for an unsigned 32-bit x. *)
Definition int_of_unsigned (x : Z) : Z :=
  let r := x mod 2 ^ 32 in if r <? 2 ^ 31 then r else r - 2 ^ 32.

(** The range of a 32-bit int. *)
Definition INT_MIN : Z := - 2 ^ 31.
Definition INT_MAX : Z := 2 ^ 31 - 1.

(** The int that an int expression yields when its mathematical value is
    [z]: the value modulo 2^32, read in two's complement. *)
Definition wrap_int (z : Z) : Z :=
  let r := z mod 2 ^ 32 in if r <? 2 ^ 31 then r else r - 2 ^ 32.

(** ** Qt's formats

    Modelled from the spec: the formatting records of the Document Sink
    (QTextCharFormat, QTextBlockFormat, QTextListFormat, QTextImageFormat,
    declared outside this file).  A QTextFormat is a set of optional
    properties; the records below carry the properties this importer sets,
    [None] for a property that is not set.  The empty format,
    QTextCharFormat(), sets none.  setFont is recorded as the font it was
    given. *)

Definition QFont := string.
Definition QBrush := string.

(** Modelled from the spec: the bold weight, QFont::Bold (qfont.h); the
    number is the one of Qt 5. *)
Definition QFont_Bold : Z := 75.

(** Modelled from the spec: the alignment flags of Qt::AlignmentFlag
    (qnamespace.h). *)
Definition AlignLeft : Z := 1.
Definition AlignRight : Z := 2.
Definition AlignHCenter : Z := 4.
Definition AlignVCenter : Z := 128.

Inductive MarkerType : Type := NoMarker | Unchecked | Checked.

Inductive ListStyle : Type :=
| ListDisc | ListCircle | ListSquare | ListDecimal.

Record QTextCharFormat : Type := {
  cf_font : option QFont;          (* the font given to setFont *)
  cf_fontWeight : option Z;
  cf_fontItalic : option bool;
  cf_fontStrikeOut : option bool;
  cf_fontSizeAdjustment : option Z;
  cf_anchorHref : option QString;
  cf_anchorNames : option (list QString);
  cf_foreground : option QBrush
}.

Record QTextBlockFormat : Type := {
  bf_headingLevel : option Z;
  bf_marker : option MarkerType;
  bf_alignment : option Z;
  bf_indent : option Z;
  bf_leftMargin : option Z;
  bf_rightMargin : option Z;
  bf_topMargin : option Z;
  bf_bottomMargin : option Z;
  bf_blockQuoteLevel : option Z;
  bf_blockCodeLanguage : option QString;
  bf_trailingHorizontalRulerWidth : option Z
}.

Record QTextListFormat : Type := {
  lf_indent : option Z;
  lf_style : option ListStyle;
  lf_numberSuffix : option QString
}.

Record QTextImageFormat : Type := { img_name : option QString }.

Definition emptyCharFormat : QTextCharFormat :=
  Build_QTextCharFormat None None None None None None None None.

Definition emptyBlockFormat : QTextBlockFormat :=
  Build_QTextBlockFormat None None None None None None None None None None
    None.

Definition cf_with_font (v : option QFont) (s : QTextCharFormat) : QTextCharFormat :=
  Build_QTextCharFormat v (cf_fontWeight s) (cf_fontItalic s)
    (cf_fontStrikeOut s) (cf_fontSizeAdjustment s) (cf_anchorHref s)
    (cf_anchorNames s) (cf_foreground s).
Definition cf_with_fontWeight (v : option Z) (s : QTextCharFormat) : QTextCharFormat :=
  Build_QTextCharFormat (cf_font s) v (cf_fontItalic s) (cf_fontStrikeOut s)
    (cf_fontSizeAdjustment s) (cf_anchorHref s) (cf_anchorNames s)
    (cf_foreground s).
Definition cf_with_fontItalic (v : option bool) (s : QTextCharFormat) : QTextCharFormat :=
  Build_QTextCharFormat (cf_font s) (cf_fontWeight s) v (cf_fontStrikeOut s)
    (cf_fontSizeAdjustment s) (cf_anchorHref s) (cf_anchorNames s)
    (cf_foreground s).
Definition cf_with_fontStrikeOut (v : option bool) (s : QTextCharFormat) : QTextCharFormat :=
  Build_QTextCharFormat (cf_font s) (cf_fontWeight s) (cf_fontItalic s) v
    (cf_fontSizeAdjustment s) (cf_anchorHref s) (cf_anchorNames s)
    (cf_foreground s).
Definition cf_with_fontSizeAdjustment (v : option Z) (s : QTextCharFormat) : QTextCharFormat :=
  Build_QTextCharFormat (cf_font s) (cf_fontWeight s) (cf_fontItalic s)
    (cf_fontStrikeOut s) v (cf_anchorHref s) (cf_anchorNames s)
    (cf_foreground s).
Definition cf_with_anchorHref (v : option QString) (s : QTextCharFormat) : QTextCharFormat :=
  Build_QTextCharFormat (cf_font s) (cf_fontWeight s) (cf_fontItalic s)
    (cf_fontStrikeOut s) (cf_fontSizeAdjustment s) v (cf_anchorNames s)
    (cf_foreground s).
Definition cf_with_anchorNames (v : option (list QString)) (s : QTextCharFormat) : QTextCharFormat :=
  Build_QTextCharFormat (cf_font s) (cf_fontWeight s) (cf_fontItalic s)
    (cf_fontStrikeOut s) (cf_fontSizeAdjustment s) (cf_anchorHref s) v
    (cf_foreground s).
Definition cf_with_foreground (v : option QBrush) (s : QTextCharFormat) : QTextCharFormat :=
  Build_QTextCharFormat (cf_font s) (cf_fontWeight s) (cf_fontItalic s)
    (cf_fontStrikeOut s) (cf_fontSizeAdjustment s) (cf_anchorHref s)
    (cf_anchorNames s) v.
Definition bf_with_headingLevel (v : option Z) (s : QTextBlockFormat) : QTextBlockFormat :=
  Build_QTextBlockFormat v (bf_marker s) (bf_alignment s) (bf_indent s)
    (bf_leftMargin s) (bf_rightMargin s) (bf_topMargin s) (bf_bottomMargin s)
    (bf_blockQuoteLevel s) (bf_blockCodeLanguage s)
    (bf_trailingHorizontalRulerWidth s).
Definition bf_with_marker (v : option MarkerType) (s : QTextBlockFormat) : QTextBlockFormat :=
  Build_QTextBlockFormat (bf_headingLevel s) v (bf_alignment s) (bf_indent s)
    (bf_leftMargin s) (bf_rightMargin s) (bf_topMargin s) (bf_bottomMargin s)
    (bf_blockQuoteLevel s) (bf_blockCodeLanguage s)
    (bf_trailingHorizontalRulerWidth s).
Definition bf_with_alignment (v : option Z) (s : QTextBlockFormat) : QTextBlockFormat :=
  Build_QTextBlockFormat (bf_headingLevel s) (bf_marker s) v (bf_indent s)
    (bf_leftMargin s) (bf_rightMargin s) (bf_topMargin s) (bf_bottomMargin s)
    (bf_blockQuoteLevel s) (bf_blockCodeLanguage s)
    (bf_trailingHorizontalRulerWidth s).
Definition bf_with_indent (v : option Z) (s : QTextBlockFormat) : QTextBlockFormat :=
  Build_QTextBlockFormat (bf_headingLevel s) (bf_marker s) (bf_alignment s) v
    (bf_leftMargin s) (bf_rightMargin s) (bf_topMargin s) (bf_bottomMargin s)
    (bf_blockQuoteLevel s) (bf_blockCodeLanguage s)
    (bf_trailingHorizontalRulerWidth s).
Definition bf_with_leftMargin (v : option Z) (s : QTextBlockFormat) : QTextBlockFormat :=
  Build_QTextBlockFormat (bf_headingLevel s) (bf_marker s) (bf_alignment s)
    (bf_indent s) v (bf_rightMargin s) (bf_topMargin s) (bf_bottomMargin s)
    (bf_blockQuoteLevel s) (bf_blockCodeLanguage s)
    (bf_trailingHorizontalRulerWidth s).
Definition bf_with_rightMargin (v : option Z) (s : QTextBlockFormat) : QTextBlockFormat :=
  Build_QTextBlockFormat (bf_headingLevel s) (bf_marker s) (bf_alignment s)
    (bf_indent s) (bf_leftMargin s) v (bf_topMargin s) (bf_bottomMargin s)
    (bf_blockQuoteLevel s) (bf_blockCodeLanguage s)
    (bf_trailingHorizontalRulerWidth s).
Definition bf_with_topMargin (v : option Z) (s : QTextBlockFormat) : QTextBlockFormat :=
  Build_QTextBlockFormat (bf_headingLevel s) (bf_marker s) (bf_alignment s)
    (bf_indent s) (bf_leftMargin s) (bf_rightMargin s) v (bf_bottomMargin s)
    (bf_blockQuoteLevel s) (bf_blockCodeLanguage s)
    (bf_trailingHorizontalRulerWidth s).
Definition bf_with_bottomMargin (v : option Z) (s : QTextBlockFormat) : QTextBlockFormat :=
  Build_QTextBlockFormat (bf_headingLevel s) (bf_marker s) (bf_alignment s)
    (bf_indent s) (bf_leftMargin s) (bf_rightMargin s) (bf_topMargin s) v
    (bf_blockQuoteLevel s) (bf_blockCodeLanguage s)
    (bf_trailingHorizontalRulerWidth s).
Definition bf_with_blockQuoteLevel (v : option Z) (s : QTextBlockFormat) : QTextBlockFormat :=
  Build_QTextBlockFormat (bf_headingLevel s) (bf_marker s) (bf_alignment s)
    (bf_indent s) (bf_leftMargin s) (bf_rightMargin s) (bf_topMargin s)
    (bf_bottomMargin s) v (bf_blockCodeLanguage s)
    (bf_trailingHorizontalRulerWidth s).
Definition bf_with_blockCodeLanguage (v : option QString) (s : QTextBlockFormat) : QTextBlockFormat :=
  Build_QTextBlockFormat (bf_headingLevel s) (bf_marker s) (bf_alignment s)
    (bf_indent s) (bf_leftMargin s) (bf_rightMargin s) (bf_topMargin s)
    (bf_bottomMargin s) (bf_blockQuoteLevel s) v
    (bf_trailingHorizontalRulerWidth s).
Definition bf_with_trailingHorizontalRulerWidth (v : option Z) (s : QTextBlockFormat) : QTextBlockFormat :=
  Build_QTextBlockFormat (bf_headingLevel s) (bf_marker s) (bf_alignment s)
    (bf_indent s) (bf_leftMargin s) (bf_rightMargin s) (bf_topMargin s)
    (bf_bottomMargin s) (bf_blockQuoteLevel s) (bf_blockCodeLanguage s) v.

(** The setters of the source, by their Qt names. *)
Definition setFont (f : QFont) := cf_with_font (Some f).
Definition setFontWeight (w : Z) := cf_with_fontWeight (Some w).
Definition setFontItalic (b : bool) := cf_with_fontItalic (Some b).
Definition setFontStrikeOut (b : bool) := cf_with_fontStrikeOut (Some b).
Definition setFontSizeAdjustment (n : Z) := cf_with_fontSizeAdjustment (Some n).
Definition setAnchorHref (u : QString) := cf_with_anchorHref (Some u).
Definition setAnchorNames (l : list QString) := cf_with_anchorNames (Some l).
Definition setForeground (b : QBrush) := cf_with_foreground (Some b).

Definition setHeadingLevel (n : Z) := bf_with_headingLevel (Some n).
Definition setMarker (m : MarkerType) := bf_with_marker (Some m).
Definition setAlignment (a : Z) := bf_with_alignment (Some a).
Definition setIndent (n : Z) := bf_with_indent (Some n).
Definition setLeftMargin (n : Z) := bf_with_leftMargin (Some n).
Definition setRightMargin (n : Z) := bf_with_rightMargin (Some n).
Definition setTopMargin (n : Z) := bf_with_topMargin (Some n).
Definition setBottomMargin (n : Z) := bf_with_bottomMargin (Some n).
Definition setBlockQuoteLevel (n : Z) := bf_with_blockQuoteLevel (Some n).
Definition setBlockCodeLanguage (l : QString) :=
  bf_with_blockCodeLanguage (Some l).
Definition setBlockTrailingHorizontalRulerWidth (n : Z) :=
  bf_with_trailingHorizontalRulerWidth (Some n).

(** The getters default an unset numeric property to 0, as Qt's do. *)
Definition indent (f : QTextBlockFormat) : Z :=
  match bf_indent f with Some n => n | None => 0 end.
Definition leftMargin (f : QTextBlockFormat) : Z :=
  match bf_leftMargin f with Some n => n | None => 0 end.
Definition rightMargin (f : QTextBlockFormat) : Z :=
  match bf_rightMargin f with Some n => n | None => 0 end.
Definition topMargin (f : QTextBlockFormat) : Z :=
  match bf_topMargin f with Some n => n | None => 0 end.
Definition bottomMargin (f : QTextBlockFormat) : Z :=
  match bf_bottomMargin f with Some n => n | None => 0 end.
Definition fontItalic (f : QTextCharFormat) : bool :=
  match cf_fontItalic f with Some b => b | None => false end.

Definition MdAlignment (a : MD_ALIGN) : Z :=
  match a with
  | MD_ALIGN_LEFT => Z.lor AlignLeft AlignVCenter
  | MD_ALIGN_CENTER => Z.lor AlignHCenter AlignVCenter
  | MD_ALIGN_RIGHT => Z.lor AlignRight AlignVCenter
  | MD_ALIGN_DEFAULT => Z.lor AlignLeft AlignVCenter  (* defaultAlignment *)
  end.

(** ** The document, as the calls made on it *)

(** Lists and tables are named by their order of creation. *)
Definition ListHandle := nat.
Definition TableHandle := nat.

Inductive SinkOp : Type :=
| InsertBlock (bf : QTextBlockFormat) (cf : QTextCharFormat)
| SetBlockFormat (bf : QTextBlockFormat)
| SetCharFormat (cf : QTextCharFormat)
| InsertText (s : QString)
| InsertHtml (s : QString)
| InsertImage (img : QTextImageFormat)
| InsertList (lf : QTextListFormat)
| ListAdd (l : ListHandle)                   (* list->add(m_cursor->block()) *)
| InsertTable (rows cols : Z)
| AppendRows (t : TableHandle) (n : Z)
| AppendColumns (t : TableHandle) (n : Z)
| CellSetFormat (t : TableHandle) (row col : Z) (cf : QTextCharFormat)
| CursorToCell (t : TableHandle) (row col : Z)  (* cell.firstCursorPosition() *)
| MergeCells (t : TableHandle) (row col numRows numCols : Z)
| MovePositionEnd.

Definition Trace := list SinkOp.

Definition isInsertList (o : SinkOp) : bool :=
  match o with InsertList _ => true | _ => false end.
Definition isInsertTable (o : SinkOp) : bool :=
  match o with InsertTable _ _ => true | _ => false end.

(** What the importer reads back from the document.  QTextCursor, QTextTable
    and QTextList are not part of the importer: their answers are a
    parameter, and every callback is defined, and every property proved, for
    an arbitrary sink. *)
Record DocumentSink : Type := {
  currentList : Trace -> bool;                  (* m_cursor->currentList() *)
  blockFormat : Trace -> QTextBlockFormat;      (* m_cursor->blockFormat() *)
  lastItemBlockFormat : Trace -> ListHandle -> QTextBlockFormat;
                          (* list->item(list->count() - 1).blockFormat() *)
  rows : Trace -> TableHandle -> Z;
  columns : Trace -> TableHandle -> Z;
  cellIsValid : Trace -> TableHandle -> Z -> Z -> bool;
                                            (* cellAt(row, col).isValid() *)
  cellFormat : Trace -> TableHandle -> Z -> Z -> QTextCharFormat
}.

(** ** The importer's fields *)

Record Importer : Type := {
  doc : Trace;                    (* the document behind m_doc and m_cursor *)
  warnings : list string;         (* what qWarning has printed *)
  m_monoFont : QFont;
  m_palette_link : QBrush;        (* m_palette.link() *)
  m_paragraphMargin : Z;
  m_listStack : list ListHandle;  (* top of the stack first *)
  m_spanFormatStack : list QTextCharFormat;  (* top of the stack first *)
  m_currentTable : option TableHandle;       (* None is nullptr *)
  m_htmlAccumulator : QString;
  m_blockCodeLanguage : QString;
  m_nonEmptyTableCells : list Z;  (* QVector<int>, in order of append *)
  m_tableColumnCount : Z;
  m_tableRowCount : Z;
  m_tableCol : Z;
  m_blockQuoteDepth : Z;
  m_htmlTagDepth : Z;
  m_blockType : MD_BLOCKTYPE;
  m_emptyList : bool;
  m_listItem : bool;
  m_emptyListItem : bool;
  m_codeBlock : bool;
  m_imageSpan : bool;
  m_needsInsertBlock : bool
}.

Definition set_doc (v : Trace) (s : Importer) : Importer :=
  Build_Importer v (warnings s) (m_monoFont s) (m_palette_link s)
    (m_paragraphMargin s) (m_listStack s) (m_spanFormatStack s)
    (m_currentTable s) (m_htmlAccumulator s) (m_blockCodeLanguage s)
    (m_nonEmptyTableCells s) (m_tableColumnCount s) (m_tableRowCount s)
    (m_tableCol s) (m_blockQuoteDepth s) (m_htmlTagDepth s) (m_blockType s)
    (m_emptyList s) (m_listItem s) (m_emptyListItem s) (m_codeBlock s)
    (m_imageSpan s) (m_needsInsertBlock s).
Definition set_warnings (v : list string) (s : Importer) : Importer :=
  Build_Importer (doc s) v (m_monoFont s) (m_palette_link s)
    (m_paragraphMargin s) (m_listStack s) (m_spanFormatStack s)
    (m_currentTable s) (m_htmlAccumulator s) (m_blockCodeLanguage s)
    (m_nonEmptyTableCells s) (m_tableColumnCount s) (m_tableRowCount s)
    (m_tableCol s) (m_blockQuoteDepth s) (m_htmlTagDepth s) (m_blockType s)
    (m_emptyList s) (m_listItem s) (m_emptyListItem s) (m_codeBlock s)
    (m_imageSpan s) (m_needsInsertBlock s).
Definition set_m_paragraphMargin (v : Z) (s : Importer) : Importer :=
  Build_Importer (doc s) (warnings s) (m_monoFont s) (m_palette_link s) v
    (m_listStack s) (m_spanFormatStack s) (m_currentTable s)
    (m_htmlAccumulator s) (m_blockCodeLanguage s) (m_nonEmptyTableCells s)
    (m_tableColumnCount s) (m_tableRowCount s) (m_tableCol s)
    (m_blockQuoteDepth s) (m_htmlTagDepth s) (m_blockType s) (m_emptyList s)
    (m_listItem s) (m_emptyListItem s) (m_codeBlock s) (m_imageSpan s)
    (m_needsInsertBlock s).
Definition set_m_listStack (v : list ListHandle) (s : Importer) : Importer :=
  Build_Importer (doc s) (warnings s) (m_monoFont s) (m_palette_link s)
    (m_paragraphMargin s) v (m_spanFormatStack s) (m_currentTable s)
    (m_htmlAccumulator s) (m_blockCodeLanguage s) (m_nonEmptyTableCells s)
    (m_tableColumnCount s) (m_tableRowCount s) (m_tableCol s)
    (m_blockQuoteDepth s) (m_htmlTagDepth s) (m_blockType s) (m_emptyList s)
    (m_listItem s) (m_emptyListItem s) (m_codeBlock s) (m_imageSpan s)
    (m_needsInsertBlock s).
Definition set_m_spanFormatStack (v : list QTextCharFormat) (s : Importer) : Importer :=
  Build_Importer (doc s) (warnings s) (m_monoFont s) (m_palette_link s)
    (m_paragraphMargin s) (m_listStack s) v (m_currentTable s)
    (m_htmlAccumulator s) (m_blockCodeLanguage s) (m_nonEmptyTableCells s)
    (m_tableColumnCount s) (m_tableRowCount s) (m_tableCol s)
    (m_blockQuoteDepth s) (m_htmlTagDepth s) (m_blockType s) (m_emptyList s)
    (m_listItem s) (m_emptyListItem s) (m_codeBlock s) (m_imageSpan s)
    (m_needsInsertBlock s).
Definition set_m_currentTable (v : option TableHandle) (s : Importer) : Importer :=
  Build_Importer (doc s) (warnings s) (m_monoFont s) (m_palette_link s)
    (m_paragraphMargin s) (m_listStack s) (m_spanFormatStack s) v
    (m_htmlAccumulator s) (m_blockCodeLanguage s) (m_nonEmptyTableCells s)
    (m_tableColumnCount s) (m_tableRowCount s) (m_tableCol s)
    (m_blockQuoteDepth s) (m_htmlTagDepth s) (m_blockType s) (m_emptyList s)
    (m_listItem s) (m_emptyListItem s) (m_codeBlock s) (m_imageSpan s)
    (m_needsInsertBlock s).
Definition set_m_htmlAccumulator (v : QString) (s : Importer) : Importer :=
  Build_Importer (doc s) (warnings s) (m_monoFont s) (m_palette_link s)
    (m_paragraphMargin s) (m_listStack s) (m_spanFormatStack s)
    (m_currentTable s) v (m_blockCodeLanguage s) (m_nonEmptyTableCells s)
    (m_tableColumnCount s) (m_tableRowCount s) (m_tableCol s)
    (m_blockQuoteDepth s) (m_htmlTagDepth s) (m_blockType s) (m_emptyList s)
    (m_listItem s) (m_emptyListItem s) (m_codeBlock s) (m_imageSpan s)
    (m_needsInsertBlock s).
Definition set_m_blockCodeLanguage (v : QString) (s : Importer) : Importer :=
  Build_Importer (doc s) (warnings s) (m_monoFont s) (m_palette_link s)
    (m_paragraphMargin s) (m_listStack s) (m_spanFormatStack s)
    (m_currentTable s) (m_htmlAccumulator s) v (m_nonEmptyTableCells s)
    (m_tableColumnCount s) (m_tableRowCount s) (m_tableCol s)
    (m_blockQuoteDepth s) (m_htmlTagDepth s) (m_blockType s) (m_emptyList s)
    (m_listItem s) (m_emptyListItem s) (m_codeBlock s) (m_imageSpan s)
    (m_needsInsertBlock s).
Definition set_m_nonEmptyTableCells (v : list Z) (s : Importer) : Importer :=
  Build_Importer (doc s) (warnings s) (m_monoFont s) (m_palette_link s)
    (m_paragraphMargin s) (m_listStack s) (m_spanFormatStack s)
    (m_currentTable s) (m_htmlAccumulator s) (m_blockCodeLanguage s) v
    (m_tableColumnCount s) (m_tableRowCount s) (m_tableCol s)
    (m_blockQuoteDepth s) (m_htmlTagDepth s) (m_blockType s) (m_emptyList s)
    (m_listItem s) (m_emptyListItem s) (m_codeBlock s) (m_imageSpan s)
    (m_needsInsertBlock s).
Definition set_m_tableColumnCount (v : Z) (s : Importer) : Importer :=
  Build_Importer (doc s) (warnings s) (m_monoFont s) (m_palette_link s)
    (m_paragraphMargin s) (m_listStack s) (m_spanFormatStack s)
    (m_currentTable s) (m_htmlAccumulator s) (m_blockCodeLanguage s)
    (m_nonEmptyTableCells s) v (m_tableRowCount s) (m_tableCol s)
    (m_blockQuoteDepth s) (m_htmlTagDepth s) (m_blockType s) (m_emptyList s)
    (m_listItem s) (m_emptyListItem s) (m_codeBlock s) (m_imageSpan s)
    (m_needsInsertBlock s).
Definition set_m_tableRowCount (v : Z) (s : Importer) : Importer :=
  Build_Importer (doc s) (warnings s) (m_monoFont s) (m_palette_link s)
    (m_paragraphMargin s) (m_listStack s) (m_spanFormatStack s)
    (m_currentTable s) (m_htmlAccumulator s) (m_blockCodeLanguage s)
    (m_nonEmptyTableCells s) (m_tableColumnCount s) v (m_tableCol s)
    (m_blockQuoteDepth s) (m_htmlTagDepth s) (m_blockType s) (m_emptyList s)
    (m_listItem s) (m_emptyListItem s) (m_codeBlock s) (m_imageSpan s)
    (m_needsInsertBlock s).
Definition set_m_tableCol (v : Z) (s : Importer) : Importer :=
  Build_Importer (doc s) (warnings s) (m_monoFont s) (m_palette_link s)
    (m_paragraphMargin s) (m_listStack s) (m_spanFormatStack s)
    (m_currentTable s) (m_htmlAccumulator s) (m_blockCodeLanguage s)
    (m_nonEmptyTableCells s) (m_tableColumnCount s) (m_tableRowCount s) v
    (m_blockQuoteDepth s) (m_htmlTagDepth s) (m_blockType s) (m_emptyList s)
    (m_listItem s) (m_emptyListItem s) (m_codeBlock s) (m_imageSpan s)
    (m_needsInsertBlock s).
Definition set_m_blockQuoteDepth (v : Z) (s : Importer) : Importer :=
  Build_Importer (doc s) (warnings s) (m_monoFont s) (m_palette_link s)
    (m_paragraphMargin s) (m_listStack s) (m_spanFormatStack s)
    (m_currentTable s) (m_htmlAccumulator s) (m_blockCodeLanguage s)
    (m_nonEmptyTableCells s) (m_tableColumnCount s) (m_tableRowCount s)
    (m_tableCol s) v (m_htmlTagDepth s) (m_blockType s) (m_emptyList s)
    (m_listItem s) (m_emptyListItem s) (m_codeBlock s) (m_imageSpan s)
    (m_needsInsertBlock s).
Definition set_m_htmlTagDepth (v : Z) (s : Importer) : Importer :=
  Build_Importer (doc s) (warnings s) (m_monoFont s) (m_palette_link s)
    (m_paragraphMargin s) (m_listStack s) (m_spanFormatStack s)
    (m_currentTable s) (m_htmlAccumulator s) (m_blockCodeLanguage s)
    (m_nonEmptyTableCells s) (m_tableColumnCount s) (m_tableRowCount s)
    (m_tableCol s) (m_blockQuoteDepth s) v (m_blockType s) (m_emptyList s)
    (m_listItem s) (m_emptyListItem s) (m_codeBlock s) (m_imageSpan s)
    (m_needsInsertBlock s).
Definition set_m_blockType (v : MD_BLOCKTYPE) (s : Importer) : Importer :=
  Build_Importer (doc s) (warnings s) (m_monoFont s) (m_palette_link s)
    (m_paragraphMargin s) (m_listStack s) (m_spanFormatStack s)
    (m_currentTable s) (m_htmlAccumulator s) (m_blockCodeLanguage s)
    (m_nonEmptyTableCells s) (m_tableColumnCount s) (m_tableRowCount s)
    (m_tableCol s) (m_blockQuoteDepth s) (m_htmlTagDepth s) v (m_emptyList s)
    (m_listItem s) (m_emptyListItem s) (m_codeBlock s) (m_imageSpan s)
    (m_needsInsertBlock s).
Definition set_m_emptyList (v : bool) (s : Importer) : Importer :=
  Build_Importer (doc s) (warnings s) (m_monoFont s) (m_palette_link s)
    (m_paragraphMargin s) (m_listStack s) (m_spanFormatStack s)
    (m_currentTable s) (m_htmlAccumulator s) (m_blockCodeLanguage s)
    (m_nonEmptyTableCells s) (m_tableColumnCount s) (m_tableRowCount s)
    (m_tableCol s) (m_blockQuoteDepth s) (m_htmlTagDepth s) (m_blockType s) v
    (m_listItem s) (m_emptyListItem s) (m_codeBlock s) (m_imageSpan s)
    (m_needsInsertBlock s).
Definition set_m_listItem (v : bool) (s : Importer) : Importer :=
  Build_Importer (doc s) (warnings s) (m_monoFont s) (m_palette_link s)
    (m_paragraphMargin s) (m_listStack s) (m_spanFormatStack s)
    (m_currentTable s) (m_htmlAccumulator s) (m_blockCodeLanguage s)
    (m_nonEmptyTableCells s) (m_tableColumnCount s) (m_tableRowCount s)
    (m_tableCol s) (m_blockQuoteDepth s) (m_htmlTagDepth s) (m_blockType s)
    (m_emptyList s) v (m_emptyListItem s) (m_codeBlock s) (m_imageSpan s)
    (m_needsInsertBlock s).
Definition set_m_emptyListItem (v : bool) (s : Importer) : Importer :=
  Build_Importer (doc s) (warnings s) (m_monoFont s) (m_palette_link s)
    (m_paragraphMargin s) (m_listStack s) (m_spanFormatStack s)
    (m_currentTable s) (m_htmlAccumulator s) (m_blockCodeLanguage s)
    (m_nonEmptyTableCells s) (m_tableColumnCount s) (m_tableRowCount s)
    (m_tableCol s) (m_blockQuoteDepth s) (m_htmlTagDepth s) (m_blockType s)
    (m_emptyList s) (m_listItem s) v (m_codeBlock s) (m_imageSpan s)
    (m_needsInsertBlock s).
Definition set_m_codeBlock (v : bool) (s : Importer) : Importer :=
  Build_Importer (doc s) (warnings s) (m_monoFont s) (m_palette_link s)
    (m_paragraphMargin s) (m_listStack s) (m_spanFormatStack s)
    (m_currentTable s) (m_htmlAccumulator s) (m_blockCodeLanguage s)
    (m_nonEmptyTableCells s) (m_tableColumnCount s) (m_tableRowCount s)
    (m_tableCol s) (m_blockQuoteDepth s) (m_htmlTagDepth s) (m_blockType s)
    (m_emptyList s) (m_listItem s) (m_emptyListItem s) v (m_imageSpan s)
    (m_needsInsertBlock s).
Definition set_m_imageSpan (v : bool) (s : Importer) : Importer :=
  Build_Importer (doc s) (warnings s) (m_monoFont s) (m_palette_link s)
    (m_paragraphMargin s) (m_listStack s) (m_spanFormatStack s)
    (m_currentTable s) (m_htmlAccumulator s) (m_blockCodeLanguage s)
    (m_nonEmptyTableCells s) (m_tableColumnCount s) (m_tableRowCount s)
    (m_tableCol s) (m_blockQuoteDepth s) (m_htmlTagDepth s) (m_blockType s)
    (m_emptyList s) (m_listItem s) (m_emptyListItem s) (m_codeBlock s) v
    (m_needsInsertBlock s).
Definition set_m_needsInsertBlock (v : bool) (s : Importer) : Importer :=
  Build_Importer (doc s) (warnings s) (m_monoFont s) (m_palette_link s)
    (m_paragraphMargin s) (m_listStack s) (m_spanFormatStack s)
    (m_currentTable s) (m_htmlAccumulator s) (m_blockCodeLanguage s)
    (m_nonEmptyTableCells s) (m_tableColumnCount s) (m_tableRowCount s)
    (m_tableCol s) (m_blockQuoteDepth s) (m_htmlTagDepth s) (m_blockType s)
    (m_emptyList s) (m_listItem s) (m_emptyListItem s) (m_codeBlock s)
    (m_imageSpan s) v.

(** ** The monad of the callbacks

    A callback transforms the importer and returns a status, or has no
    result where the C++ is undefined. *)

Definition M (A : Type) : Type := Importer -> option (A * Importer).

Definition ret {A} (a : A) : M A := fun s => Some (a, s).

Definition bind {A B} (m : M A) (k : A -> M B) : M B :=
  fun s => match m s with
           | Some (a, s') => k a s'
           | None => None
           end.

Definition undefined {A} : M A := fun _ => None.

Definition gets {A} (f : Importer -> A) : M A := fun s => Some (f s, s).

Definition modify (f : Importer -> Importer) : M unit :=
  fun s => Some (tt, f s).

Definition when (b : bool) (m : M unit) : M unit :=
  if b then m else ret tt.

Declare Scope importer_scope.
Delimit Scope importer_scope with imp.
Notation "x <- m ;; k" := (bind m (fun x => k))
  (at level 61, m at next level, right associativity) : importer_scope.
Notation "m ;; k" := (bind m (fun _ => k))
  (at level 61, right associativity) : importer_scope.
Local Open Scope importer_scope.

(** A call on the cursor, the table or a list: appended to the document. *)
Definition emit (o : SinkOp) : M unit :=
  modify (fun s => set_doc (doc s ++ [o]) s).

Definition qWarning (msg : string) : M unit :=
  modify (fun s => set_warnings (warnings s ++ [msg]) s).

(** m_cursor->insertList(fmt): the new list's handle is its creation rank. *)
Definition insertList (fmt : QTextListFormat) : M ListHandle :=
  h <- gets (fun s => length (filter isInsertList (doc s))) ;;
  emit (InsertList fmt) ;;
  ret h.

(** m_cursor->insertTable(rows, cols) *)
Definition insertTable (r c : Z) : M TableHandle :=
  h <- gets (fun s => length (filter isInsertTable (doc s))) ;;
  emit (InsertTable r c) ;;
  ret h.

(** Dereferencing m_currentTable. *)
Definition currentTable : M TableHandle :=
  t <- gets m_currentTable ;;
  match t with
  | Some h => ret h
  | None => undefined
  end.

(** m_listStack.top() *)
Definition listStack_top : M ListHandle :=
  l <- gets m_listStack ;;
  match l with
  | h :: _ => ret h
  | [] => undefined
  end.

(** m_listStack.pop() *)
Definition listStack_pop : M unit :=
  l <- gets m_listStack ;;
  match l with
  | _ :: tl => modify (set_m_listStack tl)
  | [] => undefined
  end.

(** The top of m_spanFormatStack, or the empty format:
    the idiom of cbLeaveSpan, cbText and insertBlock. *)
Definition spanFormatTop (st : list QTextCharFormat) : QTextCharFormat :=
  match st with
  | f :: _ => f
  | [] => emptyCharFormat
  end.

(** ** Counting tags in a raw HTML fragment

    cbText runs, for each of its two patterns,
      startIdx = 0;
      while ((startIdx = s.indexOf(pattern, startIdx)) >= 0)
        { count; startIdx += 2; }
    Both patterns match exactly two code units. *)

Definition isAsciiLetter (c : QChar) : bool :=
  ((97 <=? c) && (c <=? 122)) || ((65 <=? c) && (c <=? 90)).

(** openingBracket, "<[a-zA-Z]", at the two code units a b *)
Definition openingBracket (a b : QChar) : bool :=
  (a =? 60) && isAsciiLetter b.

(** closingBracket, "(/>|</)", at the two code units a b *)
Definition closingBracket (a b : QChar) : bool :=
  ((a =? 47) && (b =? 62)) || ((a =? 60) && (b =? 47)).

(** s.indexOf(pattern, from) on the suffix [s] that starts at index [pos];
    -1 when there is no match at or after [from]. *)
Fixpoint indexOfFrom (p : QChar -> QChar -> bool) (s : QString)
    (pos from : Z) : Z :=
  match s with
  | a :: (b :: _) as tl =>
      if (from <=? pos) && p a b then pos else indexOfFrom p tl (pos + 1) from
  | _ => -1
  end.

Definition indexOf (p : QChar -> QChar -> bool) (s : QString) (from : Z) : Z :=
  indexOfFrom p s 0 from.

(** The while loop; [n] counts its iterations.  Every iteration moves
    startIdx forward by at least two, so [length s] iterations exhaust it
    ([matchLoop_fuel]). *)
Fixpoint matchLoop (fuel : nat) (p : QChar -> QChar -> bool) (s : QString)
    (startIdx n : Z) : Z :=
  match fuel with
  | O => n
  | S fuel' =>
      let i := indexOf p s startIdx in
      if 0 <=? i then matchLoop fuel' p s (i + 2) (n + 1) else n
  end.

Definition countMatches (p : QChar -> QChar -> bool) (s : QString) : Z :=
  matchLoop (length s) p s 0 0.

(** ** The merge loop of cbLeaveBlock, MD_BLOCK_TR

    for (int col = m_tableCol; col >= 0; --col): [k] is col + 1. *)

Definition contains (l : list Z) (x : Z) : bool := existsb (Z.eqb x) l.

Section Callbacks.

Variable sink : DocumentSink.

Fixpoint mergeLoop (k : nat) (mergeEnd mergeBegin : Z) : M unit :=
  match k with
  | O => ret tt
  | S k' =>
      let col := Z.of_nat k' in
      nonEmpty <- gets m_nonEmptyTableCells ;;
      if contains nonEmpty col then
        when ((mergeEnd >=? 0) && (mergeBegin >=? 0))
          (t <- currentTable ;;
           r <- gets (fun s => rows sink (doc s) t) ;;
           emit (MergeCells t (r - 1) (mergeBegin - 1) 1
                   (mergeEnd - mergeBegin + 2))) ;;
        mergeLoop k' (-1) (-1)
      else if mergeEnd <? 0 then mergeLoop k' col mergeBegin
      else mergeLoop k' mergeEnd col
  end.

(** ** insertBlock *)

(** The two formats insertBlock() builds before it calls
    m_cursor->insertBlock(blockFormat, charFormat). *)
Definition insertBlock_formats (st : Importer)
    : QTextBlockFormat * QTextCharFormat :=
  let charFormat := spanFormatTop (m_spanFormatStack st) in
  let blockFormat := emptyBlockFormat in
  let blockFormat :=
    if negb (m_blockQuoteDepth st =? 0) then
      setRightMargin BlockQuoteIndent
        (setLeftMargin (wrap_int (BlockQuoteIndent * m_blockQuoteDepth st))
           (setBlockQuoteLevel (m_blockQuoteDepth st) blockFormat))
    else blockFormat in
  let blockFormat :=
    if negb (Z.of_nat (length (m_listStack st)) =? 0) then
      setIndent (Z.of_nat (length (m_listStack st))) blockFormat
    else blockFormat in
  if m_codeBlock st then
    (setBlockCodeLanguage (m_blockCodeLanguage st) blockFormat,
     setFont (m_monoFont st) charFormat)
  else
    (setBottomMargin (m_paragraphMargin st)
       (setTopMargin (m_paragraphMargin st) blockFormat),
     charFormat).

Definition insertBlock : M unit :=
  st <- gets (fun s => s) ;;
  let '(blockFormat, charFormat) := insertBlock_formats st in
  emit (InsertBlock blockFormat charFormat) ;;
  modify (set_m_needsInsertBlock false).

(** ** cbEnterBlock *)

Definition cbEnterBlock (b : Block) : M Z :=
  modify (set_m_blockType (blockType b)) ;;
  match b with
  | BlockP =>
      listStack <- gets m_listStack ;;
      emptyListItem <- gets m_emptyListItem ;;
      (if isEmpty listStack then modify (set_m_needsInsertBlock true)
       else if emptyListItem then modify (set_m_emptyListItem false)
       else modify (set_m_needsInsertBlock true)) ;;
      ret 0
  | BlockQuote =>
      modify (fun s => set_m_blockQuoteDepth (m_blockQuoteDepth s + 1) s) ;;
      ret 0
  | BlockCode info lang =>
      modify (set_m_codeBlock true) ;;
      modify (set_m_blockCodeLanguage lang) ;;
      modify (set_m_needsInsertBlock true) ;;
      ret 0
  | BlockH level =>
      let blockFmt := emptyBlockFormat in
      let charFmt := emptyCharFormat in
      let sizeAdjustment := wrap_int (4 - int_of_unsigned level) in
      let charFmt := setFontSizeAdjustment sizeAdjustment charFmt in
      let charFmt := setFontWeight QFont_Bold charFmt in
      let blockFmt := setHeadingLevel (int_of_unsigned level) blockFmt in
      modify (set_m_needsInsertBlock false) ;;
      emit (InsertBlock blockFmt charFmt) ;;
      ret 0
  | BlockLI is_task task_mark =>
      modify (set_m_needsInsertBlock false) ;;
      list <- listStack_top ;;
      bfmt <- gets (fun s => lastItemBlockFormat sink (doc s) list) ;;
      let bfmt :=
        setMarker (if is_task
                   then (if Ascii.eqb task_mark " " then Unchecked
                         else Checked)
                   else NoMarker) bfmt in
      emptyList <- gets m_emptyList ;;
      when (negb emptyList)
        (emit (InsertBlock bfmt emptyCharFormat) ;;
         emit (ListAdd list)) ;;
      emit (SetBlockFormat bfmt) ;;
      modify (set_m_emptyList false) ;;
      modify (set_m_listItem true) ;;
      modify (set_m_emptyListItem true) ;;
      ret 0
  | BlockUL mark =>
      count <- gets (fun s => Z.of_nat (length (m_listStack s))) ;;
      let style :=
        if Ascii.eqb mark "*" then ListCircle
        else if Ascii.eqb mark "+" then ListSquare
        else ListDisc in
      let fmt := {| lf_indent := Some (count + 1);
                    lf_style := Some style;
                    lf_numberSuffix := None |} in
      h <- insertList fmt ;;
      modify (fun s => set_m_listStack (h :: m_listStack s) s) ;;
      modify (set_m_emptyList true) ;;
      ret 0
  | BlockOL mark_delimiter =>
      count <- gets (fun s => Z.of_nat (length (m_listStack s))) ;;
      let fmt := {| lf_indent := Some (count + 1);
                    lf_style := Some ListDecimal;
                    lf_numberSuffix :=
                      Some [QChar_fromLatin1 mark_delimiter] |} in
      h <- insertList fmt ;;
      modify (fun s => set_m_listStack (h :: m_listStack s) s) ;;
      modify (set_m_emptyList true) ;;
      ret 0
  | BlockTD align =>
      modify (fun s => set_m_tableCol (m_tableCol s + 1) s) ;;
      t <- currentTable ;;
      st <- gets (fun s => s) ;;
      if negb (cellIsValid sink (doc st) t (m_tableRowCount st - 1)
                 (m_tableCol st))
      then qWarning "malformed table in Markdown input" ;; ret 1
      else
        emit (CursorToCell t (m_tableRowCount st - 1) (m_tableCol st)) ;;
        blockFmt <- gets (fun s => blockFormat sink (doc s)) ;;
        emit (SetBlockFormat (setAlignment (MdAlignment align) blockFmt)) ;;
        ret 0
  | BlockTH _ =>
      modify (fun s => set_m_tableColumnCount (m_tableColumnCount s + 1) s) ;;
      modify (fun s => set_m_tableCol (m_tableCol s + 1) s) ;;
      t <- currentTable ;;
      st <- gets (fun s => s) ;;
      when (columns sink (doc st) t <? m_tableColumnCount st)
        (emit (AppendColumns t 1)) ;;
      st <- gets (fun s => s) ;;
      if negb (cellIsValid sink (doc st) t (m_tableRowCount st - 1)
                 (m_tableCol st))
      then qWarning "malformed table in Markdown input" ;; ret 1
      else
        let fmt := cellFormat sink (doc st) t (m_tableRowCount st - 1)
                     (m_tableCol st) in
        emit (CellSetFormat t (m_tableRowCount st - 1) (m_tableCol st)
                (setFontWeight QFont_Bold fmt)) ;;
        ret 0
  | BlockTR =>
      modify (fun s => set_m_tableRowCount (m_tableRowCount s + 1) s) ;;
      modify (set_m_nonEmptyTableCells []) ;;
      t <- currentTable ;;
      st <- gets (fun s => s) ;;
      when (rows sink (doc st) t <? m_tableRowCount st)
        (emit (AppendRows t 1)) ;;
      modify (set_m_tableCol (-1)) ;;
      ret 0
  | BlockTable =>
      modify (set_m_tableColumnCount 0) ;;
      modify (set_m_tableRowCount 0) ;;
      h <- insertTable 1 1 ;;
      modify (set_m_currentTable (Some h)) ;;
      ret 0
  | BlockHR =>
      emit (InsertBlock
              (setBlockTrailingHorizontalRulerWidth 1 emptyBlockFormat)
              emptyCharFormat) ;;
      ret 0
  | _ => ret 0
  end.

(** ** cbLeaveBlock *)

Definition cbLeaveBlock (t : MD_BLOCKTYPE) : M Z :=
  match t with
  | MD_BLOCK_UL | MD_BLOCK_OL =>
      listStack_pop ;;
      ret 0
  | MD_BLOCK_TR =>
      tableCol <- gets m_tableCol ;;
      mergeLoop (Z.to_nat (tableCol + 1)) (-1) (-1) ;;
      ret 0
  | MD_BLOCK_QUOTE =>
      modify (fun s => set_m_blockQuoteDepth (m_blockQuoteDepth s - 1) s) ;;
      modify (set_m_needsInsertBlock true) ;;
      ret 0
  | MD_BLOCK_TABLE =>
      modify (set_m_currentTable None) ;;
      emit MovePositionEnd ;;
      ret 0
  | MD_BLOCK_LI =>
      modify (set_m_listItem false) ;;
      ret 0
  | MD_BLOCK_CODE =>
      modify (set_m_codeBlock false) ;;
      modify (set_m_blockCodeLanguage []) ;;
      modify (set_m_needsInsertBlock true) ;;
      ret 0
  | MD_BLOCK_H =>
      emit (SetCharFormat emptyCharFormat) ;;
      ret 0
  | _ => ret 0
  end.

(** ** cbEnterSpan *)

Definition cbEnterSpan (sp : Span) : M Z :=
  let charFmt := emptyCharFormat in
  charFmt <-
    match sp with
    | SpanEm => ret (setFontItalic true charFmt)
    | SpanStrong => ret (setFontWeight QFont_Bold charFmt)
    | SpanA url title =>
        link <- gets m_palette_link ;;
        ret (setForeground link
               (setAnchorNames [title] (setAnchorHref url charFmt)))
    | SpanImg src title =>
        modify (set_m_imageSpan true) ;;
        let img := {| img_name := Some src |} in
        needsInsertBlock <- gets m_needsInsertBlock ;;
        when needsInsertBlock insertBlock ;;
        emit (InsertImage img) ;;
        ret charFmt
    | SpanCode =>
        mono <- gets m_monoFont ;;
        ret (setFont mono charFmt)
    | SpanDel => ret (setFontStrikeOut true charFmt)
    | SpanUnknown _ => ret charFmt
    end ;;
  modify (fun s => set_m_spanFormatStack (charFmt :: m_spanFormatStack s) s) ;;
  emit (SetCharFormat charFmt) ;;
  ret 0.

(** ** cbLeaveSpan *)

Definition cbLeaveSpan (t : MD_SPANTYPE) : M Z :=
  let charFmt := emptyCharFormat in
  stack <- gets m_spanFormatStack ;;
  charFmt <-
    (if negb (isEmpty stack) then
       modify (set_m_spanFormatStack (tl stack)) ;;
       stack <- gets m_spanFormatStack ;;
       if negb (isEmpty stack) then ret (spanFormatTop stack)
       else ret charFmt
     else ret charFmt) ;;
  emit (SetCharFormat charFmt) ;;
  when (match t with MD_SPAN_IMG => true | _ => false end)
    (modify (set_m_imageSpan false)) ;;
  ret 0.

(** ** cbText *)

(** The switch on textType; its result is the [s] that remains to be
    inserted as text. *)
Definition textSwitch (t : MD_TEXTTYPE) (s : QString) : M QString :=
  match t with
  | MD_TEXT_NORMAL =>
      depth <- gets m_htmlTagDepth ;;
      if negb (depth =? 0) then
        modify (fun st => set_m_htmlAccumulator (m_htmlAccumulator st ++ s) st) ;;
        ret []
      else ret s
  | MD_TEXT_NULLCHAR => ret [65533]        (* QChar(0xFFFD) *)
  | MD_TEXT_BR => ret [Newline]
  | MD_TEXT_SOFTBR => ret [Space]
  | MD_TEXT_CODE => ret s
  | MD_TEXT_ENTITY =>
      emit (InsertHtml s) ;;
      ret []
  | MD_TEXT_HTML =>
      modify (fun st =>
        set_m_htmlTagDepth (m_htmlTagDepth st + countMatches openingBracket s)
          st) ;;
      modify (fun st =>
        set_m_htmlTagDepth (m_htmlTagDepth st - countMatches closingBracket s)
          st) ;;
      modify (fun st => set_m_htmlAccumulator (m_htmlAccumulator st ++ s) st) ;;
      depth <- gets m_htmlTagDepth ;;
      when (depth =? 0)
        (acc <- gets m_htmlAccumulator ;;
         emit (InsertHtml acc) ;;
         stack <- gets m_spanFormatStack ;;
         (if isEmpty stack then emit (SetCharFormat emptyCharFormat)
          else emit (SetCharFormat (spanFormatTop stack))) ;;
         modify (set_m_htmlAccumulator [])) ;;
      ret []
  | MD_TEXT_UNKNOWN _ => ret s
  end.

Definition cbText (t : MD_TEXTTYPE) (text : QString) : M Z :=
  imageSpan <- gets m_imageSpan ;;
  if imageSpan then ret 0
  else
    needsInsertBlock <- gets m_needsInsertBlock ;;
    when needsInsertBlock insertBlock ;;
    s <- textSwitch t text ;;
    bt <- gets m_blockType ;;
    (match bt with
     | MD_BLOCK_TD =>
         modify (fun st =>
           set_m_nonEmptyTableCells (m_nonEmptyTableCells st ++ [m_tableCol st])
             st)
     | _ => ret tt
     end) ;;
    when (negb (isEmpty s)) (emit (InsertText s)) ;;
    inList <- gets (fun st => currentList sink (doc st)) ;;
    when inList
      (bfmt <- gets (fun st => blockFormat sink (doc st)) ;;
       emit (SetBlockFormat (setIndent 0 bfmt))) ;;
    ret 0.

(** ** The event stream *)

Inductive Event : Type :=
| EnterBlock (b : Block)
| LeaveBlock (t : MD_BLOCKTYPE)
| EnterSpan (sp : Span)
| LeaveSpan (t : MD_SPANTYPE)
| Text (t : MD_TEXTTYPE) (s : QString).

(** The wrappers CbEnterBlock .. CbText. *)
Definition callback (e : Event) : M Z :=
  match e with
  | EnterBlock b => cbEnterBlock b
  | LeaveBlock t => cbLeaveBlock t
  | EnterSpan sp => cbEnterSpan sp
  | LeaveSpan t => cbLeaveSpan t
  | Text t s => cbText t s
  end.

(** Modelled from the spec: md_parse (3rdparty/md4c, not in this file) calls
    the callbacks in document order and stops at the first one that returns
    a nonzero status, which is then its own result. *)
Fixpoint md_parse (events : list Event) : M Z :=
  match events with
  | [] => ret 0
  | e :: rest =>
      status <- callback e ;;
      if status =? 0 then md_parse rest else ret status
  end.

End Callbacks.

(** The importer as import() sets it up before md_parse runs: doc->clear(),
    m_paragraphMargin = defaultFont().pointSize() * 2 / 3 (C++ integer
    division), every other field as its member initialiser leaves it. *)
Definition newImporter (monoFont : QFont) (link : QBrush) (pointSize : Z)
    : Importer :=
  {| doc := []; warnings := [];
     m_monoFont := monoFont; m_palette_link := link;
     m_paragraphMargin := Z.quot (wrap_int (pointSize * 2)) 3;
     m_listStack := []; m_spanFormatStack := []; m_currentTable := None;
     m_htmlAccumulator := []; m_blockCodeLanguage := [];
     m_nonEmptyTableCells := [];
     m_tableColumnCount := 0; m_tableRowCount := 0; m_tableCol := -1;
     m_blockQuoteDepth := 0; m_htmlTagDepth := 0;
     m_blockType := MD_BLOCK_DOC;
     m_emptyList := false; m_listItem := false; m_emptyListItem := false;
     m_codeBlock := false; m_imageSpan := false;
     m_needsInsertBlock := false |}.

(** ** A concrete sink

    Modelled from the spec: the Document Sink (QTextCursor, QTextTable and
    QTextList live outside this file).  A table is a grid that insertTable
    creates with the given shape and that appendRows and appendColumns
    grow; cellAt is valid exactly inside the grid.  The cursor is in a list
    right after insertList or list->add, and outside one right after any
    other block is created or the cursor is moved; its block format is the
    one last given to insertBlock or setBlockFormat for the block it is in.
    The callbacks never depend on these choices: they take any sink. *)

Fixpoint tableSize (tr : Trace) (next : TableHandle) (t : TableHandle)
    (size : Z * Z) : Z * Z :=
  match tr with
  | [] => size
  | InsertTable r c :: tr' =>
      tableSize tr' (S next) t (if Nat.eqb next t then (r, c) else size)
  | AppendRows t' n :: tr' =>
      tableSize tr' next t
        (if Nat.eqb t' t then (fst size + n, snd size) else size)
  | AppendColumns t' n :: tr' =>
      tableSize tr' next t
        (if Nat.eqb t' t then (fst size, snd size + n) else size)
  | _ :: tr' => tableSize tr' next t size
  end.

Fixpoint cursorInList (tr : Trace) (inList : bool) : bool :=
  match tr with
  | [] => inList
  | (InsertList _ | ListAdd _) :: tr' => cursorInList tr' true
  | (InsertBlock _ _ | InsertTable _ _ | CursorToCell _ _ _
    | MovePositionEnd) :: tr' => cursorInList tr' false
  | _ :: tr' => cursorInList tr' inList
  end.

Fixpoint cursorBlockFormat (tr : Trace) (f : QTextBlockFormat)
    : QTextBlockFormat :=
  match tr with
  | [] => f
  | (InsertBlock bf _ | SetBlockFormat bf) :: tr' => cursorBlockFormat tr' bf
  | (InsertTable _ _ | CursorToCell _ _ _ | MovePositionEnd) :: tr' =>
      cursorBlockFormat tr' emptyBlockFormat
  | _ :: tr' => cursorBlockFormat tr' f
  end.

Definition gridSink : DocumentSink :=
  {| currentList := fun tr => cursorInList tr false;
     blockFormat := fun tr => cursorBlockFormat tr emptyBlockFormat;
     lastItemBlockFormat := fun _ _ => emptyBlockFormat;
     rows := fun tr t => fst (tableSize tr 0%nat t (0, 0));
     columns := fun tr t => snd (tableSize tr 0%nat t (0, 0));
     cellIsValid := fun tr t row col =>
       let '(r, c) := tableSize tr 0%nat t (0, 0) in
       (0 <=? row) && (row <? r) && (0 <=? col) && (col <? c);
     cellFormat := fun _ _ _ _ => emptyCharFormat |}.

(** The importer of the examples: a 12 point default font. *)
Definition anImporter : Importer := newImporter "monospace"%string "blue"%string 12.

(** The importer after a run of events (the importer itself where the run
    is undefined); the states of the examples are reached this way. *)
Definition stateAfter (sink : DocumentSink) (events : list Event)
    (st : Importer) : Importer :=
  match md_parse sink events st with
  | Some (_, st') => st'
  | None => st
  end.

(** ** Reading the document

    Modelled from the spec: "the format in effect for new text" is the
    character format most recently applied with setCharFormat or given to
    insertBlock; a text run carries the format in effect when it is
    inserted. *)

Fixpoint charFormatAfter (ops : Trace) (f : QTextCharFormat)
    : QTextCharFormat :=
  match ops with
  | [] => f
  | (SetCharFormat cf | InsertBlock _ cf) :: ops' => charFormatAfter ops' cf
  | _ :: ops' => charFormatAfter ops' f
  end.

Definition activeCharFormat (d : Trace) : QTextCharFormat :=
  charFormatAfter d emptyCharFormat.

Fixpoint textRuns (ops : Trace) (f : QTextCharFormat)
    : list (QString * QTextCharFormat) :=
  match ops with
  | [] => []
  | InsertText s :: ops' => (s, f) :: textRuns ops' f
  | (SetCharFormat cf | InsertBlock _ cf) :: ops' => textRuns ops' cf
  | _ :: ops' => textRuns ops' f
  end.

Definition isMergeCells (o : SinkOp) : bool :=
  match o with MergeCells _ _ _ _ _ => true | _ => false end.

(** The calls that create or reformat a block, as opposed to those that
    insert text, markup or images or set the character format. *)
Definition isBlockCall (o : SinkOp) : bool :=
  match o with
  | InsertBlock _ _ | SetBlockFormat _ => true
  | _ => false
  end.

(** ** The Table Merge Resolver as the specification words it

    Two markers, runEnd and runStart, each unset ([None]) or a column.  The
    columns are visited from currentColumn down to 0.  At a column of the
    non-empty set: if both markers are set, one merge, anchored at
    runStart - 1 and spanning runEnd - runStart + 2 columns; then both
    markers are cleared.  At an empty column: runEnd is set if it is unset,
    otherwise runStart is set. *)
Module ResolverSpec.

Record Merge : Type := { anchor : Z; span : Z }.

Definition Markers : Type := (option Z * option Z)%type.  (* runEnd, runStart *)

(** currentColumn, ..., 1, 0 for currentColumn = k - 1 *)
Fixpoint downFrom (k : nat) : list Z :=
  match k with
  | O => []
  | S k' => Z.of_nat k' :: downFrom k'
  end.

Definition scanOrder (currentColumn : Z) : list Z :=
  downFrom (Z.to_nat (currentColumn + 1)).

Definition visit (nonEmpty : list Z) (col : Z) (m : Markers)
    : list Merge * Markers :=
  let '(runEnd, runStart) := m in
  if contains nonEmpty col then
    (match runEnd, runStart with
     | Some e, Some b => [{| anchor := b - 1; span := e - b + 2 |}]
     | _, _ => []
     end,
     (None, None))
  else
    match runEnd with
    | None => ([], (Some col, runStart))
    | Some _ => ([], (runEnd, Some col))
    end.

Fixpoint resolve (nonEmpty : list Z) (cols : list Z) (m : Markers)
    : list Merge :=
  match cols with
  | [] => []
  | col :: cols' =>
      let '(merged, m') := visit nonEmpty col m in
      merged ++ resolve nonEmpty cols' m'
  end.

(** Each merge is one mergeCells call on the last row of the table. *)
Fixpoint applyMerges (sink : DocumentSink) (t : TableHandle) (d : Trace)
    (ms : list Merge) : Trace :=
  match ms with
  | [] => d
  | m :: ms' =>
      applyMerges sink t
        (d ++ [MergeCells t (rows sink d t - 1) (anchor m) 1 (span m)]) ms'
  end.

(** What the resolver's merges do to the importer: none leaves it as it
    is, and one or more are calls through m_currentTable. *)
Definition mergesApplied (sink : DocumentSink) (st : Importer)
    (ms : list Merge) : option (unit * Importer) :=
  if isEmpty ms then Some (tt, st)
  else match m_currentTable st with
       | Some t => Some (tt, set_doc (applyMerges sink t (doc st) ms) st)
       | None => None
       end.

End ResolverSpec.

(** The markers after a run of [j] empty columns k+j-1, ..., k scanned from
    unset markers. *)
Definition emptyRunMarkers (k j : nat) : ResolverSpec.Markers :=
  match j with
  | O => (None, None)
  | S O => (Some (Z.of_nat k), None)
  | _ => (Some (Z.of_nat (k + j) - 1), Some (Z.of_nat k))
  end.

(** A marker of the source is an int, unset when negative. *)
Definition marker (z : Z) : option Z := if z <? 0 then None else Some z.

(** ** Event streams of the examples *)

Definition headerCell (s : string) : list Event :=
  [EnterBlock (BlockTH MD_ALIGN_DEFAULT); Text MD_TEXT_NORMAL (qstr s);
   LeaveBlock MD_BLOCK_TH].

Definition dataCell (s : string) : list Event :=
  [EnterBlock (BlockTD MD_ALIGN_DEFAULT); Text MD_TEXT_NORMAL (qstr s);
   LeaveBlock MD_BLOCK_TD].

(** MD4C sends a cell without text for every column a row leaves out. *)
Definition emptyDataCell : list Event :=
  [EnterBlock (BlockTD MD_ALIGN_DEFAULT); LeaveBlock MD_BLOCK_TD].

Definition tableRow (cells : list Event) : list Event :=
  EnterBlock BlockTR :: cells ++ [LeaveBlock MD_BLOCK_TR].

(** A table with the header | a | b | c | and the one data row [row]. *)
Definition threeColumnTable (row : list Event) : list Event :=
  [EnterBlock BlockTable; EnterBlock BlockTHead]
  ++ tableRow (headerCell "a" ++ headerCell "b" ++ headerCell "c")
  ++ [LeaveBlock MD_BLOCK_THEAD; EnterBlock BlockTBody]
  ++ tableRow row
  ++ [LeaveBlock MD_BLOCK_TBODY; LeaveBlock MD_BLOCK_TABLE].

(** ** What a text event puts into the document *)

(** The call of a pending deferred block insertion. *)
Definition deferredBlock (st : Importer) : list SinkOp :=
  if m_needsInsertBlock st then
    [InsertBlock (fst (insertBlock_formats st)) (snd (insertBlock_formats st))]
  else [].

(** The indent reset at the end of cbText, on the document [d]. *)
Definition listIndentReset (sink : DocumentSink) (d : Trace) : list SinkOp :=
  if currentList sink d then [SetBlockFormat (setIndent 0 (blockFormat sink d))]
  else [].

(** insertText of a string, which the source skips for the empty string. *)
Definition textCall (s : QString) : list SinkOp :=
  if isEmpty s then [] else [InsertText s].

(** The tag depth after a raw HTML fragment. *)
Definition depthAfter (st : Importer) (s : QString) : Z :=
  m_htmlTagDepth st + countMatches openingBracket s
  - countMatches closingBracket s.

(** The content of a text event as the specification words it, by subkind:
    Normal as it is unless raw HTML is being accumulated; NullChar the
    replacement character; HardBreak the line separator; SoftBreak one
    space; Code the text, with no format of its own; Entity as markup;
    RawHtmlFragment nothing, until the depth is back to zero and the whole
    accumulated markup goes in, followed by the restored format. *)
Definition insertedContent (st : Importer) (t : MD_TEXTTYPE) (s : QString)
    : list SinkOp :=
  match t with
  | MD_TEXT_NORMAL => if m_htmlTagDepth st =? 0 then textCall s else []
  | MD_TEXT_NULLCHAR => [InsertText [65533]]
  | MD_TEXT_BR => [InsertText [Newline]]
  | MD_TEXT_SOFTBR => [InsertText [Space]]
  | MD_TEXT_CODE => textCall s
  | MD_TEXT_ENTITY => [InsertHtml s]
  | MD_TEXT_HTML =>
      if depthAfter st s =? 0 then
        [InsertHtml (m_htmlAccumulator st ++ s);
         SetCharFormat (spanFormatTop (m_spanFormatStack st))]
      else []
  | MD_TEXT_UNKNOWN _ => textCall s
  end.

(** The accumulator after a text event. *)
Definition accumulatorAfter (st : Importer) (t : MD_TEXTTYPE) (s : QString)
    : QString :=
  match t with
  | MD_TEXT_NORMAL =>
      if m_htmlTagDepth st =? 0 then m_htmlAccumulator st
      else m_htmlAccumulator st ++ s
  | MD_TEXT_HTML =>
      if depthAfter st s =? 0 then [] else m_htmlAccumulator st ++ s
  | _ => m_htmlAccumulator st
  end.

(** ** The Text Event Handler as the specification words it

    Written from the specification, with nothing taken from the code: the
    characters are given by their code points, and the tags of a raw HTML
    fragment are counted by one pass over the fragment, left to right,
    where a match uses up its two characters.  A letter is an ASCII letter.
    [MD_TEXT_UNKNOWN] is not a subkind of the specification. *)

Module TextSpec.

Definition replacementCharacter : QChar := 65533.   (* U+FFFD *)
Definition lineSeparator : QChar := 10.             (* U+000A, line feed *)
Definition singleSpace : QChar := 32.               (* U+0020 *)

Definition lessThan : QChar := 60.                  (* < *)
Definition greaterThan : QChar := 62.               (* > *)
Definition slash : QChar := 47.                     (* / *)

Definition isLetter (c : QChar) : bool :=
  ((65 <=? c) && (c <=? 90)) || ((97 <=? c) && (c <=? 122)).

(** An opening-tag pattern: < followed by a letter. *)
Definition opensTag (a b : QChar) : bool :=
  (a =? lessThan) && isLetter b.

(** A closing-tag pattern: /> or </. *)
Definition closesTag (a b : QChar) : bool :=
  ((a =? slash) && (b =? greaterThan)) || ((a =? lessThan) && (b =? slash)).

(** The number of matches of a two-character pattern in [s]; [used] tells
    that the first character of [s] is the second one of a match. *)
Fixpoint matches (p : QChar -> QChar -> bool) (s : QString) (used : bool)
    : Z :=
  match s with
  | a :: tl =>
      match tl with
      | b :: _ =>
          if used then matches p tl false
          else if p a b then 1 + matches p tl true
          else matches p tl false
      | [] => 0
      end
  | [] => 0
  end.

(** Increment the tag depth per opening match, decrement it per closing
    match. *)
Definition tagDepthAfter (depth : Z) (s : QString) : Z :=
  depth + matches opensTag s false - matches closesTag s false.

Definition listed (t : MD_TEXTTYPE) : bool :=
  match t with MD_TEXT_UNKNOWN _ => false | _ => true end.

(** Text inserted as it is; there is nothing to insert of an empty text. *)
Definition asItIs (s : QString) : list SinkOp :=
  match s with [] => [] | _ :: _ => [InsertText s] end.

(** What a text event of each subkind puts into the sink, at tag depth
    [depth], with [acc] accumulated and [top] the format of the span-stack
    top.  A raw HTML fragment puts in nothing of its own: it joins the
    accumulator, and the accumulator is flushed when the depth is back to
    zero. *)
Definition content (depth : Z) (acc : QString) (top : QTextCharFormat)
    (t : MD_TEXTTYPE) (s : QString) : list SinkOp :=
  match t with
  | MD_TEXT_NORMAL => if depth =? 0 then asItIs s else []
  | MD_TEXT_NULLCHAR => [InsertText [replacementCharacter]]
  | MD_TEXT_BR => [InsertText [lineSeparator]]
  | MD_TEXT_SOFTBR => [InsertText [singleSpace]]
  | MD_TEXT_CODE => asItIs s
  | MD_TEXT_ENTITY => [InsertHtml s]
  | MD_TEXT_HTML =>
      if tagDepthAfter depth s =? 0
      then [InsertHtml (acc ++ s); SetCharFormat top]
      else []
  | MD_TEXT_UNKNOWN _ => []
  end.

(** The accumulator and the tag depth after the event. *)
Definition accumulator (depth : Z) (acc : QString) (t : MD_TEXTTYPE)
    (s : QString) : QString :=
  match t with
  | MD_TEXT_NORMAL => if depth =? 0 then acc else acc ++ s
  | MD_TEXT_HTML => if tagDepthAfter depth s =? 0 then [] else acc ++ s
  | _ => acc
  end.

Definition depth (d : Z) (t : MD_TEXTTYPE) (s : QString) : Z :=
  match t with
  | MD_TEXT_HTML => tagDepthAfter d s
  | _ => d
  end.

End TextSpec.

(** The importer inside a paragraph that has opened the tag <span>. *)
Definition inSpanTag : Importer :=
  stateAfter gridSink [EnterBlock BlockP; Text MD_TEXT_HTML (qstr "<span>")]
    anImporter.

(** ** The snapshot of a span

    The character format cbEnterSpan builds for a span: it depends on the
    span, on the monospaced font and on the palette's link brush, and on
    nothing that the enclosing spans have pushed. *)
Definition spanSnapshot (mono : QFont) (link : QBrush) (sp : Span)
    : QTextCharFormat :=
  match sp with
  | SpanEm => setFontItalic true emptyCharFormat
  | SpanStrong => setFontWeight QFont_Bold emptyCharFormat
  | SpanA url title =>
      setForeground link
        (setAnchorNames [title] (setAnchorHref url emptyCharFormat))
  | SpanImg _ _ => emptyCharFormat
  | SpanCode => setFont mono emptyCharFormat
  | SpanDel => setFontStrikeOut true emptyCharFormat
  | SpanUnknown _ => emptyCharFormat
  end.

(** A paragraph that opens an inline tag: the importer right after the
    fragment <span> has been seen. *)
Definition insideSpanTag : list Event :=
  [EnterBlock BlockP; Text MD_TEXT_HTML (qstr "<span>")].

(** ** Block kinds the importer has no case for

    The Other of the specification: the block types that reach the default
    branch of both cbEnterBlock and cbLeaveBlock. *)
Definition isOtherBlock (t : MD_BLOCKTYPE) : bool :=
  match t with
  | MD_BLOCK_DOC | MD_BLOCK_HTML | MD_BLOCK_THEAD | MD_BLOCK_TBODY
  | MD_BLOCK_UNKNOWN _ => true
  | _ => false
  end.

(** ** Malformed tables and undefined calls *)

Definition isNone {A} (o : option A) : bool :=
  match o with None => true | Some _ => false end.

(** The cell lookup of a TableHeaderCell or TableDataCell event, at
    (m_tableRowCount - 1, m_tableCol) once m_tableCol has been advanced (and,
    for a header cell, once the table has been given its new column),
    returns an invalid cell. *)
Definition cellLookupFails (sink : DocumentSink) (st : Importer) (b : Block)
    : bool :=
  match b, m_currentTable st with
  | BlockTD _, Some t =>
      negb (cellIsValid sink (doc st) t (m_tableRowCount st - 1)
              (m_tableCol st + 1))
  | BlockTH _, Some t =>
      let d := if columns sink (doc st) t <? m_tableColumnCount st + 1
               then doc st ++ [AppendColumns t 1] else doc st in
      negb (cellIsValid sink d t (m_tableRowCount st - 1) (m_tableCol st + 1))
  | _, _ => false
  end.

(** The events on which cbEnterBlock dereferences a null m_currentTable or
    takes the top of an empty list stack. *)
Definition enterUndefined (st : Importer) (b : Block) : bool :=
  match b with
  | BlockTD _ | BlockTH _ | BlockTR => isNone (m_currentTable st)
  | BlockLI _ _ => isEmpty (m_listStack st)
  | _ => false
  end.

(** The events on which cbLeaveBlock pops an empty list stack or merges
    cells through a null m_currentTable. *)
Definition leaveUndefined (st : Importer) (t : MD_BLOCKTYPE) : bool :=
  match t with
  | MD_BLOCK_UL | MD_BLOCK_OL => isEmpty (m_listStack st)
  | MD_BLOCK_TR =>
      negb (isEmpty (ResolverSpec.resolve (m_nonEmptyTableCells st)
                       (ResolverSpec.scanOrder (m_tableCol st)) (None, None)))
      && isNone (m_currentTable st)
  | _ => false
  end.

(** An importer in the first row of a table that has one column, with the
    cursor past that column. *)
Definition pastLastColumn : Importer :=
  set_m_tableCol 0
    (set_m_tableRowCount 1
       (set_m_tableColumnCount 1
          (set_m_currentTable (Some 0%nat)
             (set_doc [InsertTable 1 1] anImporter)))).

(** ** The nesting state and its abstract machine

    The three nesting contexts of the importer: the block-quote depth, the
    depth of the list stack and the span-format stack.  [nestingStep] is
    what one event does to them according to the callbacks: a quote enter
    or leave moves the depth by one, a list enter pushes and a list leave
    pops, a span enter pushes its snapshot and a span leave pops if there is
    something to pop. *)

Record Nesting : Type := {
  quoteDepth : Z;
  listDepth : nat;
  spans : list QTextCharFormat
}.

Definition nestingOf (st : Importer) : Nesting :=
  {| quoteDepth := m_blockQuoteDepth st;
     listDepth := length (m_listStack st);
     spans := m_spanFormatStack st |}.

Definition nestingStep (mono : QFont) (link : QBrush) (e : Event)
    (n : Nesting) : Nesting :=
  match e with
  | EnterBlock BlockQuote =>
      {| quoteDepth := quoteDepth n + 1; listDepth := listDepth n;
         spans := spans n |}
  | LeaveBlock MD_BLOCK_QUOTE =>
      {| quoteDepth := quoteDepth n - 1; listDepth := listDepth n;
         spans := spans n |}
  | EnterBlock (BlockUL _) | EnterBlock (BlockOL _) =>
      {| quoteDepth := quoteDepth n; listDepth := S (listDepth n);
         spans := spans n |}
  | LeaveBlock MD_BLOCK_UL | LeaveBlock MD_BLOCK_OL =>
      {| quoteDepth := quoteDepth n; listDepth := Nat.pred (listDepth n);
         spans := spans n |}
  | EnterSpan sp =>
      {| quoteDepth := quoteDepth n; listDepth := listDepth n;
         spans := spanSnapshot mono link sp :: spans n |}
  | LeaveSpan _ =>
      {| quoteDepth := quoteDepth n; listDepth := listDepth n;
         spans := tl (spans n) |}
  | _ => n
  end.

Definition nestingAfter (mono : QFont) (link : QBrush) (events : list Event)
    (n : Nesting) : Nesting :=
  fold_left (fun n e => nestingStep mono link e n) events n.

(** Events that open or close no quote, list or span. *)
Definition isNestingEvent (e : Event) : bool :=
  match e with
  | EnterBlock BlockQuote | EnterBlock (BlockUL _) | EnterBlock (BlockOL _)
  | LeaveBlock MD_BLOCK_QUOTE | LeaveBlock MD_BLOCK_UL | LeaveBlock MD_BLOCK_OL
  | EnterSpan _ | LeaveSpan _ => true
  | _ => false
  end.

Definition isListType (t : MD_BLOCKTYPE) : bool :=
  match t with MD_BLOCK_UL | MD_BLOCK_OL => true | _ => false end.

(** Event streams in which every quote, list and span that is entered is
    left again, innermost first. *)
Inductive wellNested : list Event -> Prop :=
| wn_nil : wellNested []
| wn_other : forall e rest,
    isNestingEvent e = false -> wellNested rest -> wellNested (e :: rest)
| wn_quote : forall inner rest,
    wellNested inner -> wellNested rest ->
    wellNested (EnterBlock BlockQuote :: inner
                ++ LeaveBlock MD_BLOCK_QUOTE :: rest)
| wn_list : forall b t inner rest,
    isListType (blockType b) = true -> isListType t = true ->
    wellNested inner -> wellNested rest ->
    wellNested (EnterBlock b :: inner ++ LeaveBlock t :: rest)
| wn_span : forall sp t inner rest,
    wellNested inner -> wellNested rest ->
    wellNested (EnterSpan sp :: inner ++ LeaveSpan t :: rest).

(** ** Sound merges

    A mergeCells call at column [col] over [numCols] columns, in a row
    whose last column is [lastCol], is sound for the set [nonEmpty] when it
    starts at a populated cell, swallows at least two cells after it, stays
    inside the row and swallows empty cells only. *)
Definition soundMerge (nonEmpty : list Z) (lastCol : Z) (col numCols : Z)
    : Prop :=
  0 <= col /\
  contains nonEmpty col = true /\
  3 <= numCols /\
  col + numCols - 1 <= lastCol /\
  forall c : Z, col < c < col + numCols -> contains nonEmpty c = false.

(** Calls (column, number of columns) that come right to left and never
    overlap. *)
Fixpoint disjointDescending (calls : list (Z * Z)) : Prop :=
  match calls with
  | [] => True
  | c :: rest =>
      Forall (fun c' => fst c' + snd c' <= fst c) rest /\
      disjointDescending rest
  end.

(** What the resolver knows when it is about to visit column k - 1 of a
    row of K columns: an unset runStart with a set runEnd means the run is
    the single column k; both set means the run is k .. runEnd; the run is
    empty cells of the row. *)
Definition markersInvariant (nonEmpty : list Z) (K k : nat)
    (m : ResolverSpec.Markers) : Prop :=
  match m with
  | (None, None) => True
  | (Some e, None) =>
      e = Z.of_nat k /\ e < Z.of_nat K /\ contains nonEmpty e = false
  | (Some e, Some b) =>
      b = Z.of_nat k /\ b < e /\ e < Z.of_nat K /\
      forall c : Z, b <= c <= e -> contains nonEmpty c = false
  | (None, Some _) => False
  end.

(** Where the next merge can end at most. *)
Definition mergeLimit (k : nat) (m : ResolverSpec.Markers) : Z :=
  match fst m with
  | Some e => e + 1
  | None => Z.of_nat k
  end.

Definition callOf (m : ResolverSpec.Merge) : Z * Z :=
  (ResolverSpec.anchor m, ResolverSpec.span m).

(** The mergeCells calls of a trace, as (column, number of columns). *)
Fixpoint mergeCalls (ops : Trace) : list (Z * Z) :=
  match ops with
  | [] => []
  | MergeCells _ _ col _ numCols :: ops' => (col, numCols) :: mergeCalls ops'
  | _ :: ops' => mergeCalls ops'
  end.

(** The calls that put text, markup or an image into the document. *)
Definition isContentCall (o : SinkOp) : bool :=
  match o with
  | InsertText _ | InsertHtml _ | InsertImage _ => true
  | _ => false
  end.

(** The events of a table header row between its enter and its leave. *)
Definition isHeaderCellEvent (e : Event) : bool :=
  match e with
  | EnterBlock (BlockTH _) | LeaveBlock MD_BLOCK_TH | Text _ _
  | EnterSpan _ | LeaveSpan _ => true
  | _ => false
  end.

(** An importer at the end of a table row of three cells of which only the
    first has text. *)
Definition rowWithTwoEmptyCells : Importer :=
  set_m_nonEmptyTableCells [0]
    (set_m_tableCol 2
       (set_m_tableRowCount 1
          (set_m_currentTable (Some 0%nat)
             (set_doc [InsertTable 1 1] anImporter)))).

(** A quoted paragraph with one emphasised word. *)
Definition quotedEmphasis : list Event :=
  [EnterBlock BlockQuote; EnterBlock BlockP; EnterSpan SpanEm;
   Text MD_TEXT_NORMAL (qstr "x"); LeaveSpan MD_SPAN_EM;
   LeaveBlock MD_BLOCK_P; LeaveBlock MD_BLOCK_QUOTE].

(** An importer right after the table has been entered. *)
Definition insideTable : Importer :=
  set_m_currentTable (Some 0%nat) (set_doc [InsertTable 1 1] anImporter).

(** The marker of a list item: a task item is unchecked when its mark is a
    space and checked otherwise; any other item has no marker. *)
Definition taskMarker (is_task : bool) (task_mark : ascii) : MarkerType :=
  if is_task then (if Ascii.eqb task_mark " " then Unchecked else Checked)
  else NoMarker.

(** An importer inside one list. *)
Definition insideList : Importer :=
  set_m_listStack [0%nat]
    (set_doc [InsertList {| lf_indent := Some 1; lf_style := Some ListDisc;
                            lf_numberSuffix := None |}] anImporter).

(** A data cell that holds one text event. *)
Definition textCell (p : MD_TEXTTYPE * QString) : list Event :=
  [EnterBlock (BlockTD MD_ALIGN_DEFAULT); Text (fst p) (snd p);
   LeaveBlock MD_BLOCK_TD].

(** A data row that has one text event in each of its first cells and no
    text in its last [missing] ones. *)
Definition shortRow (texts : list (MD_TEXTTYPE * QString)) (missing : nat)
    : list Event :=
  tableRow (concat (map textCell texts)
            ++ concat (repeat emptyDataCell missing)).

(** The cells recorded as non-empty are the columns 0 .. [c]. *)
Definition recordedUpTo (st : Importer) (c : Z) : Prop :=
  forall z : Z,
    contains (m_nonEmptyTableCells st) z = true <-> 0 <= z <= c.

(** The calls that change the shape of a table. *)
Definition changesShape (o : SinkOp) : bool :=
  match o with
  | InsertTable _ _ | AppendRows _ _ | AppendColumns _ _ => true
  | _ => false
  end.

Definition keepShape (ops : Trace) : bool :=
  forallb (fun o => negb (changesShape o)) ops.

(** Modelled from the spec: what the importer relies on in a table of the
    Document Sink.  cellAt is valid exactly inside the grid; rows() and
    columns() change only through calls that change the shape of a table;
    appendRows adds that many rows and no column. *)
Record GridLike (sink : DocumentSink) : Prop := {
  cellAt_inside :
    forall (d : Trace) (t : TableHandle) (r c : Z),
      cellIsValid sink d t r c =
      (0 <=? r) && (r <? rows sink d t) && (0 <=? c) && (c <? columns sink d t);
  rows_kept :
    forall (d ops : Trace) (t : TableHandle),
      keepShape ops = true -> rows sink (d ++ ops) t = rows sink d t;
  columns_kept :
    forall (d ops : Trace) (t : TableHandle),
      keepShape ops = true -> columns sink (d ++ ops) t = columns sink d t;
  rows_appended :
    forall (d : Trace) (t : TableHandle) (n : Z),
      rows sink (d ++ [AppendRows t n]) t = rows sink d t + n;
  columns_of_appended :
    forall (d : Trace) (t : TableHandle) (n : Z),
      columns sink (d ++ [AppendRows t n]) t = columns sink d t
}.

(** The table has the rows the importer has counted and at least [n]
    columns. *)
Definition cellsFit (sink : DocumentSink) (tb : TableHandle) (st : Importer)
    (n : Z) : Prop :=
  1 <= m_tableRowCount st <= rows sink (doc st) tb /\
  n <= columns sink (doc st) tb.

(** A table whose header row has the three columns a, b and c, up to the
    start of its body, and the importer right after it. *)
Definition threeColumnHeader : list Event :=
  [EnterBlock BlockTable; EnterBlock BlockTHead]
  ++ tableRow (headerCell "a" ++ headerCell "b" ++ headerCell "c")
  ++ [LeaveBlock MD_BLOCK_THEAD; EnterBlock BlockTBody].

Definition afterThreeColumnHeader : Importer :=
  stateAfter gridSink threeColumnHeader anImporter.

(** The events on which the importer can stop the parser. *)
Definition isTableCellEnter (e : Event) : bool :=
  match e with
  | EnterBlock (BlockTH _) | EnterBlock (BlockTD _) => true
  | _ => false
  end.

(** The event that opens a list item. *)
Definition isItemEnter (e : Event) : bool :=
  match e with EnterBlock (BlockLI _ _) => true | _ => false end.

(** The first paragraph of an item, its text, and what follows before the
    item's second paragraph. *)
Definition itemWithParagraph : list Event :=
  [EnterBlock (BlockLI false " "); EnterBlock BlockP].

Definition afterFirstParagraph : list Event :=
  [Text MD_TEXT_NORMAL (qstr "a"); LeaveBlock MD_BLOCK_P].

(** The number of blocks a run of calls inserts. *)
Definition isInsertBlock (o : SinkOp) : bool :=
  match o with InsertBlock _ _ => true | _ => false end.

Definition insertedBlocks (ops : Trace) : nat :=
  length (filter isInsertBlock ops).

(** A paragraph made of text events only. *)
Definition paragraphOf (texts : list (MD_TEXTTYPE * QString)) : list Event :=
  EnterBlock BlockP
  :: map (fun p => Text (fst p) (snd p)) texts ++ [LeaveBlock MD_BLOCK_P].

(** A code block with language cpp opened in a list item inside two block
    quotes, and the importer right after it. *)
Definition codeInQuotedList : list Event :=
  [EnterBlock BlockQuote; EnterBlock BlockQuote; EnterBlock (BlockUL "-");
   EnterBlock (BlockLI false " "); EnterBlock (BlockCode [] (qstr "cpp"))].

Definition inCodeInQuotedList : Importer :=
  stateAfter gridSink codeInQuotedList anImporter.



(** * Properties *)

(** ** 32-bit arithmetic *)

(** An int expression whose value fits an int yields that value. *)
Lemma wrap_int_small :
  forall z : Z, INT_MIN <= z <= INT_MAX -> wrap_int z = z.
Proof.
  intros z Hz. unfold INT_MIN, INT_MAX in Hz. unfold wrap_int.
  destruct (Z.ltb_spec z 0) as [Hneg | Hpos].
  - replace (z mod 2 ^ 32) with (z + 2 ^ 32)
      by (apply Z.mod_unique with (q := -1); lia).
    destruct (Z.ltb_spec (z + 2 ^ 32) (2 ^ 31)); lia.
  - rewrite Z.mod_small by lia.
    destruct (Z.ltb_spec z (2 ^ 31)); lia.
Qed.

Lemma int_of_unsigned_small :
  forall x : Z, 0 <= x <= INT_MAX -> int_of_unsigned x = x.
Proof.
  intros x Hx. unfold INT_MAX in Hx. unfold int_of_unsigned.
  rewrite Z.mod_small by lia.
  destruct (Z.ltb_spec x (2 ^ 31)); lia.
Qed.

(** Where the three int expressions leave the range of an int: a heading
    level of 2^31, a block quote depth of 53687092, a point size of 2^30. *)
Example int_expressions_wrap :
  wrap_int (4 - int_of_unsigned 2147483648) = -2147483644 /\
  wrap_int (BlockQuoteIndent * 53687092) = -2147483616 /\
  m_paragraphMargin (newImporter "monospace"%string "blue"%string 1073741824)
  = -715827882.
Proof. repeat split; vm_compute; reflexivity. Qed.

(** ** Headings *)

(** C7: entering a heading of level 1..6 inserts a block at once (nothing
    stays deferred) whose block format has that heading level and whose
    character format is bold with size adjustment 4 - level. *)
Theorem heading_inserted_at_once :
  forall (sink : DocumentSink) (st : Importer) (level : Z),
    1 <= level <= 6 ->
    exists st' bf cf,
      cbEnterBlock sink (BlockH level) st = Some (0, st') /\
      doc st' = doc st ++ [InsertBlock bf cf] /\
      m_needsInsertBlock st' = false /\
      bf_headingLevel bf = Some level /\
      cf_fontWeight cf = Some QFont_Bold /\
      cf_fontSizeAdjustment cf = Some (4 - level).
Proof.
  intros sink st level Hlevel.
  assert (Hcast : int_of_unsigned level = level).
  { unfold int_of_unsigned.
    rewrite Z.mod_small by lia.
    destruct (level <? 2 ^ 31) eqn:E; [reflexivity | apply Z.ltb_ge in E; lia]. }
  assert (Hadj : wrap_int (4 - level) = 4 - level).
  { apply wrap_int_small. unfold INT_MIN, INT_MAX. lia. }
  eexists _, _, _.
  unfold cbEnterBlock, bind, modify, emit, ret.
  cbn -[int_of_unsigned wrap_int Z.sub].
  rewrite Hcast, Hadj.
  repeat split; reflexivity.
Qed.

Lemma heading_inserted_at_once_witness :
  1 <= 2 <= 6 /\
  exists st' bf cf,
    cbEnterBlock gridSink (BlockH 2) anImporter = Some (0, st') /\
    doc st' = doc anImporter ++ [InsertBlock bf cf] /\
    m_needsInsertBlock st' = false /\
    bf_headingLevel bf = Some 2 /\
    cf_fontWeight cf = Some QFont_Bold /\
    cf_fontSizeAdjustment cf = Some (4 - 2).
Proof.
  split; [lia|].
  apply (heading_inserted_at_once gridSink anImporter 2). lia.
Defined.

(** ** The merge loop *)

Section MergeLoop.

Variable sink : DocumentSink.

Import ResolverSpec.

Lemma mergeLoop_resolve :
  forall (k : nat) (mergeEnd mergeBegin : Z) (st : Importer),
    mergeLoop sink k mergeEnd mergeBegin st =
    mergesApplied sink st
      (resolve (m_nonEmptyTableCells st) (downFrom k)
         (marker mergeEnd, marker mergeBegin)).
Proof.
  induction k as [|k IH]; intros mergeEnd mergeBegin st.
  - reflexivity.
  - cbn [mergeLoop downFrom resolve visit].
    unfold bind at 1, gets at 1.
    destruct (contains (m_nonEmptyTableCells st) (Z.of_nat k)) eqn:Hcol.
    + unfold marker at 1 2.
      destruct (mergeEnd <? 0) eqn:He; destruct (mergeBegin <? 0) eqn:Hb;
        rewrite ?Z.geb_leb;
        try (apply Z.ltb_lt in He); try (apply Z.ltb_ge in He);
        try (apply Z.ltb_lt in Hb); try (apply Z.ltb_ge in Hb).
      * replace (0 <=? mergeEnd) with false by (symmetry; apply Z.leb_gt; lia).
        cbn. unfold bind, when, ret. cbn. apply IH.
      * replace (0 <=? mergeEnd) with false by (symmetry; apply Z.leb_gt; lia).
        cbn. unfold bind, when, ret. cbn. apply IH.
      * replace (0 <=? mergeEnd) with true by (symmetry; apply Z.leb_le; lia).
        replace (0 <=? mergeBegin) with false
          by (symmetry; apply Z.leb_gt; lia).
        cbn. unfold bind, when, ret. cbn. apply IH.
      * replace (0 <=? mergeEnd) with true by (symmetry; apply Z.leb_le; lia).
        replace (0 <=? mergeBegin) with true by (symmetry; apply Z.leb_le; lia).
        cbn [andb when app].
        unfold bind at 1 2, currentTable, bind at 1, gets at 1.
        unfold mergesApplied at 1. cbn [isEmpty].
        destruct (m_currentTable st) as [t|] eqn:Ht; [|reflexivity].
        unfold bind, gets, emit, modify, ret. cbn [fst snd].
        rewrite IH. cbn [m_nonEmptyTableCells set_doc doc].
        unfold mergesApplied. cbn [applyMerges anchor span].
        destruct (resolve _ _ _) as [|m ms]; cbn [isEmpty].
        -- reflexivity.
        -- cbn [m_currentTable set_doc doc]. rewrite Ht. reflexivity.
    + assert (Hk : marker (Z.of_nat k) = Some (Z.of_nat k)).
      { unfold marker.
        replace (Z.of_nat k <? 0) with false by (symmetry; apply Z.ltb_ge; lia).
        reflexivity. }
      destruct (mergeEnd <? 0) eqn:He.
      * assert (Hme : marker mergeEnd = None) by (unfold marker; now rewrite He).
        rewrite Hme. cbn [app]. rewrite IH, Hk. reflexivity.
      * assert (Hme : marker mergeEnd = Some mergeEnd)
          by (unfold marker; now rewrite He).
        rewrite Hme. cbn [app]. rewrite IH, Hk, Hme. reflexivity.
Qed.

(** C2: on TableRow leave the columns are scanned from the final
    currentColumn down to 0 with the two markers of the resolver: at a column
    of the non-empty set, when both markers are set, the closed interval
    [runStart-1, runEnd] is merged into one cell anchored at runStart-1 and
    spanning runEnd-runStart+2 columns, and both markers are cleared; at an
    empty column runEnd is set if unset, otherwise runStart.  The callback
    issues exactly the merges of [ResolverSpec.resolve], in order, on the
    table's last row, changes nothing else and returns 0. *)
Theorem leave_row_runs_the_resolver :
  forall st : Importer,
    cbLeaveBlock sink MD_BLOCK_TR st =
    match mergesApplied sink st
            (resolve (m_nonEmptyTableCells st) (scanOrder (m_tableCol st))
               (None, None)) with
    | Some (_, st') => Some (0, st')
    | None => None
    end.
Proof.
  intro st.
  unfold cbLeaveBlock, bind at 1, gets at 1, bind at 1.
  rewrite mergeLoop_resolve.
  change (marker (-1)) with (@None Z). unfold scanOrder.
  destruct (mergesApplied _ _ _) as [[[] st']|]; reflexivity.
Qed.

End MergeLoop.


(** ** Text events *)

Ltac tidy := cbn -[insertBlock_formats countMatches Z.add Z.sub].
Ltac assoc := repeat rewrite <- app_assoc; cbn [app]; rewrite ?app_nil_r.

Lemma bool_cases : forall b : bool, b = true \/ b = false.
Proof. destruct b; auto. Qed.

Lemma cbText_inside_image :
  forall (sink : DocumentSink) (st : Importer) (t : MD_TEXTTYPE) (s : QString),
    m_imageSpan st = true -> cbText sink t s st = Some (0, st).
Proof.
  intros sink st t s Himg. unfold cbText, bind at 1, gets at 1.
  rewrite Himg. reflexivity.
Qed.

(** One text event outside an image span, in full: the calls it makes, in
    order, and the fields it leaves behind. *)
Lemma cbText_outside_image :
  forall (sink : DocumentSink) (st : Importer) (t : MD_TEXTTYPE) (s : QString),
    m_imageSpan st = false ->
    exists st',
      cbText sink t s st = Some (0, st') /\
      doc st' =
        (doc st ++ deferredBlock st ++ insertedContent st t s)
        ++ listIndentReset sink
             (doc st ++ deferredBlock st ++ insertedContent st t s) /\
      m_htmlAccumulator st' = accumulatorAfter st t s /\
      m_htmlTagDepth st' =
        match t with
        | MD_TEXT_HTML => depthAfter st s
        | _ => m_htmlTagDepth st
        end /\
      m_nonEmptyTableCells st' =
        match m_blockType st with
        | MD_BLOCK_TD => m_nonEmptyTableCells st ++ [m_tableCol st]
        | _ => m_nonEmptyTableCells st
        end /\
      m_needsInsertBlock st' = false /\
      m_imageSpan st' = false /\
      m_spanFormatStack st' = m_spanFormatStack st /\
      m_paragraphMargin st' = m_paragraphMargin st.
Proof.
  intros sink st t s Himg.
  unfold deferredBlock, listIndentReset, insertedContent, accumulatorAfter,
    depthAfter, textCall.
  cbv [cbText textSwitch insertBlock bind gets modify emit ret when].
  rewrite Himg.
  destruct (insertBlock_formats st) as [bf cf] eqn:Hf.
  destruct (bool_cases (m_needsInsertBlock st)) as [E|E]; rewrite !E;
    destruct t; tidy; rewrite ?Hf; tidy;
    repeat (match goal with
      | |- context [?x =? 0] =>
          let E := fresh "E" in
          destruct (bool_cases (x =? 0)) as [E|E]; rewrite !E
      | |- context [isEmpty (m_spanFormatStack st)] =>
          destruct (m_spanFormatStack st) eqn:?
      | |- context [match m_blockType st with MD_BLOCK_DOC => _ | _ => _ end] =>
          destruct (m_blockType st)
      | |- context [isEmpty s] => destruct (isEmpty s)
      | |- context [currentList ?k ?x] =>
          let E := fresh "E" in
          destruct (bool_cases (currentList k x)) as [E|E]; rewrite !E
      end; tidy; assoc);
    (eexists; (split; [reflexivity|]));
    tidy; assoc; repeat split; first [reflexivity | congruence].
Qed.

Lemma charFormatAfter_app :
  forall (a b : Trace) (f : QTextCharFormat),
    charFormatAfter (a ++ b) f = charFormatAfter b (charFormatAfter a f).
Proof.
  induction a as [|o a IH]; intros b f; [reflexivity|].
  destruct o; cbn; apply IH.
Qed.

Lemma activeCharFormat_set :
  forall (d : Trace) (f : QTextCharFormat),
    activeCharFormat (d ++ [SetCharFormat f]) = f.
Proof.
  intros d f. unfold activeCharFormat. rewrite charFormatAfter_app.
  reflexivity.
Qed.

Lemma charFormatAfter_listIndentReset :
  forall (sink : DocumentSink) (d : Trace) (f : QTextCharFormat),
    charFormatAfter (listIndentReset sink d) f = f.
Proof.
  intros sink d f. unfold listIndentReset.
  destruct (currentList sink d); reflexivity.
Qed.

Lemma deferredBlock_blockCalls :
  forall st : Importer, forallb isBlockCall (deferredBlock st) = true.
Proof.
  intro st. unfold deferredBlock.
  destruct (m_needsInsertBlock st); reflexivity.
Qed.

Lemma listIndentReset_blockCalls :
  forall (sink : DocumentSink) (d : Trace),
    forallb isBlockCall (listIndentReset sink d) = true.
Proof.
  intros sink d. unfold listIndentReset.
  destruct (currentList sink d); reflexivity.
Qed.

(** *** The code's tag counting is the specification's *)

Lemma indexOfFrom_cons :
  forall (p : QChar -> QChar -> bool) (a b : QChar) (s : QString)
         (pos from : Z),
    indexOfFrom p (a :: b :: s) pos from =
    if (from <=? pos) && p a b then pos
    else indexOfFrom p (b :: s) (pos + 1) from.
Proof. reflexivity. Qed.

(** Where the search starts does not matter once it is behind. *)
Lemma indexOfFrom_behind :
  forall (p : QChar -> QChar -> bool) (s : QString) (pos from from' : Z),
    from <= pos -> from' <= pos ->
    indexOfFrom p s pos from = indexOfFrom p s pos from'.
Proof.
  intros p s. induction s as [|a s IH]; intros pos from from' H H';
    [reflexivity|].
  destruct s as [|b s]; [reflexivity|].
  rewrite !indexOfFrom_cons.
  replace (from <=? pos) with true by (symmetry; apply Z.leb_le; lia).
  replace (from' <=? pos) with true by (symmetry; apply Z.leb_le; lia).
  cbn [andb]. destruct (p a b); [reflexivity|].
  apply IH; lia.
Qed.

(** The search skips what lies before its start. *)
Lemma indexOfFrom_prefix :
  forall (p : QChar -> QChar -> bool) (pre suf : QString) (pos from : Z),
    pos + Z.of_nat (length pre) <= from ->
    indexOfFrom p (pre ++ suf) pos from =
    indexOfFrom p suf (pos + Z.of_nat (length pre)) from.
Proof.
  intros p pre. induction pre as [|x pre IH]; intros suf pos from H.
  - cbn [app length Z.of_nat]. rewrite Z.add_0_r. reflexivity.
  - cbn [length] in H. cbn [app].
    destruct (pre ++ suf) as [|y l] eqn:E.
    + destruct pre; [|discriminate E]. cbn [app] in E. subst suf.
      reflexivity.
    + rewrite indexOfFrom_cons.
      replace (from <=? pos) with false by (symmetry; apply Z.leb_gt; lia).
      cbn [andb]. rewrite <- E. rewrite IH by lia.
      f_equal. cbn [length]. lia.
Qed.

Lemma indexOf_no_match_here :
  forall (p : QChar -> QChar -> bool) (pre : QString) (a b : QChar)
         (rest : QString),
    p a b = false ->
    indexOf p (pre ++ a :: b :: rest) (Z.of_nat (length pre)) =
    indexOf p (pre ++ a :: b :: rest) (Z.of_nat (length pre) + 1).
Proof.
  intros p pre a b rest Hp. unfold indexOf.
  rewrite !indexOfFrom_prefix by lia. cbn [Z.add].
  rewrite !indexOfFrom_cons, Hp, andb_false_r.
  replace (Z.of_nat (length pre) + 1 <=? Z.of_nat (length pre)) with false
    by (symmetry; apply Z.leb_gt; lia).
  cbn [andb]. apply indexOfFrom_behind; lia.
Qed.

Lemma indexOf_match_here :
  forall (p : QChar -> QChar -> bool) (pre : QString) (a b : QChar)
         (rest : QString),
    p a b = true ->
    indexOf p (pre ++ a :: b :: rest) (Z.of_nat (length pre)) =
    Z.of_nat (length pre).
Proof.
  intros p pre a b rest Hp. unfold indexOf.
  rewrite indexOfFrom_prefix by lia. cbn [Z.add].
  rewrite indexOfFrom_cons, Hp, Z.leb_refl. reflexivity.
Qed.

Lemma indexOf_nothing_left :
  forall (p : QChar -> QChar -> bool) (pre suf : QString),
    (length suf <= 1)%nat ->
    indexOf p (pre ++ suf) (Z.of_nat (length pre)) = -1.
Proof.
  intros p pre suf Hsuf. unfold indexOf.
  rewrite indexOfFrom_prefix by lia.
  destruct suf as [|a [|b suf]]; [reflexivity | reflexivity |].
  cbn [length] in Hsuf. lia.
Qed.

Lemma matches_cons :
  forall (p : QChar -> QChar -> bool) (a b : QChar) (rest : QString),
    TextSpec.matches p (a :: b :: rest) false =
    if p a b then 1 + TextSpec.matches p (b :: rest) true
    else TextSpec.matches p (b :: rest) false.
Proof. reflexivity. Qed.

Lemma matches_used :
  forall (p : QChar -> QChar -> bool) (b : QChar) (rest : QString),
    TextSpec.matches p (b :: rest) true = TextSpec.matches p rest false.
Proof. intros p b rest. destruct rest; reflexivity. Qed.

(** The while loop, started at the end of [pre] with enough iterations
    left, counts what one pass over the rest counts. *)
Lemma matchLoop_matches :
  forall (p : QChar -> QChar -> bool) (m : nat) (suf pre : QString)
         (fuel : nat) (n : Z),
    (length suf <= m)%nat -> (length suf <= fuel)%nat ->
    matchLoop fuel p (pre ++ suf) (Z.of_nat (length pre)) n =
    n + TextSpec.matches p suf false.
Proof.
  intros p m. induction m as [|m IH]; intros suf pre fuel n Hm Hfuel.
  - destruct suf; [|cbn [length] in Hm; lia].
    destruct fuel; cbn [matchLoop TextSpec.matches]; [lia|].
    rewrite indexOf_nothing_left by (cbn [length]; lia).
    cbn [Z.leb Z.compare]. lia.
  - destruct suf as [|a [|b rest]].
    + destruct fuel; cbn [matchLoop TextSpec.matches]; [lia|].
      rewrite indexOf_nothing_left by (cbn [length]; lia).
      cbn [Z.leb Z.compare]. lia.
    + destruct fuel; cbn [matchLoop TextSpec.matches]; [lia|].
      rewrite indexOf_nothing_left by (cbn [length]; lia).
      cbn [Z.leb Z.compare]. lia.
    + cbn [length] in Hm, Hfuel.
      destruct fuel as [|fuel]; [lia|].
      destruct (p a b) eqn:Hp.
      * cbn [matchLoop]. rewrite indexOf_match_here by exact Hp.
        replace (0 <=? Z.of_nat (length pre)) with true
          by (symmetry; apply Z.leb_le; lia).
        replace (pre ++ a :: b :: rest) with ((pre ++ [a; b]) ++ rest)
          by (rewrite <- app_assoc; reflexivity).
        replace (Z.of_nat (length pre) + 2)
          with (Z.of_nat (length (pre ++ [a; b])))
          by (rewrite length_app; cbn [length]; lia).
        rewrite (IH rest (pre ++ [a; b]) fuel (n + 1)) by lia.
        rewrite matches_cons, Hp, matches_used. lia.
      * pose proof (IH (b :: rest) (pre ++ [a]) (S fuel) n) as Hnext.
        cbn [length] in Hnext.
        specialize (Hnext ltac:(lia) ltac:(lia)).
        rewrite <- app_assoc in Hnext. cbn [app] in Hnext.
        rewrite length_app in Hnext. cbn [length] in Hnext.
        replace (Z.of_nat (length pre + 1)) with (Z.of_nat (length pre) + 1)
          in Hnext by lia.
        cbn [matchLoop] in Hnext. cbn [matchLoop].
        rewrite indexOf_no_match_here by exact Hp.
        rewrite matches_cons, Hp. exact Hnext.
Qed.

(** The count of either loop of cbText is the number of matches that one
    left-to-right pass finds. *)
Lemma countMatches_matches :
  forall (p : QChar -> QChar -> bool) (s : QString),
    countMatches p s = TextSpec.matches p s false.
Proof.
  intros p s. unfold countMatches.
  exact (matchLoop_matches p (length s) s [] (length s) 0
           (Nat.le_refl _) (Nat.le_refl _)).
Qed.

Lemma matches_ext :
  forall (p q : QChar -> QChar -> bool),
    (forall a b, p a b = q a b) ->
    forall (s : QString) (used : bool),
      TextSpec.matches p s used = TextSpec.matches q s used.
Proof.
  intros p q Hpq s. induction s as [|a s IH]; intro used; [reflexivity|].
  destruct s as [|b s]; [reflexivity|].
  destruct used.
  - rewrite !matches_used. apply IH.
  - rewrite !matches_cons, Hpq, !IH. reflexivity.
Qed.

Lemma openingBracket_opensTag :
  forall a b : QChar, openingBracket a b = TextSpec.opensTag a b.
Proof.
  intros a b. unfold openingBracket, TextSpec.opensTag, isAsciiLetter,
    TextSpec.isLetter, TextSpec.lessThan.
  f_equal. apply orb_comm.
Qed.

Lemma closingBracket_closesTag :
  forall a b : QChar, closingBracket a b = TextSpec.closesTag a b.
Proof. reflexivity. Qed.

Lemma depthAfter_spec :
  forall (st : Importer) (s : QString),
    depthAfter st s = TextSpec.tagDepthAfter (m_htmlTagDepth st) s.
Proof.
  intros st s. unfold depthAfter, TextSpec.tagDepthAfter.
  rewrite !countMatches_matches.
  rewrite (matches_ext _ _ openingBracket_opensTag).
  rewrite (matches_ext _ _ closingBracket_closesTag).
  reflexivity.
Qed.

Lemma textCall_asItIs :
  forall s : QString, textCall s = TextSpec.asItIs s.
Proof. intros [|c s]; reflexivity. Qed.

(** What the code inserts is what the specification's handler inserts. *)
Lemma insertedContent_spec :
  forall (st : Importer) (t : MD_TEXTTYPE) (s : QString),
    TextSpec.listed t = true ->
    insertedContent st t s =
      TextSpec.content (m_htmlTagDepth st) (m_htmlAccumulator st)
        (spanFormatTop (m_spanFormatStack st)) t s /\
    accumulatorAfter st t s =
      TextSpec.accumulator (m_htmlTagDepth st) (m_htmlAccumulator st) t s.
Proof.
  intros st t s Ht.
  destruct t; try discriminate Ht;
    cbn [insertedContent accumulatorAfter TextSpec.content
         TextSpec.accumulator];
    rewrite ?depthAfter_spec, ?textCall_asItIs; split; reflexivity.
Qed.

(** C8 (amended): a text event outside an image span puts into the
    document, after a pending deferred block and before the list indent
    reset, the content its subkind determines ([TextSpec.content]): Normal
    as it is unless raw HTML is being accumulated, NullChar as U+FFFD,
    HardBreak as the line feed U+000A, SoftBreak as one space, Code as the
    text with no format call of its own, Entity as markup through
    insertHtml.  A RawHtmlFragment joins the accumulator and puts in nothing
    of its own; when its tags bring the depth to zero, which a balanced
    fragment does during its own event, the accumulator is inserted as
    markup by that event. *)
Theorem text_content_by_subkind :
  forall (sink : DocumentSink) (st : Importer) (t : MD_TEXTTYPE) (s : QString),
    m_imageSpan st = false ->
    TextSpec.listed t = true ->
    exists (st' : Importer) (before after : list SinkOp),
      cbText sink t s st = Some (0, st') /\
      doc st' =
        doc st ++ before
        ++ TextSpec.content (m_htmlTagDepth st) (m_htmlAccumulator st)
             (spanFormatTop (m_spanFormatStack st)) t s
        ++ after /\
      forallb isBlockCall before = true /\
      forallb isBlockCall after = true /\
      m_htmlAccumulator st' =
        TextSpec.accumulator (m_htmlTagDepth st) (m_htmlAccumulator st) t s /\
      m_htmlTagDepth st' = TextSpec.depth (m_htmlTagDepth st) t s.
Proof.
  intros sink st t s Himg Ht.
  destruct (cbText_outside_image sink st t s Himg)
    as (st' & Hrun & Hdoc & Hacc & Hdepth & _).
  destruct (insertedContent_spec st t s Ht) as [Hcontent Haccumulator].
  exists st', (deferredBlock st),
    (listIndentReset sink
       (doc st ++ deferredBlock st ++ insertedContent st t s)).
  split; [exact Hrun|].
  split; [rewrite Hdoc, <- Hcontent, <- !app_assoc; reflexivity|].
  split; [apply deferredBlock_blockCalls|].
  split; [apply listIndentReset_blockCalls|].
  split; [rewrite Hacc; exact Haccumulator|].
  rewrite Hdepth. destruct t; try reflexivity.
  cbn [TextSpec.depth]. apply depthAfter_spec.
Qed.

Lemma text_content_by_subkind_witness :
  (m_imageSpan anImporter = false /\
   TextSpec.listed MD_TEXT_BR = true /\
   exists (st' : Importer) (before after : list SinkOp),
     cbText gridSink MD_TEXT_BR [] anImporter = Some (0, st') /\
     doc st' = doc anImporter ++ before ++ [InsertText [10]] ++ after /\
     forallb isBlockCall before = true /\
     forallb isBlockCall after = true /\
     m_htmlAccumulator st' = [] /\
     m_htmlTagDepth st' = 0) /\
  (m_imageSpan inSpanTag = false /\
   TextSpec.listed MD_TEXT_NORMAL = true /\
   m_htmlTagDepth inSpanTag = 1 /\
   exists (st' : Importer) (before after : list SinkOp),
     cbText gridSink MD_TEXT_NORMAL (qstr "x") inSpanTag = Some (0, st') /\
     doc st' = doc inSpanTag ++ before ++ [] ++ after /\
     forallb isBlockCall before = true /\
     forallb isBlockCall after = true /\
     m_htmlAccumulator st' = qstr "<span>x" /\
     m_htmlTagDepth st' = 1) /\
  (m_imageSpan inSpanTag = false /\
   TextSpec.listed MD_TEXT_HTML = true /\
   exists (st' : Importer) (before after : list SinkOp),
     cbText gridSink MD_TEXT_HTML (qstr "</span>") inSpanTag
     = Some (0, st') /\
     doc st' =
       doc inSpanTag ++ before
       ++ [InsertHtml (qstr "<span></span>"); SetCharFormat emptyCharFormat]
       ++ after /\
     forallb isBlockCall before = true /\
     forallb isBlockCall after = true /\
     m_htmlAccumulator st' = [] /\
     m_htmlTagDepth st' = 0).
Proof.
  split; [|split].
  - split; [reflexivity|]. split; [reflexivity|].
    exact (text_content_by_subkind gridSink anImporter MD_TEXT_BR []
             eq_refl eq_refl).
  - split; [reflexivity|]. split; [reflexivity|]. split; [reflexivity|].
    exact (text_content_by_subkind gridSink inSpanTag MD_TEXT_NORMAL
             (qstr "x") eq_refl eq_refl).
  - split; [reflexivity|]. split; [reflexivity|].
    exact (text_content_by_subkind gridSink inSpanTag MD_TEXT_HTML
             (qstr "</span>") eq_refl eq_refl).
Defined.

(** C8 as worded fails: a raw HTML fragment whose tags balance, such as
    <br/>, is not kept in the accumulator: the event that brings it inserts
    it into the document as markup, and the accumulator is empty
    afterwards. *)
Lemma balanced_html_fragment_inserted_at_once :
  exists st' : Importer,
    cbText gridSink MD_TEXT_HTML (qstr "<br/>") anImporter = Some (0, st') /\
    doc anImporter = [] /\
    doc st' = [InsertHtml (qstr "<br/>"); SetCharFormat emptyCharFormat] /\
    m_htmlAccumulator st' = [] /\
    m_htmlTagDepth st' = 0.
Proof.
  eexists. split; [vm_compute; reflexivity|].
  repeat split; reflexivity.
Qed.

(** ** Raw HTML accumulation *)

Lemma eqb_zero_false : forall z : Z, z <> 0 -> (z =? 0) = false.
Proof. intros z Hz. now apply Z.eqb_neq. Qed.

Lemma eqb_zero_true : forall z : Z, z = 0 -> (z =? 0) = true.
Proof. intros z Hz. now apply Z.eqb_eq. Qed.

(** C3 (amended): outside an image span, a Normal fragment that arrives
    while the tag depth is nonzero, and a raw HTML fragment that leaves the
    depth nonzero, insert neither text nor markup: the fragment is appended
    to the accumulator, and the only calls made are block calls (a pending
    deferred block, the list indent reset).  A Normal fragment leaves the
    depth as it is; a raw HTML fragment moves it by its opening tags minus
    its closing tags.  A raw HTML fragment that leaves the depth at exactly
    zero inserts the whole accumulated markup once with insertHtml, then
    sets the character format to the top of the span stack (the empty
    format for an empty stack), and clears the accumulator. *)
Theorem raw_html_buffered_until_balanced :
  forall (sink : DocumentSink) (st : Importer) (s : QString),
    m_imageSpan st = false ->
    (m_htmlTagDepth st <> 0 ->
     exists (st' : Importer) (before after : list SinkOp),
       cbText sink MD_TEXT_NORMAL s st = Some (0, st') /\
       forallb isBlockCall before = true /\
       forallb isBlockCall after = true /\
       doc st' = doc st ++ before ++ after /\
       m_htmlAccumulator st' = m_htmlAccumulator st ++ s /\
       m_htmlTagDepth st' = m_htmlTagDepth st) /\
    (exists (st' : Importer) (before after : list SinkOp),
       cbText sink MD_TEXT_HTML s st = Some (0, st') /\
       forallb isBlockCall before = true /\
       forallb isBlockCall after = true /\
       m_htmlTagDepth st' = TextSpec.tagDepthAfter (m_htmlTagDepth st) s /\
       m_spanFormatStack st' = m_spanFormatStack st /\
       (m_htmlTagDepth st' <> 0 ->
        doc st' = doc st ++ before ++ after /\
        m_htmlAccumulator st' = m_htmlAccumulator st ++ s) /\
       (m_htmlTagDepth st' = 0 ->
        doc st' =
          doc st ++ before
          ++ [InsertHtml (m_htmlAccumulator st ++ s);
              SetCharFormat (spanFormatTop (m_spanFormatStack st))]
          ++ after /\
        activeCharFormat (doc st') = spanFormatTop (m_spanFormatStack st) /\
        m_htmlAccumulator st' = [])).
Proof.
  intros sink st s Himg. split.
  - intro Hnz.
    destruct (cbText_outside_image sink st MD_TEXT_NORMAL s Himg)
      as (st' & Hrun & Hdoc & Hacc & Hdepth & _).
    cbn [insertedContent accumulatorAfter] in Hdoc, Hacc.
    rewrite (eqb_zero_false _ Hnz) in Hdoc, Hacc.
    exists st', (deferredBlock st),
      (listIndentReset sink (doc st ++ deferredBlock st ++ [])).
    split; [exact Hrun|].
    split; [apply deferredBlock_blockCalls|].
    split; [apply listIndentReset_blockCalls|].
    split; [rewrite Hdoc, <- !app_assoc; reflexivity|].
    split; [exact Hacc | exact Hdepth].
  - destruct (cbText_outside_image sink st MD_TEXT_HTML s Himg)
      as (st' & Hrun & Hdoc & Hacc & Hdepth & _ & _ & _ & Hstack & _).
    exists st', (deferredBlock st),
      (listIndentReset sink
         (doc st ++ deferredBlock st ++ insertedContent st MD_TEXT_HTML s)).
    split; [exact Hrun|].
    split; [apply deferredBlock_blockCalls|].
    split; [apply listIndentReset_blockCalls|].
    split; [rewrite Hdepth; apply depthAfter_spec|].
    split; [exact Hstack|].
    rewrite Hdoc, Hacc, Hdepth. cbn [insertedContent accumulatorAfter].
    split.
    + intro Hnz. rewrite (eqb_zero_false _ Hnz).
      split; [now rewrite <- !app_assoc | reflexivity].
    + intro Hz. rewrite (eqb_zero_true _ Hz).
      split; [now rewrite <- !app_assoc|].
      split; [|reflexivity].
      unfold activeCharFormat.
      rewrite charFormatAfter_app, charFormatAfter_listIndentReset.
      rewrite !charFormatAfter_app. reflexivity.
Qed.

Lemma raw_html_buffered_until_balanced_witness :
  md_parse gridSink [EnterBlock BlockP; Text MD_TEXT_HTML (qstr "<span>")]
    anImporter = Some (0, inSpanTag) /\
  m_imageSpan inSpanTag = false /\
  m_htmlTagDepth inSpanTag <> 0 /\
  (exists (st' : Importer) (before after : list SinkOp),
     cbText gridSink MD_TEXT_NORMAL (qstr "x") inSpanTag = Some (0, st') /\
     forallb isBlockCall before = true /\
     forallb isBlockCall after = true /\
     doc st' = doc inSpanTag ++ before ++ after /\
     m_htmlAccumulator st' = qstr "<span>x" /\
     m_htmlTagDepth st' = 1) /\
  (exists (st' : Importer) (before after : list SinkOp),
     cbText gridSink MD_TEXT_HTML (qstr "<b>") inSpanTag = Some (0, st') /\
     forallb isBlockCall before = true /\
     forallb isBlockCall after = true /\
     m_htmlTagDepth st' = 2 /\
     doc st' = doc inSpanTag ++ before ++ after /\
     m_htmlAccumulator st' = qstr "<span><b>") /\
  (exists (st' : Importer) (before after : list SinkOp),
     cbText gridSink MD_TEXT_HTML (qstr "</span>") inSpanTag
     = Some (0, st') /\
     forallb isBlockCall before = true /\
     forallb isBlockCall after = true /\
     m_htmlTagDepth st' = 0 /\
     doc st' =
       doc inSpanTag ++ before
       ++ [InsertHtml (qstr "<span></span>"); SetCharFormat emptyCharFormat]
       ++ after /\
     activeCharFormat (doc st') = emptyCharFormat /\
     m_htmlAccumulator st' = []).
Proof.
  assert (Hnz : m_htmlTagDepth inSpanTag <> 0) by (intro H; discriminate H).
  split; [vm_compute; reflexivity|].
  split; [reflexivity|].
  split; [exact Hnz|].
  split; [|split].
  - exact (proj1 (raw_html_buffered_until_balanced gridSink inSpanTag
                    (qstr "x") eq_refl) Hnz).
  - destruct (proj2 (raw_html_buffered_until_balanced gridSink inSpanTag
                       (qstr "<b>") eq_refl))
      as (st' & before & after & Hrun & Hb & Ha & Hdepth & _ & Hbuf & _).
    assert (Hd : m_htmlTagDepth st' = 2) by exact Hdepth.
    assert (Hnz' : m_htmlTagDepth st' <> 0)
      by (rewrite Hd; intro H; discriminate H).
    destruct (Hbuf Hnz') as [Hdoc Hacc].
    exists st', before, after.
    repeat split; assumption.
  - destruct (proj2 (raw_html_buffered_until_balanced gridSink inSpanTag
                       (qstr "</span>") eq_refl))
      as (st' & before & after & Hrun & Hb & Ha & Hdepth & _ & _ & Hflush).
    assert (Hd : m_htmlTagDepth st' = 0) by exact Hdepth.
    destruct (Hflush Hd) as (Hdoc & Hfmt & Hacc).
    exists st', before, after.
    repeat split; assumption.
Defined.

(** C3 as worded fails: inside <span>, with the tag depth at 1, a
    soft break is inserted into the document at once as a space and the
    depth stays 1; nothing of it reaches the accumulator. *)
Lemma soft_break_not_buffered_inside_raw_html :
  exists st st' : Importer,
    md_parse gridSink insideSpanTag anImporter = Some (0, st) /\
    m_htmlTagDepth st = 1 /\
    cbText gridSink MD_TEXT_SOFTBR [] st = Some (0, st') /\
    m_htmlTagDepth st' = 1 /\
    doc st' = doc st ++ [InsertText [Space]] /\
    doc st' <> doc st /\
    m_htmlAccumulator st' = m_htmlAccumulator st.
Proof.
  eexists. eexists.
  split; [vm_compute; reflexivity|].
  split; [reflexivity|].
  split; [vm_compute; reflexivity|].
  split; [reflexivity|].
  split; [reflexivity|].
  split; [intro H; discriminate H | reflexivity].
Qed.

(** ** Short table rows *)

(** C1: the code at the claim's own example.  In a table whose header has
    3 columns, a data row with cells d and e and one missing cell leaves the
    row with currentColumn 2 and non-empty columns 0 and 1, and leaving the
    row issues no mergeCells call at all: the cell e is not merged with the
    trailing empty cell. *)
Theorem short_row_one_empty_cell_not_merged :
  exists st' : Importer,
    md_parse gridSink
      (threeColumnTable (dataCell "d" ++ dataCell "e" ++ emptyDataCell))
      anImporter = Some (0, st') /\
    columns gridSink (doc st') 0%nat = 3 /\
    m_tableCol st' = 2 /\
    m_nonEmptyTableCells st' = [0; 1] /\
    filter isMergeCells (doc st') = [].
Proof.
  eexists.
  split; [vm_compute; reflexivity|].
  repeat split.
Qed.

(** With two missing cells the same loop does merge, and the span is the
    number of missing cells plus one. *)
Example short_row_two_empty_cells_merged :
  exists st' : Importer,
    md_parse gridSink
      (threeColumnTable (dataCell "d" ++ emptyDataCell ++ emptyDataCell))
      anImporter = Some (0, st') /\
    filter isMergeCells (doc st') = [MergeCells 0%nat 1 0 1 3].
Proof.
  eexists.
  split; [vm_compute; reflexivity|].
  reflexivity.
Qed.

(** ** Spans *)

Lemma cbEnterSpan_plain :
  forall (st : Importer) (sp : Span),
    match sp with SpanImg _ _ => False | _ => True end ->
    cbEnterSpan sp st =
    Some (0,
          set_doc
            (doc st
             ++ [SetCharFormat
                   (spanSnapshot (m_monoFont st) (m_palette_link st) sp)])
            (set_m_spanFormatStack
               (spanSnapshot (m_monoFont st) (m_palette_link st) sp
                :: m_spanFormatStack st) st)).
Proof.
  intros st sp Hsp. destruct sp; try contradiction; reflexivity.
Qed.

Lemma cbEnterSpan_any :
  forall (st : Importer) (sp : Span),
    exists (st' : Importer) (ops : list SinkOp),
      cbEnterSpan sp st = Some (0, st') /\
      m_spanFormatStack st' =
        spanSnapshot (m_monoFont st) (m_palette_link st) sp
        :: m_spanFormatStack st /\
      doc st' =
        doc st ++ ops
        ++ [SetCharFormat
              (spanSnapshot (m_monoFont st) (m_palette_link st) sp)].
Proof.
  intros st sp.
  destruct sp;
    try (eexists; exists []; rewrite cbEnterSpan_plain by exact I;
         repeat split; reflexivity).
  cbv [cbEnterSpan insertBlock bind gets modify emit ret when].
  cbn [m_needsInsertBlock set_m_imageSpan].
  destruct (bool_cases (m_needsInsertBlock st)) as [E|E]; rewrite E.
  - destruct (insertBlock_formats (set_m_imageSpan true st)) as [bf cf].
    eexists.
    exists [InsertBlock bf cf; InsertImage {| img_name := Some src |}].
    split; [reflexivity|]. cbn. assoc. split; reflexivity.
  - eexists. exists [InsertImage {| img_name := Some src |}].
    split; [reflexivity|]. cbn. assoc. split; reflexivity.
Qed.

Lemma cbLeaveSpan_any :
  forall (st : Importer) (t : MD_SPANTYPE),
    exists st' : Importer,
      cbLeaveSpan t st = Some (0, st') /\
      m_spanFormatStack st' = tl (m_spanFormatStack st) /\
      doc st' =
        doc st ++ [SetCharFormat (spanFormatTop (m_spanFormatStack st'))].
Proof.
  intros st t.
  cbv [cbLeaveSpan bind gets modify emit ret when].
  destruct (m_spanFormatStack st) as [|f [|g rest]] eqn:Hstack;
    cbn [isEmpty negb tl m_spanFormatStack set_m_spanFormatStack
         spanFormatTop];
    destruct t; eexists; (split; [reflexivity|]); cbn;
    rewrite ?Hstack; split; reflexivity.
Qed.

Lemma insertBlock_formats_charFormat :
  forall st : Importer,
    m_codeBlock st = false ->
    snd (insertBlock_formats st) = spanFormatTop (m_spanFormatStack st).
Proof.
  intros st Hcode. unfold insertBlock_formats. rewrite Hcode. reflexivity.
Qed.

Lemma textRuns_app :
  forall (a b : Trace) (f : QTextCharFormat),
    textRuns (a ++ b) f = textRuns a f ++ textRuns b (charFormatAfter a f).
Proof.
  induction a as [|o a IH]; intros b f; [reflexivity|].
  destruct o; cbn; rewrite ?IH; reflexivity.
Qed.

Lemma textRuns_listIndentReset :
  forall (sink : DocumentSink) (d : Trace) (f : QTextCharFormat),
    textRuns (listIndentReset sink d) f = [].
Proof.
  intros sink d f. unfold listIndentReset.
  destruct (currentList sink d); reflexivity.
Qed.

Lemma isEmpty_false :
  forall (A : Type) (l : list A), l <> [] -> isEmpty l = false.
Proof. intros A [|x l] Hl; [contradiction | reflexivity]. Qed.

(** Text in Strong nested in Emphasis, from any importer outside an image
    span, raw HTML and code block. *)
Lemma strong_inside_emphasis :
  forall (sink : DocumentSink) (st : Importer) (s : QString)
         (f0 : QTextCharFormat),
    m_imageSpan st = false -> m_htmlTagDepth st = 0 ->
    m_codeBlock st = false -> s <> [] ->
    exists (st' : Importer) (ops : list SinkOp),
      md_parse sink
        [EnterSpan SpanEm; EnterSpan SpanStrong; Text MD_TEXT_NORMAL s] st
      = Some (0, st') /\
      doc st' = doc st ++ ops /\
      textRuns ops f0 = [(s, setFontWeight QFont_Bold emptyCharFormat)].
Proof.
  intros sink st s f0 Himg Hdepth Hcode Hs.
  cbn [md_parse callback].
  unfold bind at 1. rewrite cbEnterSpan_plain by exact I. cbn [Z.eqb].
  unfold bind at 1. rewrite cbEnterSpan_plain by exact I. cbn [Z.eqb].
  cbn [spanSnapshot m_monoFont m_palette_link set_doc set_m_spanFormatStack
       doc m_spanFormatStack].
  match goal with
  | |- context [bind (cbText sink _ _) _ ?x] => set (st2 := x)
  end.
  assert (Himg2 : m_imageSpan st2 = false) by exact Himg.
  destruct (cbText_outside_image sink st2 MD_TEXT_NORMAL s Himg2)
    as (st' & Hrun & Hdoc & _).
  unfold bind at 1. rewrite Hrun. cbn [Z.eqb md_parse ret].
  exists st'.
  exists ([SetCharFormat (setFontItalic true emptyCharFormat);
           SetCharFormat (setFontWeight QFont_Bold emptyCharFormat)]
          ++ deferredBlock st2 ++ [InsertText s]
          ++ listIndentReset sink
               (doc st2 ++ deferredBlock st2
                ++ insertedContent st2 MD_TEXT_NORMAL s)).
  split; [reflexivity|].
  assert (Hcontent : insertedContent st2 MD_TEXT_NORMAL s = [InsertText s]).
  { unfold insertedContent, textCall.
    change (m_htmlTagDepth st2) with (m_htmlTagDepth st).
    rewrite Hdepth, (isEmpty_false _ s Hs). reflexivity. }
  split.
  - rewrite Hdoc, Hcontent. subst st2. cbn [doc set_doc].
    now rewrite <- !app_assoc.
  - rewrite !textRuns_app, textRuns_listIndentReset.
    cbn [textRuns charFormatAfter app].
    unfold deferredBlock.
    destruct (m_needsInsertBlock st2); [|reflexivity].
    rewrite insertBlock_formats_charFormat by exact Hcode.
    reflexivity.
Qed.

(** C4: after every EnterSpan the active character format is exactly the
    snapshot built for that span, which is also the new top of the stack and
    owes nothing to the enclosing spans; after every LeaveSpan it is the new
    top of the stack, or the empty format when the stack is then empty; and
    text inside Strong nested in Emphasis is inserted under the Strong
    snapshot alone, bold and not italic. *)
Theorem active_format_is_innermost_span :
  forall (sink : DocumentSink) (st : Importer),
    (forall sp : Span,
       exists (st' : Importer) (ops : list SinkOp),
         cbEnterSpan sp st = Some (0, st') /\
         m_spanFormatStack st' =
           spanSnapshot (m_monoFont st) (m_palette_link st) sp
           :: m_spanFormatStack st /\
         doc st' =
           doc st ++ ops
           ++ [SetCharFormat
                 (spanSnapshot (m_monoFont st) (m_palette_link st) sp)] /\
         activeCharFormat (doc st') =
           spanSnapshot (m_monoFont st) (m_palette_link st) sp) /\
    (forall t : MD_SPANTYPE,
       exists st' : Importer,
         cbLeaveSpan t st = Some (0, st') /\
         m_spanFormatStack st' = tl (m_spanFormatStack st) /\
         activeCharFormat (doc st') =
           spanFormatTop (m_spanFormatStack st')) /\
    (forall (s : QString) (f0 : QTextCharFormat),
       m_imageSpan st = false -> m_htmlTagDepth st = 0 ->
       m_codeBlock st = false -> s <> [] ->
       exists (st' : Importer) (ops : list SinkOp)
              (strong : QTextCharFormat),
         md_parse sink
           [EnterSpan SpanEm; EnterSpan SpanStrong; Text MD_TEXT_NORMAL s] st
         = Some (0, st') /\
         doc st' = doc st ++ ops /\
         textRuns ops f0 = [(s, strong)] /\
         cf_fontWeight strong = Some QFont_Bold /\
         cf_fontItalic strong = None).
Proof.
  intros sink st. split; [|split].
  - intro sp.
    destruct (cbEnterSpan_any st sp) as (st' & ops & Hrun & Hstack & Hdoc).
    exists st', ops. repeat split; try assumption.
    rewrite Hdoc, app_assoc. apply activeCharFormat_set.
  - intro t.
    destruct (cbLeaveSpan_any st t) as (st' & Hrun & Hstack & Hdoc).
    exists st'. repeat split; try assumption.
    rewrite Hdoc. apply activeCharFormat_set.
  - intros s f0 Himg Hdepth Hcode Hs.
    destruct (strong_inside_emphasis sink st s f0 Himg Hdepth Hcode Hs)
      as (st' & ops & Hrun & Hdoc & Hruns).
    exists st', ops, (setFontWeight QFont_Bold emptyCharFormat).
    repeat split; assumption.
Qed.

Lemma active_format_is_innermost_span_witness :
  m_imageSpan anImporter = false /\
  m_htmlTagDepth anImporter = 0 /\
  m_codeBlock anImporter = false /\
  qstr "x" <> [] /\
  exists (st' : Importer) (ops : list SinkOp) (strong : QTextCharFormat),
    md_parse gridSink
      [EnterSpan SpanEm; EnterSpan SpanStrong;
       Text MD_TEXT_NORMAL (qstr "x")] anImporter
    = Some (0, st') /\
    doc st' = doc anImporter ++ ops /\
    textRuns ops emptyCharFormat = [(qstr "x", strong)] /\
    cf_fontWeight strong = Some QFont_Bold /\
    cf_fontItalic strong = None.
Proof.
  split; [reflexivity|].
  split; [reflexivity|].
  split; [reflexivity|].
  split; [discriminate|].
  apply (proj2 (proj2 (active_format_is_innermost_span gridSink anImporter))).
  - reflexivity.
  - reflexivity.
  - reflexivity.
  - discriminate.
Defined.

(** C10: a LeaveSpan that finds the span-format stack empty pops nothing
    and is defined (no underflow): it sets the active character format to
    the empty format, clears the inside-image flag when the span is an
    image, changes no other field and returns 0. *)
Theorem leave_span_on_empty_stack :
  forall (st : Importer) (t : MD_SPANTYPE),
    m_spanFormatStack st = [] ->
    exists st' : Importer,
      cbLeaveSpan t st = Some (0, st') /\
      st' =
        (match t with
         | MD_SPAN_IMG => set_m_imageSpan false
         | _ => fun s => s
         end) (set_doc (doc st ++ [SetCharFormat emptyCharFormat]) st) /\
      m_spanFormatStack st' = [] /\
      activeCharFormat (doc st') = emptyCharFormat /\
      m_imageSpan st' =
        match t with
        | MD_SPAN_IMG => false
        | _ => m_imageSpan st
        end.
Proof.
  intros st t Hstack.
  destruct t; (eexists; split;
    [ cbv [cbLeaveSpan bind gets modify emit ret when];
      rewrite Hstack; reflexivity
    | cbn; rewrite Hstack; repeat split; apply activeCharFormat_set ]).
Qed.

Lemma leave_span_on_empty_stack_witness :
  m_spanFormatStack anImporter = [] /\
  exists st' : Importer,
    cbLeaveSpan MD_SPAN_IMG anImporter = Some (0, st') /\
    st' =
      set_m_imageSpan false
        (set_doc (doc anImporter ++ [SetCharFormat emptyCharFormat])
           anImporter) /\
    m_spanFormatStack st' = [] /\
    activeCharFormat (doc st') = emptyCharFormat /\
    m_imageSpan st' = false.
Proof.
  split; [reflexivity|].
  apply (leave_span_on_empty_stack anImporter MD_SPAN_IMG).
  reflexivity.
Defined.

(** ** Block kinds without a case *)

(** C9 (amended): for a block kind the importer has no case for, EnterBlock
    returns 0, touches neither the document nor the warnings, and changes
    exactly one field, the current block kind, which becomes the kind
    entered; LeaveBlock returns 0 and leaves the importer as it is. *)
Theorem other_block_kind_only_recorded :
  forall (sink : DocumentSink) (st : Importer),
    (forall b : Block,
       isOtherBlock (blockType b) = true ->
       cbEnterBlock sink b st = Some (0, set_m_blockType (blockType b) st)) /\
    (forall t : MD_BLOCKTYPE,
       isOtherBlock t = true ->
       cbLeaveBlock sink t st = Some (0, st)).
Proof.
  intros sink st. split.
  - intros b Hb. destruct b; try discriminate Hb; reflexivity.
  - intros t Ht. destruct t; try discriminate Ht; reflexivity.
Qed.

Lemma other_block_kind_only_recorded_witness :
  isOtherBlock (blockType (BlockUnknown 99)) = true /\
  cbEnterBlock gridSink (BlockUnknown 99) anImporter =
    Some (0, set_m_blockType (MD_BLOCK_UNKNOWN 99) anImporter) /\
  isOtherBlock (MD_BLOCK_UNKNOWN 99) = true /\
  cbLeaveBlock gridSink (MD_BLOCK_UNKNOWN 99) anImporter =
    Some (0, anImporter).
Proof.
  split; [reflexivity|].
  split.
  - apply (proj1 (other_block_kind_only_recorded gridSink anImporter)
             (BlockUnknown 99)).
    reflexivity.
  - split; [reflexivity|].
    apply (proj2 (other_block_kind_only_recorded gridSink anImporter)
             (MD_BLOCK_UNKNOWN 99)).
    reflexivity.
Defined.

(** C9 as worded fails: entering a block of an unknown kind inside a
    table data cell returns 0 but does change the State Context, the
    current block kind; the text that follows is then no longer recorded as
    content of the cell. *)
Lemma unknown_block_changes_current_kind :
  exists st st1 st2 : Importer,
    md_parse gridSink
      [EnterBlock BlockTable; EnterBlock BlockTR;
       EnterBlock (BlockTD MD_ALIGN_DEFAULT)] anImporter = Some (0, st) /\
    cbEnterBlock gridSink (BlockUnknown 99) st = Some (0, st1) /\
    st1 <> st /\
    m_blockType st = MD_BLOCK_TD /\
    m_blockType st1 = MD_BLOCK_UNKNOWN 99 /\
    cbText gridSink MD_TEXT_NORMAL (qstr "x") st1 = Some (0, st2) /\
    m_nonEmptyTableCells st2 = [].
Proof.
  eexists. eexists. eexists.
  split; [vm_compute; reflexivity|].
  split; [vm_compute; reflexivity|].
  split; [intro H; discriminate H|].
  split; [reflexivity|].
  split; [reflexivity|].
  split; [vm_compute; reflexivity|].
  reflexivity.
Qed.

(** ** The paragraph margin is fixed during an import *)







(** ** Deferred block insertion *)

Lemma insertBlock_formats_margins :
  forall st : Importer,
    let bf := fst (insertBlock_formats st) in
    let cf := snd (insertBlock_formats st) in
    leftMargin bf = wrap_int (BlockQuoteIndent * m_blockQuoteDepth st) /\
    rightMargin bf =
      (if m_blockQuoteDepth st =? 0 then 0 else BlockQuoteIndent) /\
    indent bf = Z.of_nat (length (m_listStack st)) /\
    (if m_codeBlock st then
       bf_blockCodeLanguage bf = Some (m_blockCodeLanguage st) /\
       cf = setFont (m_monoFont st) (spanFormatTop (m_spanFormatStack st)) /\
       bf_topMargin bf = None /\ bf_bottomMargin bf = None
     else
       bf_blockCodeLanguage bf = None /\
       cf = spanFormatTop (m_spanFormatStack st) /\
       topMargin bf = m_paragraphMargin st /\
       bottomMargin bf = m_paragraphMargin st).
Proof.
  intro st. unfold insertBlock_formats.
  destruct (Z.eqb_spec (m_blockQuoteDepth st) 0) as [Hq|Hq];
    destruct (Z.eqb_spec (Z.of_nat (length (m_listStack st))) 0) as [Hl|Hl];
    destruct (m_codeBlock st); cbn -[wrap_int Z.mul];
    rewrite ?Hq, ?Hl; repeat split; reflexivity.
Qed.




Lemma applyMerges_extends :
  forall (sink : DocumentSink) (t : TableHandle)
         (ms : list ResolverSpec.Merge) (d : Trace),
    exists ops : list SinkOp,
      ResolverSpec.applyMerges sink t d ms = d ++ ops /\
      forallb isMergeCells ops = true /\
      length ops = length ms.
Proof.
  intros sink t ms. induction ms as [|m ms IH]; intro d.
  - exists []. cbn. now rewrite app_nil_r.
  - cbn [ResolverSpec.applyMerges].
    destruct (IH (d ++ [MergeCells t (rows sink d t - 1)
                          (ResolverSpec.anchor m) 1 (ResolverSpec.span m)]))
      as (ops & Heq & Hall & Hlen).
    eexists (_ :: ops). rewrite Heq, <- app_assoc.
    split; [reflexivity|]. split; [exact Hall|].
    cbn. now rewrite Hlen.
Qed.

(** ** Status of the block callbacks *)

Lemma zero_status_iff : 0 <> 0 <-> false = true.
Proof. split; [intro H; now elim H | discriminate]. Qed.

Lemma one_status_iff : 1 <> 0 <-> true = true.
Proof. split; [reflexivity | discriminate]. Qed.

Lemma cbEnterBlock_status :
  forall (sink : DocumentSink) (st : Importer) (b : Block),
    match cbEnterBlock sink b st with
    | None => enterUndefined st b = true
    | Some (status, st') =>
        enterUndefined st b = false /\
        (status <> 0 <-> cellLookupFails sink st b = true) /\
        (cellLookupFails sink st b = true ->
         status = 1 /\
         warnings st' =
           warnings st ++ ["malformed table in Markdown input"%string] /\
         (exists ops : list SinkOp, doc st' = doc st ++ ops) /\
         m_tableCol st' = m_tableCol st + 1 /\
         m_blockType st' = blockType b) /\
        (cellLookupFails sink st b = false ->
         status = 0 /\ warnings st' = warnings st)
    end.
Proof.
  intros sink st b.
  destruct b;
    cbv [cbEnterBlock insertList insertTable currentTable listStack_top
         bind gets modify emit ret when undefined qWarning
         cellLookupFails enterUndefined];
    cbn [m_currentTable m_listStack set_m_blockType set_m_needsInsertBlock
         set_m_tableCol set_m_tableColumnCount set_m_tableRowCount
         set_m_nonEmptyTableCells doc];
    repeat (match goal with
      | |- context [match m_currentTable st with _ => _ end] =>
          destruct (m_currentTable st) eqn:?
      | |- context [match m_listStack st with _ => _ end] =>
          destruct (m_listStack st) eqn:?
      | |- context [if ?c then _ else _] =>
          lazymatch c with
          | context [if _ then _ else _] => fail
          | _ => let E := fresh "E" in
                 destruct (bool_cases c) as [E|E]; rewrite ?E
          end
      end; cbn -[Z.add Z.sub Z.ltb Z.of_nat length filter]);
    cbn -[Z.add Z.sub Z.ltb Z.of_nat length filter];
    try reflexivity;
    (split; [reflexivity|]);
    (split; [first [apply zero_status_iff | apply one_status_iff]|]);
    (split; intro Hfail; [try discriminate Hfail | try discriminate Hfail]);
    repeat split; try reflexivity;
    first [eexists; reflexivity | exists []; now rewrite app_nil_r].
Qed.

Lemma cbLeaveBlock_status :
  forall (sink : DocumentSink) (st : Importer) (t : MD_BLOCKTYPE),
    match cbLeaveBlock sink t st with
    | None => leaveUndefined st t = true
    | Some (status, st') =>
        leaveUndefined st t = false /\
        status = 0 /\ warnings st' = warnings st /\
        exists ops : list SinkOp, doc st' = doc st ++ ops
    end.
Proof.
  intros sink st t.
  assert (Hnil : exists ops : list SinkOp, doc st = doc st ++ ops)
    by (exists []; now rewrite app_nil_r).
  destruct t; try (cbn; repeat split; first [reflexivity | exact Hnil]).
  - cbv [cbLeaveBlock listStack_pop bind gets modify ret undefined
         leaveUndefined].
    destruct (m_listStack st); cbn; repeat split;
      first [reflexivity | exact Hnil].
  - cbv [cbLeaveBlock listStack_pop bind gets modify ret undefined
         leaveUndefined].
    destruct (m_listStack st); cbn; repeat split;
      first [reflexivity | exact Hnil].
  - cbn; repeat split; try reflexivity. eexists; reflexivity.
  - cbn; repeat split; try reflexivity. eexists; reflexivity.
  - unfold cbLeaveBlock, bind at 1, gets at 1, bind at 1.
    rewrite mergeLoop_resolve.
    change (marker (-1)) with (@None Z).
    unfold leaveUndefined, ResolverSpec.scanOrder, ResolverSpec.mergesApplied.
    destruct (ResolverSpec.resolve _ _ _) as [|m ms]; cbn [isEmpty negb andb].
    + cbn. repeat split; first [reflexivity | exact Hnil].
    + destruct (m_currentTable st); cbn; [|reflexivity].
      repeat split; try reflexivity.
      destruct (applyMerges_extends sink t ms
                  (doc st ++ [MergeCells t (rows sink (doc st) t - 1)
                                (ResolverSpec.anchor m) 1
                                (ResolverSpec.span m)]))
        as (ops & Heq & _).
      rewrite Heq, <- app_assoc. eexists; reflexivity.
Qed.

(** C5: a block callback returns a nonzero status exactly when it is
    cbEnterBlock on a TableHeaderCell or TableDataCell whose cell lookup at
    (rowCount - 1, currentColumn) is invalid.  It then returns 1 after one
    warning, rolls nothing back (the column counter stays advanced, the
    current block kind stays set) and keeps the whole document written so
    far.  In every other case where the C++ is defined the status is 0 and
    nothing is warned; the C++ is undefined exactly on table events with no
    table, on ListItem and list leave with no list, and on a row leave that
    must merge with no table. *)
Theorem block_status_nonzero_iff_cell_invalid :
  forall (sink : DocumentSink) (st : Importer),
    (forall b : Block,
       match cbEnterBlock sink b st with
       | None => enterUndefined st b = true
       | Some (status, st') =>
           enterUndefined st b = false /\
           (status <> 0 <-> cellLookupFails sink st b = true) /\
           (cellLookupFails sink st b = true ->
            status = 1 /\
            warnings st' =
              warnings st ++ ["malformed table in Markdown input"%string] /\
            (exists ops : list SinkOp, doc st' = doc st ++ ops) /\
            m_tableCol st' = m_tableCol st + 1 /\
            m_blockType st' = blockType b) /\
           (cellLookupFails sink st b = false ->
            status = 0 /\ warnings st' = warnings st)
       end) /\
    (forall t : MD_BLOCKTYPE,
       match cbLeaveBlock sink t st with
       | None => leaveUndefined st t = true
       | Some (status, st') =>
           leaveUndefined st t = false /\
           status = 0 /\ warnings st' = warnings st /\
           exists ops : list SinkOp, doc st' = doc st ++ ops
       end).
Proof.
  intros sink st. split.
  - apply cbEnterBlock_status.
  - apply cbLeaveBlock_status.
Qed.

Lemma block_status_nonzero_iff_cell_invalid_witness :
  cellLookupFails gridSink pastLastColumn (BlockTD MD_ALIGN_LEFT) = true /\
  exists st' : Importer,
    cbEnterBlock gridSink (BlockTD MD_ALIGN_LEFT) pastLastColumn
    = Some (1, st') /\
    warnings st' = ["malformed table in Markdown input"%string] /\
    (exists ops : list SinkOp, doc st' = doc pastLastColumn ++ ops) /\
    m_tableCol st' = 1.
Proof.
  split; [reflexivity|].
  pose proof (proj1 (block_status_nonzero_iff_cell_invalid gridSink
                       pastLastColumn) (BlockTD MD_ALIGN_LEFT)) as H.
  destruct (cbEnterBlock gridSink (BlockTD MD_ALIGN_LEFT) pastLastColumn)
    as [[status st']|] eqn:Hrun.
  - destruct H as (_ & _ & Hfail & _).
    destruct (Hfail eq_refl) as (Hstatus & Hwarn & Hdoc & Hcol & _).
    exists st'. rewrite Hstatus.
    repeat split; assumption.
  - discriminate H.
Defined.

(** ** Rows that end in empty cells *)

Section TrailingEmptyCells.

Import ResolverSpec.

Variable nonEmpty : list Z.

Lemma resolve_populated :
  forall k : nat,
    (forall c : nat, (c < k)%nat -> contains nonEmpty (Z.of_nat c) = true) ->
    resolve nonEmpty (downFrom k) (None, None) = [].
Proof.
  induction k as [|k IH]; intro Hpop; [reflexivity|].
  cbn [downFrom resolve visit].
  rewrite (Hpop k) by lia. cbn [app].
  apply IH. intros c Hc. apply Hpop. lia.
Qed.

Lemma resolve_populated_markers :
  forall (k : nat) (m : Markers),
    (1 <= k)%nat ->
    (forall c : nat, (c < k)%nat -> contains nonEmpty (Z.of_nat c) = true) ->
    resolve nonEmpty (downFrom k) m =
    match m with
    | (Some e, Some b) => [{| anchor := b - 1; span := e - b + 2 |}]
    | _ => []
    end.
Proof.
  intros [|k] [runEnd runStart] Hk Hpop; [lia|].
  cbn [downFrom resolve visit].
  rewrite (Hpop k) by lia.
  rewrite resolve_populated by (intros c Hc; apply Hpop; lia).
  rewrite app_nil_r. reflexivity.
Qed.

Lemma resolve_empty_run :
  forall j k : nat,
    (forall c : nat, (k <= c < k + j)%nat ->
                     contains nonEmpty (Z.of_nat c) = false) ->
    resolve nonEmpty (downFrom (k + j)) (None, None) =
    resolve nonEmpty (downFrom k) (emptyRunMarkers k j).
Proof.
  induction j as [|j IH]; intros k Hempty.
  - rewrite Nat.add_0_r. reflexivity.
  - replace (k + S j)%nat with (S k + j)%nat by lia.
    rewrite IH by (intros c Hc; apply Hempty; lia).
    assert (Hk : contains nonEmpty (Z.of_nat k) = false)
      by (apply Hempty; lia).
    destruct j as [|[|j]];
      cbn [emptyRunMarkers downFrom resolve visit]; rewrite Hk;
      cbn [app]; try reflexivity.
    + do 3 f_equal. lia.
    + do 3 f_equal. lia.
Qed.

(** A row whose [p] leftmost cells are populated and whose [m] remaining
    cells are empty: the last populated cell absorbs the empty ones, with
    span m + 1, when there are at least two of them; a single trailing
    empty cell is left alone. *)
Lemma trailing_empty_run_merged :
  forall p m : nat,
    (1 <= p)%nat ->
    (forall c : nat, (c < p)%nat -> contains nonEmpty (Z.of_nat c) = true) ->
    (forall c : nat, (p <= c < p + m)%nat ->
                     contains nonEmpty (Z.of_nat c) = false) ->
    resolve nonEmpty (scanOrder (Z.of_nat (p + m) - 1)) (None, None) =
    if (2 <=? m)%nat
    then [{| anchor := Z.of_nat p - 1; span := Z.of_nat m + 1 |}]
    else [].
Proof.
  intros p m Hp Hpop Hempty.
  unfold scanOrder.
  replace (Z.to_nat (Z.of_nat (p + m) - 1 + 1)) with (p + m)%nat by lia.
  rewrite (resolve_empty_run m p Hempty).
  rewrite (resolve_populated_markers p _ Hp Hpop).
  destruct m as [|[|m]]; cbn [emptyRunMarkers Nat.leb]; try reflexivity.
  do 2 f_equal; lia.
Qed.

End TrailingEmptyCells.

(** The same at the callback: what LeaveBlock(TableRow) does to such a
    row. *)
Lemma leave_row_trailing_empty_cells :
  forall (sink : DocumentSink) (st : Importer) (t : TableHandle) (p m : nat),
    m_currentTable st = Some t ->
    m_tableCol st = Z.of_nat (p + m) - 1 ->
    (1 <= p)%nat ->
    (forall c : nat, (c < p)%nat ->
       contains (m_nonEmptyTableCells st) (Z.of_nat c) = true) ->
    (forall c : nat, (p <= c < p + m)%nat ->
       contains (m_nonEmptyTableCells st) (Z.of_nat c) = false) ->
    cbLeaveBlock sink MD_BLOCK_TR st =
    Some (0,
          if (2 <=? m)%nat
          then set_doc
                 (doc st
                  ++ [MergeCells t (rows sink (doc st) t - 1)
                        (Z.of_nat p - 1) 1 (Z.of_nat m + 1)]) st
          else st).
Proof.
  intros sink st t p m Htable Hcol Hp Hpop Hempty.
  unfold cbLeaveBlock, bind at 1, gets at 1, bind at 1.
  rewrite mergeLoop_resolve.
  change (marker (-1)) with (@None Z).
  fold (ResolverSpec.scanOrder (m_tableCol st)). rewrite Hcol.
  rewrite (trailing_empty_run_merged _ p m Hp Hpop Hempty).
  unfold ResolverSpec.mergesApplied.
  destruct (2 <=? m)%nat; cbn [isEmpty]; [|reflexivity].
  rewrite Htable. reflexivity.
Qed.

(** ** The tag-counting loop terminates within its fuel *)

Lemma indexOfFrom_range :
  forall (p : QChar -> QChar -> bool) (s : QString) (pos from : Z),
    indexOfFrom p s pos from = -1 \/
    (from <= indexOfFrom p s pos from /\
     pos <= indexOfFrom p s pos from /\
     indexOfFrom p s pos from + 2 <= pos + Z.of_nat (length s)).
Proof.
  intros p s. induction s as [|a s IH]; intros pos from; [left; reflexivity|].
  destruct s as [|b s]; [left; reflexivity|].
  rewrite indexOfFrom_cons.
  destruct ((from <=? pos) && p a b) eqn:Hhit.
  - right. apply andb_prop in Hhit. destruct Hhit as [Hfrom _].
    apply Z.leb_le in Hfrom. cbn [length]. lia.
  - destruct (IH (pos + 1) from) as [Hnone | (H1 & H2 & H3)].
    + left. exact Hnone.
    + right. cbn [length] in *. lia.
Qed.

Lemma indexOf_past_end :
  forall (p : QChar -> QChar -> bool) (s : QString) (from : Z),
    Z.of_nat (length s) <= from + 1 -> indexOf p s from = -1.
Proof.
  intros p s from Hfrom. unfold indexOf.
  destruct (indexOfFrom_range p s 0 from) as [Hnone | (H1 & H2 & H3)];
    [exact Hnone | lia].
Qed.

(** Fuel beyond [length s] changes nothing: the loop has already met
    indexOf's -1. *)
Lemma matchLoop_fuel :
  forall (p : QChar -> QChar -> bool) (s : QString) (fuel fuel' : nat)
         (startIdx n : Z),
    Z.of_nat (length s) <= startIdx + 2 * Z.of_nat fuel + 1 ->
    (fuel <= fuel')%nat ->
    matchLoop fuel' p s startIdx n = matchLoop fuel p s startIdx n.
Proof.
  intros p s fuel. induction fuel as [|fuel IH];
    intros fuel' startIdx n Hlen Hle.
  - destruct fuel' as [|fuel']; [reflexivity|].
    cbn [matchLoop]. rewrite indexOf_past_end by lia. reflexivity.
  - destruct fuel' as [|fuel']; [lia|].
    cbn [matchLoop].
    destruct (0 <=? indexOf p s startIdx) eqn:Hfound; [|reflexivity].
    apply Z.leb_le in Hfound.
    apply IH; [|lia].
    unfold indexOf in *.
    destruct (indexOfFrom_range p s 0 startIdx) as [Hnone | (H1 & _)]; lia.
Qed.

(** X15: the counting loop of a raw HTML fragment terminates: it has met
    indexOf's -1 within as many iterations as the fragment has code units,
    so any larger bound on the iterations gives the same count. *)
Lemma countMatches_fuel :
  forall (p : QChar -> QChar -> bool) (s : QString) (fuel : nat),
    (length s <= fuel)%nat -> matchLoop fuel p s 0 0 = countMatches p s.
Proof.
  intros p s fuel Hfuel. unfold countMatches.
  apply matchLoop_fuel; lia.
Qed.

Lemma countMatches_fuel_witness :
  (length (qstr "<b></b>") <= 20)%nat /\
  matchLoop 20 openingBracket (qstr "<b></b>") 0 0
  = countMatches openingBracket (qstr "<b></b>").
Proof.
  split; [vm_compute; lia|].
  apply (countMatches_fuel openingBracket (qstr "<b></b>") 20).
  vm_compute. lia.
Defined.

Example countMatches_opening :
  countMatches openingBracket (qstr "<div><p>text</p></div>") = 2.
Proof. reflexivity. Qed.

Example countMatches_closing :
  countMatches closingBracket (qstr "<div><p>text</p></div>") = 2.
Proof. reflexivity. Qed.

Example countMatches_self_closing :
  countMatches openingBracket (qstr "<br/>") = 1 /\
  countMatches closingBracket (qstr "<br/>") = 1.
Proof. split; reflexivity. Qed.

(** A div opened in one fragment and closed in a later one goes into the
    document once, whole, when it is closed. *)
Example raw_html_across_fragments :
  exists st' : Importer,
    md_parse gridSink
      [Text MD_TEXT_HTML (qstr "<div>"); Text MD_TEXT_NORMAL (qstr "hello");
       Text MD_TEXT_HTML (qstr "</div>")] anImporter = Some (0, st') /\
    doc st' =
      [InsertHtml (qstr "<div>hello</div>"); SetCharFormat emptyCharFormat] /\
    m_htmlAccumulator st' = [] /\ m_htmlTagDepth st' = 0.
Proof.
  eexists. split; [vm_compute; reflexivity|].
  repeat split.
Qed.

(** ** Further examples *)

Example Newline_is_line_feed : Newline = 10 /\ Space = 32.
Proof. split; reflexivity. Qed.

(** Empty cells between populated ones: columns 0 and 3 populated out of
    six.  Each populated cell absorbs the two empty cells after it. *)
Example resolve_interleaved :
  ResolverSpec.resolve [0; 3] (ResolverSpec.scanOrder 5) (None, None) =
  [{| ResolverSpec.anchor := 3; ResolverSpec.span := 3 |};
   {| ResolverSpec.anchor := 0; ResolverSpec.span := 3 |}].
Proof. reflexivity. Qed.

(** Empty cells before the first populated one are never merged. *)
Example resolve_leading_empty :
  ResolverSpec.resolve [2] (ResolverSpec.scanOrder 2) (None, None) = [].
Proof. reflexivity. Qed.

(** A data cell past the table's last column stops the import: md_parse
    returns 1, the text that follows is never delivered, and the table
    inserted before stays in the document. *)
Example malformed_table_aborts_import :
  exists st' : Importer,
    md_parse gridSink
      [EnterBlock BlockTable; EnterBlock BlockTR;
       EnterBlock (BlockTD MD_ALIGN_DEFAULT); LeaveBlock MD_BLOCK_TD;
       EnterBlock (BlockTD MD_ALIGN_DEFAULT); Text MD_TEXT_NORMAL (qstr "x")]
      anImporter = Some (1, st') /\
    warnings st' = ["malformed table in Markdown input"%string] /\
    filter (fun o => match o with InsertText _ => true | _ => false end)
      (doc st') = [] /\
    hd_error (doc st') = Some (InsertTable 1 1).
Proof.
  eexists. split; [vm_compute; reflexivity|].
  repeat split.
Qed.

(** The ordered list 1. a / 2. b: one decimal list at indent 1, its two
    items in source order. *)
Example ordered_list_two_items :
  exists st' : Importer,
    md_parse gridSink
      [EnterBlock (BlockOL "."); EnterBlock (BlockLI false " ");
       EnterBlock BlockP; Text MD_TEXT_NORMAL (qstr "a");
       LeaveBlock MD_BLOCK_P; LeaveBlock MD_BLOCK_LI;
       EnterBlock (BlockLI false " ");
       EnterBlock BlockP; Text MD_TEXT_NORMAL (qstr "b");
       LeaveBlock MD_BLOCK_P; LeaveBlock MD_BLOCK_LI;
       LeaveBlock MD_BLOCK_OL] anImporter = Some (0, st') /\
    filter (fun o => match o with
                     | InsertList _ | InsertText _ | ListAdd _ => true
                     | _ => false
                     end) (doc st') =
      [InsertList {| lf_indent := Some 1; lf_style := Some ListDecimal;
                     lf_numberSuffix := Some (qstr ".") |};
       InsertText (qstr "a"); ListAdd 0%nat; InsertText (qstr "b")] /\
    m_listStack st' = [].
Proof.
  eexists. split; [vm_compute; reflexivity|].
  repeat split.
Qed.

(** * Further properties of the callbacks *)

(** ** Every merge is sound *)

Section SoundMerges.

Import ResolverSpec.

Variable nonEmpty : list Z.
Variable K : nat.

Lemma resolve_sound :
  forall (k : nat) (m : Markers),
    (k <= K)%nat ->
    markersInvariant nonEmpty K k m ->
    Forall (fun c => soundMerge nonEmpty (Z.of_nat K - 1) (fst c) (snd c) /\
                     fst c + snd c <= mergeLimit k m)
      (map callOf (resolve nonEmpty (downFrom k) m)) /\
    disjointDescending (map callOf (resolve nonEmpty (downFrom k) m)).
Proof.
  induction k as [|k IH]; intros m Hk Hinv.
  - cbn. split; [constructor | exact I].
  - assert (Hclear : markersInvariant nonEmpty K k (None, None)) by exact I.
    destruct (IH (None, None) ltac:(lia) Hclear) as [Hsound Hdisj].
    cbn [mergeLimit fst] in Hsound.
    destruct m as [[e|] [b|]]; cbn [markersInvariant] in Hinv;
      cbn [downFrom resolve]; unfold visit;
      destruct (contains nonEmpty (Z.of_nat k)) eqn:Hcol;
      cbn [app map]; try contradiction.
    + (* both markers set, populated column: the merge *)
      destruct Hinv as (Hb & Hlt & HK & Hempty).
      split.
      * constructor.
        -- cbn [callOf anchor span fst snd mergeLimit].
           split; [|lia].
           unfold soundMerge.
           replace (b - 1) with (Z.of_nat k) by lia.
           repeat split; try lia; try exact Hcol.
           intros c Hc. apply Hempty. lia.
        -- eapply Forall_impl; [|exact Hsound].
           intros c [Hs Hl]. split; [exact Hs|].
           cbn [mergeLimit fst]. lia.
      * cbn [disjointDescending callOf anchor span fst snd]. split.
        -- eapply Forall_impl; [|exact Hsound].
           intros c [_ Hl]. lia.
        -- exact Hdisj.
    + (* both markers set, empty column: the run grows *)
      destruct Hinv as (Hb & Hlt & HK & Hempty).
      apply (IH (Some e, Some (Z.of_nat k))); [lia|].
      cbn [markersInvariant]. repeat split; try lia.
      intros c Hc.
      destruct (Z.eq_dec c (Z.of_nat k)) as [-> | Hne];
        [exact Hcol | apply Hempty; lia].
    + (* run of one, populated column: no merge *)
      destruct Hinv as (He & HK & Hempty).
      split; [|exact Hdisj].
      eapply Forall_impl; [|exact Hsound].
      intros c [Hs Hl]. split; [exact Hs|]. cbn [mergeLimit fst]. lia.
    + (* run of one, empty column: the run becomes two *)
      destruct Hinv as (He & HK & Hempty).
      apply (IH (Some e, Some (Z.of_nat k))); [lia|].
      cbn [markersInvariant]. repeat split; try lia.
      intros c Hc.
      destruct (Z.eq_dec c (Z.of_nat k)) as [-> | Hne]; [exact Hcol|].
      replace c with e by lia. exact Hempty.
    + (* no run, populated column *)
      split; [|exact Hdisj].
      eapply Forall_impl; [|exact Hsound].
      intros c [Hs Hl]. split; [exact Hs|]. cbn [mergeLimit fst]. lia.
    + (* no run, empty column: a run starts *)
      destruct (IH (Some (Z.of_nat k), None)) as [Hsound' Hdisj']; [lia| |].
      * cbn [markersInvariant]. repeat split; try lia. exact Hcol.
      * split; [|exact Hdisj'].
        eapply Forall_impl; [|exact Hsound'].
        intros c [Hs Hl]. split; [exact Hs|].
        cbn [mergeLimit fst] in *. lia.
Qed.

End SoundMerges.

Lemma applyMerges_calls :
  forall (sink : DocumentSink) (t : TableHandle)
         (ms : list ResolverSpec.Merge) (d : Trace),
    exists ops : list SinkOp,
      ResolverSpec.applyMerges sink t d ms = d ++ ops /\
      forallb isMergeCells ops = true /\
      mergeCalls ops = map callOf ms.
Proof.
  intros sink t ms. induction ms as [|m ms IH]; intro d.
  - exists []. cbn. now rewrite app_nil_r.
  - cbn [ResolverSpec.applyMerges].
    destruct (IH (d ++ [MergeCells t (rows sink d t - 1)
                          (ResolverSpec.anchor m) 1 (ResolverSpec.span m)]))
      as (ops & Heq & Hall & Hcalls).
    eexists (_ :: ops). rewrite Heq, <- app_assoc.
    split; [reflexivity|]. split; [exact Hall|].
    cbn [mergeCalls map]. now rewrite Hcalls.
Qed.

(** X1: whatever the row, leaving it only ever adds mergeCells calls to the
    document, and each of them starts at a populated cell, swallows at least
    two cells after it, all of them empty, and ends inside the row; the
    calls come right to left and do not overlap. *)
Theorem row_merges_are_sound :
  forall (sink : DocumentSink) (st st' : Importer) (status : Z),
    cbLeaveBlock sink MD_BLOCK_TR st = Some (status, st') ->
    exists ops : list SinkOp,
      doc st' = doc st ++ ops /\
      forallb isMergeCells ops = true /\
      Forall (fun c => soundMerge (m_nonEmptyTableCells st) (m_tableCol st)
                         (fst c) (snd c)) (mergeCalls ops) /\
      disjointDescending (mergeCalls ops).
Proof.
  intros sink st st' status Hrun.
  unfold cbLeaveBlock, bind at 1, gets at 1, bind at 1 in Hrun.
  rewrite mergeLoop_resolve in Hrun.
  change (marker (-1)) with (@None Z) in Hrun.
  set (K := Z.to_nat (m_tableCol st + 1)) in Hrun.
  destruct (resolve_sound (m_nonEmptyTableCells st) K K (None, None)
              (Nat.le_refl K) I) as [Hsound Hdisj].
  unfold ResolverSpec.mergesApplied in Hrun.
  destruct (ResolverSpec.resolve (m_nonEmptyTableCells st)
              (ResolverSpec.downFrom K) (None, None)) as [|m ms] eqn:Hres.
  - cbn in Hrun. injection Hrun as _ <-.
    exists []. rewrite app_nil_r. repeat split; constructor.
  - cbn [isEmpty] in Hrun.
    destruct (m_currentTable st) as [t|]; [|discriminate Hrun].
    cbn in Hrun. injection Hrun as _ <-.
    destruct (applyMerges_calls sink t (m :: ms) (doc st))
      as (ops & Heq & Hall & Hcalls).
    exists ops. cbn [doc set_doc].
    split; [exact Heq|]. split; [exact Hall|].
    rewrite Hcalls. split; [|exact Hdisj].
    assert (HK : Z.of_nat K - 1 = m_tableCol st).
    { destruct K as [|K0] eqn:HKK; [discriminate Hres|]. subst K. lia. }
    eapply Forall_impl; [|exact Hsound].
    intros c [Hs _]. rewrite <- HK. exact Hs.
Qed.

Lemma row_merges_are_sound_witness :
  cbLeaveBlock gridSink MD_BLOCK_TR rowWithTwoEmptyCells
  = Some (0, set_doc (doc rowWithTwoEmptyCells ++ [MergeCells 0%nat 0 0 1 3])
               rowWithTwoEmptyCells) /\
  exists ops : list SinkOp,
    doc (set_doc (doc rowWithTwoEmptyCells ++ [MergeCells 0%nat 0 0 1 3])
           rowWithTwoEmptyCells)
    = doc rowWithTwoEmptyCells ++ ops /\
    forallb isMergeCells ops = true /\
    Forall (fun c => soundMerge (m_nonEmptyTableCells rowWithTwoEmptyCells)
                       (m_tableCol rowWithTwoEmptyCells) (fst c) (snd c))
      (mergeCalls ops) /\
    disjointDescending (mergeCalls ops).
Proof.
  split; [reflexivity|].
  apply (row_merges_are_sound gridSink rowWithTwoEmptyCells _ 0).
  reflexivity.
Defined.

(** ** What the callbacks leave alone *)

Lemma cbText_frame :
  forall (sink : DocumentSink) (st : Importer) (t : MD_TEXTTYPE) (s : QString),
    m_imageSpan st = false ->
    exists st',
      cbText sink t s st = Some (0, st') /\
      m_blockType st' = m_blockType st /\
      m_blockQuoteDepth st' = m_blockQuoteDepth st /\
      m_listStack st' = m_listStack st /\
      m_monoFont st' = m_monoFont st /\
      m_palette_link st' = m_palette_link st /\
      m_currentTable st' = m_currentTable st /\
      m_tableCol st' = m_tableCol st /\
      m_codeBlock st' = m_codeBlock st /\
      warnings st' = warnings st.
Proof.
  intros sink st t s Himg.
  cbv [cbText textSwitch insertBlock bind gets modify emit ret when].
  rewrite Himg.
  destruct (insertBlock_formats st) as [bf cf] eqn:Hf.
  destruct (bool_cases (m_needsInsertBlock st)) as [E|E]; rewrite !E;
    destruct t; tidy; rewrite ?Hf; tidy;
    repeat (match goal with
      | |- context [?x =? 0] =>
          let E := fresh "E" in
          destruct (bool_cases (x =? 0)) as [E|E]; rewrite !E
      | |- context [isEmpty (m_spanFormatStack st)] =>
          destruct (m_spanFormatStack st) eqn:?
      | |- context [match m_blockType st with MD_BLOCK_DOC => _ | _ => _ end] =>
          destruct (m_blockType st) eqn:?
      | |- context [isEmpty s] => destruct (isEmpty s)
      | |- context [currentList ?k ?x] =>
          let E := fresh "E" in
          destruct (bool_cases (currentList k x)) as [E|E]; rewrite !E
      end; tidy);
    (eexists; (split; [reflexivity|]));
    tidy; repeat split; first [reflexivity | congruence].
Qed.

Lemma cbEnterSpan_frame :
  forall (st : Importer) (sp : Span),
    exists st',
      cbEnterSpan sp st = Some (0, st') /\
      m_blockType st' = m_blockType st /\
      m_nonEmptyTableCells st' = m_nonEmptyTableCells st /\
      m_blockQuoteDepth st' = m_blockQuoteDepth st /\
      m_listStack st' = m_listStack st /\
      m_monoFont st' = m_monoFont st /\
      m_palette_link st' = m_palette_link st /\
      m_htmlTagDepth st' = m_htmlTagDepth st /\
      m_htmlAccumulator st' = m_htmlAccumulator st /\
      warnings st' = warnings st /\
      m_imageSpan st' =
        match sp with SpanImg _ _ => true | _ => m_imageSpan st end.
Proof.
  intros st sp.
  destruct sp;
    try (eexists; rewrite cbEnterSpan_plain by exact I;
         repeat split; reflexivity).
  cbv [cbEnterSpan insertBlock bind gets modify emit ret when].
  cbn [m_needsInsertBlock set_m_imageSpan].
  destruct (bool_cases (m_needsInsertBlock st)) as [E|E]; rewrite E.
  - destruct (insertBlock_formats (set_m_imageSpan true st)) as [bf cf].
    eexists. split; [reflexivity|]. cbn. repeat split; reflexivity.
  - eexists. split; [reflexivity|]. cbn. repeat split; reflexivity.
Qed.

Lemma cbLeaveSpan_frame :
  forall (st : Importer) (t : MD_SPANTYPE),
    exists st',
      cbLeaveSpan t st = Some (0, st') /\
      m_blockType st' = m_blockType st /\
      m_nonEmptyTableCells st' = m_nonEmptyTableCells st /\
      m_blockQuoteDepth st' = m_blockQuoteDepth st /\
      m_listStack st' = m_listStack st /\
      m_monoFont st' = m_monoFont st /\
      m_palette_link st' = m_palette_link st /\
      m_htmlTagDepth st' = m_htmlTagDepth st /\
      m_htmlAccumulator st' = m_htmlAccumulator st /\
      warnings st' = warnings st /\
      m_spanFormatStack st' = tl (m_spanFormatStack st) /\
      m_imageSpan st' =
        match t with MD_SPAN_IMG => false | _ => m_imageSpan st end.
Proof.
  intros st t.
  cbv [cbLeaveSpan bind gets modify emit ret when].
  destruct (m_spanFormatStack st) as [|f [|g rest]] eqn:Hstack;
    cbn [isEmpty negb tl m_spanFormatStack set_m_spanFormatStack
         spanFormatTop];
    destruct t; eexists; (split; [reflexivity|]); cbn;
    rewrite ?Hstack; repeat split; reflexivity.
Qed.

Ltac block_cases st :=
  repeat (match goal with
    | |- context [match m_currentTable st with _ => _ end] =>
        destruct (m_currentTable st) eqn:?
    | |- context [match m_listStack st with _ => _ end] =>
        destruct (m_listStack st) eqn:?
    | |- context [if ?c then _ else _] =>
        lazymatch c with
        | context [if _ then _ else _] => fail
        | _ => let E := fresh "E" in
               destruct (bool_cases c) as [E|E]; rewrite ?E
        end
    end; cbn -[Z.add Z.sub Z.ltb Z.of_nat length filter]).

Lemma cbEnterBlock_effects :
  forall (sink : DocumentSink) (st : Importer) (b : Block),
    match cbEnterBlock sink b st with
    | Some (_, st') =>
        nestingOf st' =
          nestingStep (m_monoFont st) (m_palette_link st) (EnterBlock b)
            (nestingOf st) /\
        m_monoFont st' = m_monoFont st /\
        m_palette_link st' = m_palette_link st /\
        m_imageSpan st' = m_imageSpan st /\
        m_htmlTagDepth st' = m_htmlTagDepth st /\
        m_htmlAccumulator st' = m_htmlAccumulator st /\
        m_blockType st' = blockType b /\
        m_nonEmptyTableCells st' =
          match b with
          | BlockTR => []
          | _ => m_nonEmptyTableCells st
          end
    | None => True
    end.
Proof.
  intros sink st b.
  destruct b;
    cbv [cbEnterBlock insertList insertTable currentTable listStack_top
         bind gets modify emit ret when undefined qWarning
         nestingOf nestingStep];
    cbn [m_currentTable m_listStack set_m_blockType set_m_needsInsertBlock
         set_m_tableCol set_m_tableColumnCount set_m_tableRowCount
         set_m_nonEmptyTableCells doc];
    block_cases st;
    cbn -[Z.add Z.sub Z.ltb Z.of_nat filter];
    try exact I; repeat split; try reflexivity;
    match goal with
    | H : m_listStack st = _ |- _ => rewrite H; reflexivity
    end.
Qed.

Lemma cbLeaveBlock_effects :
  forall (sink : DocumentSink) (st : Importer) (t : MD_BLOCKTYPE),
    match cbLeaveBlock sink t st with
    | Some (status, st') =>
        status = 0 /\
        nestingOf st' =
          nestingStep (m_monoFont st) (m_palette_link st) (LeaveBlock t)
            (nestingOf st) /\
        m_monoFont st' = m_monoFont st /\
        m_palette_link st' = m_palette_link st /\
        m_imageSpan st' = m_imageSpan st /\
        m_htmlTagDepth st' = m_htmlTagDepth st /\
        m_htmlAccumulator st' = m_htmlAccumulator st /\
        m_blockType st' = m_blockType st /\
        m_nonEmptyTableCells st' = m_nonEmptyTableCells st /\
        warnings st' = warnings st
    | None => True
    end.
Proof.
  intros sink st t.
  destruct t; try (cbn; repeat split; reflexivity).
  - cbv [cbLeaveBlock listStack_pop bind gets modify ret undefined
         nestingOf nestingStep].
    destruct (m_listStack st); cbn; first [exact I | repeat split; reflexivity].
  - cbv [cbLeaveBlock listStack_pop bind gets modify ret undefined
         nestingOf nestingStep].
    destruct (m_listStack st); cbn; first [exact I | repeat split; reflexivity].
  - unfold cbLeaveBlock, bind at 1, gets at 1, bind at 1.
    rewrite mergeLoop_resolve. unfold ResolverSpec.mergesApplied.
    destruct (isEmpty _); [repeat split; reflexivity|].
    destruct (m_currentTable st); cbn;
      first [exact I | repeat split; reflexivity].
Qed.

(** ** The nesting state follows the events *)

Lemma callback_nesting :
  forall (sink : DocumentSink) (e : Event) (st st' : Importer) (status : Z),
    callback sink e st = Some (status, st') ->
    nestingOf st' =
      nestingStep (m_monoFont st) (m_palette_link st) e (nestingOf st) /\
    m_monoFont st' = m_monoFont st /\
    m_palette_link st' = m_palette_link st.
Proof.
  intros sink e st st' status Hrun.
  destruct e as [b | t | sp | t | t s]; cbn [callback] in Hrun.
  - pose proof (cbEnterBlock_effects sink st b) as H.
    rewrite Hrun in H. destruct H as (Hn & Hm & Hl & _).
    repeat split; assumption.
  - pose proof (cbLeaveBlock_effects sink st t) as H.
    rewrite Hrun in H. destruct H as (_ & Hn & Hm & Hl & _).
    repeat split; assumption.
  - destruct (cbEnterSpan_any st sp) as (st1 & ops & Hrun1 & Hstack & _).
    destruct (cbEnterSpan_frame st sp)
      as (st2 & Hrun2 & _ & _ & Hq & Hls & Hm & Hl & _).
    rewrite Hrun in Hrun1, Hrun2.
    injection Hrun1 as _ <-. injection Hrun2 as _ <-.
    unfold nestingOf. cbn [nestingStep quoteDepth listDepth spans].
    rewrite Hq, Hls, Hstack. repeat split; assumption.
  - destruct (cbLeaveSpan_frame st t)
      as (st1 & Hrun1 & _ & _ & Hq & Hls & Hm & Hl & _ & _ & _ & Hstack & _).
    rewrite Hrun in Hrun1. injection Hrun1 as _ <-.
    unfold nestingOf. cbn [nestingStep quoteDepth listDepth spans].
    rewrite Hq, Hls, Hstack. repeat split; assumption.
  - destruct (bool_cases (m_imageSpan st)) as [Himg | Himg].
    + rewrite cbText_inside_image in Hrun by exact Himg.
      injection Hrun as _ <-. repeat split; reflexivity.
    + destruct (cbText_outside_image sink st t s Himg)
        as (st1 & Hrun1 & _ & _ & _ & _ & _ & _ & Hstack & _).
      destruct (cbText_frame sink st t s Himg)
        as (st2 & Hrun2 & _ & Hq & Hls & Hm & Hl & _).
      rewrite Hrun in Hrun1, Hrun2.
      injection Hrun1 as _ <-. injection Hrun2 as _ <-.
      unfold nestingOf. cbn [nestingStep].
      rewrite Hq, Hls, Hstack. repeat split; assumption.
Qed.

Lemma md_parse_nesting :
  forall (sink : DocumentSink) (events : list Event) (st st' : Importer),
    md_parse sink events st = Some (0, st') ->
    nestingOf st' =
      nestingAfter (m_monoFont st) (m_palette_link st) events (nestingOf st).
Proof.
  intros sink events.
  induction events as [|e events IH]; intros st st' Hrun.
  - injection Hrun as <-. reflexivity.
  - cbn [md_parse] in Hrun. unfold bind in Hrun.
    destruct (callback sink e st) as [[z st1]|] eqn:Hstep; [|discriminate].
    destruct (callback_nesting sink e st st1 z Hstep) as (Hn & Hm & Hl).
    destruct (Z.eqb_spec z 0) as [Hz | Hz].
    + unfold nestingAfter. cbn [fold_left].
      rewrite <- Hn, <- Hm, <- Hl. apply IH. exact Hrun.
    + injection Hrun as Hz' _. congruence.
Qed.

Lemma nestingStep_other :
  forall (mono : QFont) (link : QBrush) (e : Event) (n : Nesting),
    isNestingEvent e = false -> nestingStep mono link e n = n.
Proof.
  intros mono link e n He.
  destruct e as [b | t | sp | t | t s];
    try destruct b; try destruct t; try discriminate He; reflexivity.
Qed.

Lemma nestingAfter_app :
  forall (mono : QFont) (link : QBrush) (a b : list Event) (n : Nesting),
    nestingAfter mono link (a ++ b) n =
    nestingAfter mono link b (nestingAfter mono link a n).
Proof. intros. unfold nestingAfter. apply fold_left_app. Qed.

Lemma nestingAfter_wellNested :
  forall (mono : QFont) (link : QBrush) (events : list Event),
    wellNested events ->
    forall n : Nesting, nestingAfter mono link events n = n.
Proof.
  intros mono link events Hwn.
  induction Hwn as [| e rest He _ IHrest
                    | inner rest _ IHinner _ IHrest
                    | b t inner rest Hb Ht _ IHinner _ IHrest
                    | sp t inner rest _ IHinner _ IHrest]; intro n.
  - reflexivity.
  - change (nestingAfter mono link (e :: rest) n)
      with (nestingAfter mono link rest (nestingStep mono link e n)).
    rewrite nestingStep_other by exact He. apply IHrest.
  - change (nestingAfter mono link
              (EnterBlock BlockQuote :: inner
               ++ LeaveBlock MD_BLOCK_QUOTE :: rest) n)
      with (nestingAfter mono link
              (inner ++ LeaveBlock MD_BLOCK_QUOTE :: rest)
              (nestingStep mono link (EnterBlock BlockQuote) n)).
    rewrite nestingAfter_app, IHinner.
    change (nestingAfter mono link (LeaveBlock MD_BLOCK_QUOTE :: rest) ?x)
      with (nestingAfter mono link rest
              (nestingStep mono link (LeaveBlock MD_BLOCK_QUOTE) x)).
    rewrite IHrest. destruct n as [q l sps].
    cbn [nestingStep quoteDepth listDepth spans]. f_equal. lia.
  - change (nestingAfter mono link
              (EnterBlock b :: inner ++ LeaveBlock t :: rest) n)
      with (nestingAfter mono link (inner ++ LeaveBlock t :: rest)
              (nestingStep mono link (EnterBlock b) n)).
    rewrite nestingAfter_app, IHinner.
    change (nestingAfter mono link (LeaveBlock t :: rest) ?x)
      with (nestingAfter mono link rest
              (nestingStep mono link (LeaveBlock t) x)).
    rewrite IHrest. destruct n as [q l sps].
    destruct b; try discriminate Hb; destruct t; try discriminate Ht;
      reflexivity.
  - change (nestingAfter mono link
              (EnterSpan sp :: inner ++ LeaveSpan t :: rest) n)
      with (nestingAfter mono link (inner ++ LeaveSpan t :: rest)
              (nestingStep mono link (EnterSpan sp) n)).
    rewrite nestingAfter_app, IHinner.
    change (nestingAfter mono link (LeaveSpan t :: rest) ?x)
      with (nestingAfter mono link rest
              (nestingStep mono link (LeaveSpan t) x)).
    rewrite IHrest. destruct n as [q l sps]. reflexivity.
Qed.

(** X2: over any event stream that the importer takes to its end, the
    block-quote depth, the depth of the list stack and the span-format
    stack are exactly what the events dictate: quote enter and leave move
    the depth by one, list enter and leave push and pop, span enter pushes
    the span's own snapshot and span leave pops, and no other event touches
    any of them. *)
Theorem nesting_follows_events :
  forall (sink : DocumentSink) (events : list Event) (st st' : Importer),
    md_parse sink events st = Some (0, st') ->
    nestingOf st' =
      nestingAfter (m_monoFont st) (m_palette_link st) events (nestingOf st).
Proof.
  intros sink events.
  induction events as [|e events IH]; intros st st' Hrun.
  - injection Hrun as <-. reflexivity.
  - cbn [md_parse] in Hrun. unfold bind in Hrun.
    destruct (callback sink e st) as [[z st1]|] eqn:Hstep; [|discriminate].
    destruct (callback_nesting sink e st st1 z Hstep) as (Hn & Hm & Hl).
    destruct (Z.eqb_spec z 0) as [Hz | Hz].
    + unfold nestingAfter. cbn [fold_left].
      rewrite <- Hn, <- Hm, <- Hl. apply IH. exact Hrun.
    + injection Hrun as Hz' _. congruence.
Qed.

Lemma nesting_follows_events_witness :
  exists st' : Importer,
    md_parse gridSink quotedEmphasis anImporter = Some (0, st') /\
    nestingOf st' =
      nestingAfter (m_monoFont anImporter) (m_palette_link anImporter)
        quotedEmphasis (nestingOf anImporter).
Proof.
  eexists. split; [vm_compute; reflexivity|].
  apply (nesting_follows_events gridSink quotedEmphasis anImporter).
  vm_compute; reflexivity.
Defined.

(** X3: a well-nested event stream that the importer takes to its end
    leaves the block-quote depth, the depth of the list stack and the whole
    span-format stack as it found them. *)
Theorem well_nested_stream_restores_nesting :
  forall (sink : DocumentSink) (events : list Event) (st st' : Importer),
    wellNested events ->
    md_parse sink events st = Some (0, st') ->
    m_blockQuoteDepth st' = m_blockQuoteDepth st /\
    length (m_listStack st') = length (m_listStack st) /\
    m_spanFormatStack st' = m_spanFormatStack st.
Proof.
  intros sink events st st' Hwn Hrun.
  pose proof (md_parse_nesting sink events st st' Hrun) as H.
  rewrite nestingAfter_wellNested in H by exact Hwn.
  unfold nestingOf in H. injection H as Hq Hl Hs.
  repeat split; assumption.
Qed.

Lemma quotedEmphasis_wellNested : wellNested quotedEmphasis.
Proof.
  apply (wn_quote
           [EnterBlock BlockP; EnterSpan SpanEm;
            Text MD_TEXT_NORMAL (qstr "x"); LeaveSpan MD_SPAN_EM;
            LeaveBlock MD_BLOCK_P] []); [|constructor].
  apply wn_other; [reflexivity|].
  apply (wn_span SpanEm MD_SPAN_EM [Text MD_TEXT_NORMAL (qstr "x")]
           [LeaveBlock MD_BLOCK_P]).
  - apply wn_other; [reflexivity | constructor].
  - apply wn_other; [reflexivity | constructor].
Defined.

Lemma well_nested_stream_restores_nesting_witness :
  wellNested quotedEmphasis /\
  exists st' : Importer,
    md_parse gridSink quotedEmphasis anImporter = Some (0, st') /\
    m_blockQuoteDepth st' = m_blockQuoteDepth anImporter /\
    length (m_listStack st') = length (m_listStack anImporter) /\
    m_spanFormatStack st' = m_spanFormatStack anImporter.
Proof.
  split; [exact quotedEmphasis_wellNested|].
  eexists. split; [vm_compute; reflexivity|].
  apply (well_nested_stream_restores_nesting gridSink quotedEmphasis
           anImporter).
  - exact quotedEmphasis_wellNested.
  - vm_compute; reflexivity.
Defined.

(** ** Event streams in pieces *)

Lemma md_parse_app :
  forall (sink : DocumentSink) (a b : list Event) (st st1 : Importer),
    md_parse sink a st = Some (0, st1) ->
    md_parse sink (a ++ b) st = md_parse sink b st1.
Proof.
  intros sink a b. induction a as [|e a IH]; intros st st1 Hrun.
  - injection Hrun as <-. reflexivity.
  - cbn [app md_parse] in *. unfold bind in *.
    destruct (callback sink e st) as [[z st2]|]; [|discriminate].
    destruct (Z.eqb_spec z 0) as [Hz | Hz].
    + apply IH. exact Hrun.
    + injection Hrun as Hz' _. congruence.
Qed.

Lemma md_parse_one :
  forall (sink : DocumentSink) (e : Event) (st st1 : Importer),
    callback sink e st = Some (0, st1) ->
    md_parse sink [e] st = Some (0, st1).
Proof.
  intros sink e st st1 Hrun. cbn [md_parse]. unfold bind.
  rewrite Hrun. reflexivity.
Qed.

Lemma md_parse_cons :
  forall (sink : DocumentSink) (e : Event) (rest : list Event)
         (st st1 : Importer),
    callback sink e st = Some (0, st1) ->
    md_parse sink (e :: rest) st = md_parse sink rest st1.
Proof.
  intros sink e rest st st1 Hrun. cbn [md_parse]. unfold bind.
  rewrite Hrun. reflexivity.
Qed.

(** ** Header rows *)

Lemma resolve_nothing_populated :
  forall (cols : list Z) (m : ResolverSpec.Markers),
    ResolverSpec.resolve [] cols m = [].
Proof.
  induction cols as [|c cols IH]; intros [runEnd runStart]; [reflexivity|].
  cbn [ResolverSpec.resolve ResolverSpec.visit contains existsb].
  destruct runEnd; cbn [app]; apply IH.
Qed.

Lemma leave_row_nothing_recorded :
  forall (sink : DocumentSink) (st : Importer),
    m_nonEmptyTableCells st = [] ->
    cbLeaveBlock sink MD_BLOCK_TR st = Some (0, st).
Proof.
  intros sink st Hne.
  unfold cbLeaveBlock, bind at 1, gets at 1, bind at 1.
  rewrite mergeLoop_resolve, Hne, resolve_nothing_populated.
  reflexivity.
Qed.

Lemma headerCellEvent_records_nothing :
  forall (sink : DocumentSink) (e : Event) (st st' : Importer) (status : Z),
    isHeaderCellEvent e = true ->
    callback sink e st = Some (status, st') ->
    m_nonEmptyTableCells st = [] /\ m_blockType st <> MD_BLOCK_TD ->
    m_nonEmptyTableCells st' = [] /\ m_blockType st' <> MD_BLOCK_TD.
Proof.
  intros sink e st st' status He Hrun [Hne Hbt].
  destruct e as [b | t | sp | t | t s]; cbn [callback] in Hrun.
  - destruct b; try discriminate He.
    pose proof (cbEnterBlock_effects sink st (BlockTH align)) as H.
    rewrite Hrun in H.
    destruct H as (_ & _ & _ & _ & _ & _ & Hbt' & Hne').
    rewrite Hbt', Hne'. split; [exact Hne | discriminate].
  - pose proof (cbLeaveBlock_effects sink st t) as H.
    rewrite Hrun in H.
    destruct H as (_ & _ & _ & _ & _ & _ & _ & Hbt' & Hne' & _).
    rewrite Hbt', Hne'. split; assumption.
  - destruct (cbEnterSpan_frame st sp) as (st1 & Hrun1 & Hbt' & Hne' & _).
    rewrite Hrun in Hrun1. injection Hrun1 as _ <-.
    rewrite Hbt', Hne'. split; assumption.
  - destruct (cbLeaveSpan_frame st t) as (st1 & Hrun1 & Hbt' & Hne' & _).
    rewrite Hrun in Hrun1. injection Hrun1 as _ <-.
    rewrite Hbt', Hne'. split; assumption.
  - destruct (bool_cases (m_imageSpan st)) as [Himg | Himg].
    + rewrite cbText_inside_image in Hrun by exact Himg.
      injection Hrun as _ <-. split; assumption.
    + destruct (cbText_outside_image sink st t s Himg)
        as (st1 & Hrun1 & _ & _ & _ & Hne' & _).
      destruct (cbText_frame sink st t s Himg) as (st2 & Hrun2 & Hbt' & _).
      rewrite Hrun in Hrun1, Hrun2.
      injection Hrun1 as _ <-. injection Hrun2 as _ <-.
      rewrite Hbt', Hne'. split; [|exact Hbt].
      destruct (m_blockType st); try exact Hne. now elim Hbt.
Qed.

Lemma headerCells_record_nothing :
  forall (sink : DocumentSink) (cells : list Event) (st st' : Importer),
    forallb isHeaderCellEvent cells = true ->
    md_parse sink cells st = Some (0, st') ->
    m_nonEmptyTableCells st = [] /\ m_blockType st <> MD_BLOCK_TD ->
    m_nonEmptyTableCells st' = [] /\ m_blockType st' <> MD_BLOCK_TD.
Proof.
  intros sink cells.
  induction cells as [|e cells IH]; intros st st' Hcells Hrun Hinv.
  - injection Hrun as <-. exact Hinv.
  - cbn [forallb] in Hcells. apply andb_prop in Hcells.
    destruct Hcells as [He Hcells].
    cbn [md_parse] in Hrun. unfold bind in Hrun.
    destruct (callback sink e st) as [[z st1]|] eqn:Hstep; [|discriminate].
    destruct (Z.eqb_spec z 0) as [Hz | Hz].
    + apply (IH st1 st' Hcells Hrun).
      exact (headerCellEvent_records_nothing sink e st st1 z He Hstep Hinv).
    + injection Hrun as Hz' _. congruence.
Qed.

(** X4: a header row is never merged.  Whatever text and spans its header
    cells hold, none of it is recorded as cell content, and leaving the row
    makes no call and changes nothing, even when header cells are empty. *)
Theorem header_row_is_never_merged :
  forall (sink : DocumentSink) (cells : list Event) (st st1 : Importer),
    forallb isHeaderCellEvent cells = true ->
    md_parse sink (EnterBlock BlockTR :: cells) st = Some (0, st1) ->
    m_nonEmptyTableCells st1 = [] /\
    cbLeaveBlock sink MD_BLOCK_TR st1 = Some (0, st1).
Proof.
  intros sink cells st st1 Hcells Hrun.
  cbn [md_parse] in Hrun. unfold bind in Hrun.
  cbn [callback] in Hrun.
  pose proof (cbEnterBlock_effects sink st BlockTR) as H.
  destruct (cbEnterBlock sink BlockTR st) as [[z st0]|]; [|discriminate].
  destruct H as (_ & _ & _ & _ & _ & _ & Hbt & Hne).
  destruct (Z.eqb_spec z 0) as [Hz | Hz].
  - assert (Hinv : m_nonEmptyTableCells st0 = []
                   /\ m_blockType st0 <> MD_BLOCK_TD).
    { split; [exact Hne | rewrite Hbt; discriminate]. }
    destruct (headerCells_record_nothing sink cells st0 st1 Hcells Hrun Hinv)
      as [Hne1 _].
    split; [exact Hne1 | apply leave_row_nothing_recorded; exact Hne1].
  - injection Hrun as Hz' _. congruence.
Qed.

Lemma header_row_is_never_merged_witness :
  forallb isHeaderCellEvent (headerCell "a" ++ headerCell "") = true /\
  exists st1 : Importer,
    md_parse gridSink
      (EnterBlock BlockTR :: headerCell "a" ++ headerCell "") insideTable
    = Some (0, st1) /\
    m_nonEmptyTableCells st1 = [] /\
    cbLeaveBlock gridSink MD_BLOCK_TR st1 = Some (0, st1).
Proof.
  split; [reflexivity|].
  eexists. split; [vm_compute; reflexivity|].
  apply (header_row_is_never_merged gridSink
           (headerCell "a" ++ headerCell "") insideTable).
  - reflexivity.
  - vm_compute; reflexivity.
Defined.

(** ** Images *)

Lemma cbEnterSpan_img :
  forall (st : Importer) (src title : QString),
    exists st1 : Importer,
      cbEnterSpan (SpanImg src title) st = Some (0, st1) /\
      doc st1 =
        doc st ++ deferredBlock st
        ++ [InsertImage {| img_name := Some src |};
            SetCharFormat emptyCharFormat] /\
      m_imageSpan st1 = true /\
      m_spanFormatStack st1 = emptyCharFormat :: m_spanFormatStack st /\
      m_nonEmptyTableCells st1 = m_nonEmptyTableCells st /\
      m_htmlAccumulator st1 = m_htmlAccumulator st.
Proof.
  intros st src title.
  unfold deferredBlock.
  cbv [cbEnterSpan insertBlock bind gets modify emit ret when].
  cbn [m_needsInsertBlock set_m_imageSpan].
  destruct (bool_cases (m_needsInsertBlock st)) as [E|E]; rewrite E.
  - change (insertBlock_formats (set_m_imageSpan true st))
      with (insertBlock_formats st).
    destruct (insertBlock_formats st) as [bf cf].
    eexists. split; [reflexivity|]. cbn. assoc. repeat split; reflexivity.
  - eexists. split; [reflexivity|]. cbn. assoc. repeat split; reflexivity.
Qed.

Lemma texts_inside_image :
  forall (sink : DocumentSink) (texts : list (MD_TEXTTYPE * QString))
         (st : Importer),
    m_imageSpan st = true ->
    md_parse sink (map (fun p => Text (fst p) (snd p)) texts) st
    = Some (0, st).
Proof.
  intros sink texts st Himg. induction texts as [|[t s] texts IH].
  - reflexivity.
  - cbn [map fst snd].
    rewrite (md_parse_cons sink (Text t s) _ st st); [exact IH|].
    cbn [callback]. apply cbText_inside_image. exact Himg.
Qed.

(** X5: an image span puts its image into the document, after a pending
    deferred block, and nothing else: however many text events of whatever
    subkind arrive inside it, none is inserted, none reaches the raw HTML
    accumulator and none marks the table cell as non-empty; the title is
    not used.  After the span the format stack is what it was and the
    active format is its top. *)
Theorem image_span_discards_its_text :
  forall (sink : DocumentSink) (st : Importer) (src title : QString)
         (texts : list (MD_TEXTTYPE * QString)),
    exists st' : Importer,
      md_parse sink
        (EnterSpan (SpanImg src title)
         :: map (fun p => Text (fst p) (snd p)) texts
         ++ [LeaveSpan MD_SPAN_IMG]) st = Some (0, st') /\
      doc st' =
        doc st ++ deferredBlock st
        ++ [InsertImage {| img_name := Some src |};
            SetCharFormat emptyCharFormat;
            SetCharFormat (spanFormatTop (m_spanFormatStack st))] /\
      m_spanFormatStack st' = m_spanFormatStack st /\
      m_imageSpan st' = false /\
      m_nonEmptyTableCells st' = m_nonEmptyTableCells st /\
      m_htmlAccumulator st' = m_htmlAccumulator st.
Proof.
  intros sink st src title texts.
  destruct (cbEnterSpan_img st src title)
    as (st1 & Hrun1 & Hdoc1 & Himg1 & Hstack1 & Hne1 & Hacc1).
  destruct (cbLeaveSpan_any st1 MD_SPAN_IMG) as (st2 & Hrun2 & Hstack2 & Hdoc2).
  destruct (cbLeaveSpan_frame st1 MD_SPAN_IMG)
    as (st3 & Hrun3 & _ & Hne3 & _ & _ & _ & _ & _ & Hacc3 & _ & _ & Himg3).
  rewrite Hrun2 in Hrun3. injection Hrun3 as <-.
  exists st2. split.
  - rewrite (md_parse_cons sink _ _ st st1) by exact Hrun1.
    rewrite (md_parse_app sink _ _ st1 st1)
      by (apply texts_inside_image; exact Himg1).
    apply md_parse_one. exact Hrun2.
  - rewrite Hstack1 in Hstack2. cbn [tl] in Hstack2.
    rewrite Hdoc2, Hdoc1, Hstack2, Hne3, Hne1, Hacc3, Hacc1.
    rewrite <- !app_assoc. cbn [app]. repeat split; try reflexivity.
    exact Himg3.
Qed.

(** ** A raw HTML element over several fragments *)

Lemma normal_fragments_buffered :
  forall (sink : DocumentSink) (frags : list QString) (st : Importer),
    m_imageSpan st = false ->
    m_htmlTagDepth st <> 0 ->
    exists (st' : Importer) (ops : list SinkOp),
      md_parse sink (map (Text MD_TEXT_NORMAL) frags) st = Some (0, st') /\
      doc st' = doc st ++ ops /\
      forallb isBlockCall ops = true /\
      m_htmlAccumulator st' = m_htmlAccumulator st ++ concat frags /\
      m_htmlTagDepth st' = m_htmlTagDepth st /\
      m_imageSpan st' = false /\
      m_spanFormatStack st' = m_spanFormatStack st.
Proof.
  intros sink frags.
  induction frags as [|s frags IH]; intros st Himg Hdepth.
  - exists st, []. cbn. rewrite !app_nil_r. repeat split; try reflexivity.
    exact Himg.
  - destruct (cbText_outside_image sink st MD_TEXT_NORMAL s Himg)
      as (st1 & Hrun1 & Hdoc1 & Hacc1 & Hdepth1 & _ & _ & Himg1 & Hstack1 & _).
    cbn [insertedContent accumulatorAfter] in Hdoc1, Hacc1.
    rewrite (eqb_zero_false _ Hdepth) in Hdoc1, Hacc1.
    assert (Hdepth1' : m_htmlTagDepth st1 <> 0) by (rewrite Hdepth1; exact Hdepth).
    destruct (IH st1 Himg1 Hdepth1')
      as (st' & ops & Hrun & Hdoc & Hops & Hacc & Hd & Hi & Hs).
    exists st'. eexists.
    split.
    { cbn [map]. rewrite (md_parse_cons sink _ _ st st1) by exact Hrun1.
      exact Hrun. }
    split.
    { rewrite Hdoc, Hdoc1, app_nil_r, <- !app_assoc. reflexivity. }
    split.
    { rewrite !forallb_app, deferredBlock_blockCalls,
        listIndentReset_blockCalls, Hops. reflexivity. }
    rewrite Hacc, Hacc1, Hd, Hdepth1, Hs, Hstack1.
    cbn [concat]. rewrite <- app_assoc.
    repeat split; try reflexivity. exact Hi.
Qed.

Lemma filter_blockCalls_content :
  forall ops : list SinkOp,
    forallb isBlockCall ops = true -> filter isContentCall ops = [].
Proof.
  induction ops as [|o ops IH]; intro Hall; [reflexivity|].
  cbn [forallb] in Hall. apply andb_prop in Hall. destruct Hall as [Ho Hall].
  destruct o; try discriminate Ho; cbn; apply IH; exact Hall.
Qed.

(** X6: a raw HTML element that is opened in one fragment and closed in a
    later one, with ordinary text fragments in between, goes into the
    document once and whole.  While the tag depth is away from zero nothing
    but block calls are made; when the closing fragment brings the depth to
    zero, the one content call is insertHtml of everything accumulated, in
    order, and the accumulator is empty again. *)
Theorem raw_html_element_inserted_once :
  forall (sink : DocumentSink) (st : Importer) (opening closing : QString)
         (frags : list QString),
    m_imageSpan st = false ->
    depthAfter st opening <> 0 ->
    depthAfter st opening + countMatches openingBracket closing
    - countMatches closingBracket closing = 0 ->
    exists (st' : Importer) (ops : list SinkOp),
      md_parse sink
        (Text MD_TEXT_HTML opening
         :: map (Text MD_TEXT_NORMAL) frags ++ [Text MD_TEXT_HTML closing]) st
      = Some (0, st') /\
      doc st' = doc st ++ ops /\
      filter isContentCall ops =
        [InsertHtml (m_htmlAccumulator st ++ opening ++ concat frags
                     ++ closing)] /\
      activeCharFormat (doc st') = spanFormatTop (m_spanFormatStack st) /\
      m_htmlAccumulator st' = [] /\
      m_htmlTagDepth st' = 0.
Proof.
  intros sink st opening closing frags Himg Hopen Hclose.
  destruct (cbText_outside_image sink st MD_TEXT_HTML opening Himg)
    as (st1 & Hrun1 & Hdoc1 & Hacc1 & Hdepth1 & _ & _ & Himg1 & Hstack1 & _).
  cbn [insertedContent accumulatorAfter] in Hdoc1, Hacc1.
  rewrite (eqb_zero_false _ Hopen) in Hdoc1, Hacc1.
  assert (Hd1 : m_htmlTagDepth st1 <> 0) by (rewrite Hdepth1; exact Hopen).
  destruct (normal_fragments_buffered sink frags st1 Himg1 Hd1)
    as (st2 & ops2 & Hrun2 & Hdoc2 & Hops2 & Hacc2 & Hdepth2 & Himg2 & Hstack2).
  destruct (cbText_outside_image sink st2 MD_TEXT_HTML closing Himg2)
    as (st3 & Hrun3 & Hdoc3 & Hacc3 & Hdepth3 & _ & _ & _ & Hstack3 & _).
  assert (Hzero : depthAfter st2 closing = 0).
  { unfold depthAfter in *. rewrite Hdepth2, Hdepth1. exact Hclose. }
  cbn [insertedContent accumulatorAfter] in Hdoc3, Hacc3.
  rewrite (eqb_zero_true _ Hzero) in Hdoc3, Hacc3.
  exists st3. eexists.
  split.
  { rewrite (md_parse_cons sink _ _ st st1) by exact Hrun1.
    rewrite (md_parse_app sink _ _ st1 st2) by exact Hrun2.
    apply md_parse_one. exact Hrun3. }
  split.
  { rewrite Hdoc3, Hdoc2, Hdoc1, app_nil_r, <- !app_assoc. reflexivity. }
  split.
  { rewrite !filter_app.
    rewrite (filter_blockCalls_content _ (deferredBlock_blockCalls st)).
    rewrite (filter_blockCalls_content _ (listIndentReset_blockCalls _ _)).
    rewrite (filter_blockCalls_content _ Hops2).
    rewrite (filter_blockCalls_content _ (deferredBlock_blockCalls st2)).
    rewrite (filter_blockCalls_content _ (listIndentReset_blockCalls _ _)).
    cbn [app filter isContentCall].
    rewrite Hacc2, Hacc1, <- !app_assoc. reflexivity. }
  split.
  { rewrite Hdoc3. unfold activeCharFormat.
    rewrite charFormatAfter_app, charFormatAfter_listIndentReset.
    rewrite !charFormatAfter_app. cbn [charFormatAfter].
    rewrite Hstack2, Hstack1. reflexivity. }
  split; [exact Hacc3 | rewrite Hdepth3; exact Hzero].
Qed.

Lemma raw_html_element_inserted_once_witness :
  m_imageSpan anImporter = false /\
  depthAfter anImporter (qstr "<div>") <> 0 /\
  depthAfter anImporter (qstr "<div>")
  + countMatches openingBracket (qstr "</div>")
  - countMatches closingBracket (qstr "</div>") = 0 /\
  exists (st' : Importer) (ops : list SinkOp),
    md_parse gridSink
      (Text MD_TEXT_HTML (qstr "<div>")
       :: map (Text MD_TEXT_NORMAL) [qstr "a"; qstr "b"]
       ++ [Text MD_TEXT_HTML (qstr "</div>")]) anImporter
    = Some (0, st') /\
    doc st' = doc anImporter ++ ops /\
    filter isContentCall ops =
      [InsertHtml (m_htmlAccumulator anImporter ++ qstr "<div>"
                   ++ concat [qstr "a"; qstr "b"] ++ qstr "</div>")] /\
    activeCharFormat (doc st') =
      spanFormatTop (m_spanFormatStack anImporter) /\
    m_htmlAccumulator st' = [] /\
    m_htmlTagDepth st' = 0.
Proof.
  split; [reflexivity|].
  split; [vm_compute; discriminate|].
  split; [reflexivity|].
  apply (raw_html_element_inserted_once gridSink anImporter (qstr "<div>")
           (qstr "</div>") [qstr "a"; qstr "b"]).
  - reflexivity.
  - vm_compute; discriminate.
  - reflexivity.
Defined.

(** ** Lists *)

Lemma enter_list_run :
  forall (sink : DocumentSink) (st : Importer) (b : Block),
    isListType (blockType b) = true ->
    exists (st' : Importer) (fmt : QTextListFormat),
      cbEnterBlock sink b st = Some (0, st') /\
      doc st' = doc st ++ [InsertList fmt] /\
      m_listStack st' =
        length (filter isInsertList (doc st)) :: m_listStack st /\
      m_emptyList st' = true /\
      lf_indent fmt = Some (Z.of_nat (length (m_listStack st)) + 1).
Proof.
  intros sink st b Hb.
  destruct b; try discriminate Hb;
    cbv [cbEnterBlock insertList bind gets modify emit ret];
    cbn [m_listStack set_m_blockType doc];
    (do 2 eexists; split; [reflexivity|]);
    cbn -[Z.add Z.of_nat filter length]; repeat split; reflexivity.
Qed.

Lemma enter_item_run :
  forall (sink : DocumentSink) (st : Importer) (task : bool) (mark : ascii)
         (l : ListHandle) (rest : list ListHandle),
    m_listStack st = l :: rest ->
    exists st' : Importer,
      cbEnterBlock sink (BlockLI task mark) st = Some (0, st') /\
      doc st' =
        doc st
        ++ (if m_emptyList st then []
            else [InsertBlock
                    (setMarker (taskMarker task mark)
                       (lastItemBlockFormat sink (doc st) l))
                    emptyCharFormat;
                  ListAdd l])
        ++ [SetBlockFormat
              (setMarker (taskMarker task mark)
                 (lastItemBlockFormat sink (doc st) l))] /\
      m_listStack st' = m_listStack st /\
      m_emptyList st' = false /\
      m_emptyListItem st' = true /\
      m_needsInsertBlock st' = false.
Proof.
  intros sink st task mark l rest Hl.
  unfold taskMarker.
  cbv [cbEnterBlock listStack_top bind gets modify emit ret when undefined].
  cbn -[Z.add Z.sub Z.ltb Z.of_nat length filter].
  rewrite Hl.
  cbn -[Z.add Z.sub Z.ltb Z.of_nat length filter].
  destruct (bool_cases (m_emptyList st)) as [E|E]; rewrite !E;
    cbn -[Z.add Z.sub Z.ltb Z.of_nat length filter];
    (eexists; split; [reflexivity|]);
    cbn -[Z.add Z.sub Z.ltb Z.of_nat length filter];
    rewrite <- ?app_assoc; rewrite ?Hl; repeat split; reflexivity.
Qed.

Lemma leave_item_run :
  forall (sink : DocumentSink) (st : Importer),
    exists st' : Importer,
      cbLeaveBlock sink MD_BLOCK_LI st = Some (0, st') /\
      doc st' = doc st /\
      m_listStack st' = m_listStack st /\
      m_emptyList st' = m_emptyList st /\
      m_needsInsertBlock st' = m_needsInsertBlock st.
Proof.
  intros sink st. eexists. split; [reflexivity|].
  cbn. repeat split; reflexivity.
Qed.

Lemma enter_paragraph_run :
  forall (sink : DocumentSink) (st : Importer),
    exists st' : Importer,
      cbEnterBlock sink BlockP st = Some (0, st') /\
      doc st' = doc st /\
      m_listStack st' = m_listStack st /\
      m_needsInsertBlock st' =
        (if isEmpty (m_listStack st) then true
         else if m_emptyListItem st then m_needsInsertBlock st else true) /\
      m_emptyListItem st' =
        (if isEmpty (m_listStack st) then m_emptyListItem st else false).
Proof.
  intros sink st.
  cbv [cbEnterBlock bind gets modify ret].
  cbn [m_listStack m_emptyListItem set_m_blockType].
  destruct (bool_cases (isEmpty (m_listStack st))) as [E|E]; rewrite !E;
    [|destruct (bool_cases (m_emptyListItem st)) as [F|F]; rewrite !F];
    (eexists; split; [reflexivity|]); cbn; repeat split;
    first [reflexivity | congruence].
Qed.

(** X7: opening a list creates the list at indent list-depth + 1 and pushes
    it; the first item makes no block of its own (the list's block is
    reused, only its format is set), and every later item inserts a block
    and adds it to the list on top of the stack.  Each item's block format
    carries the marker its task flag asks for. *)
Theorem list_items_share_the_lists_first_block :
  forall (sink : DocumentSink) (st : Importer) (b : Block)
         (task1 task2 : bool) (mark1 mark2 : ascii),
    isListType (blockType b) = true ->
    exists (st' : Importer) (fmt : QTextListFormat)
           (bf1 bf2 : QTextBlockFormat),
      md_parse sink
        [EnterBlock b; EnterBlock (BlockLI task1 mark1);
         LeaveBlock MD_BLOCK_LI; EnterBlock (BlockLI task2 mark2)] st
      = Some (0, st') /\
      doc st' =
        doc st
        ++ [InsertList fmt; SetBlockFormat bf1;
            InsertBlock bf2 emptyCharFormat;
            ListAdd (length (filter isInsertList (doc st)));
            SetBlockFormat bf2] /\
      m_listStack st' =
        length (filter isInsertList (doc st)) :: m_listStack st /\
      lf_indent fmt = Some (Z.of_nat (length (m_listStack st)) + 1) /\
      bf_marker bf1 = Some (taskMarker task1 mark1) /\
      bf_marker bf2 = Some (taskMarker task2 mark2) /\
      m_needsInsertBlock st' = false.
Proof.
  intros sink st b task1 task2 mark1 mark2 Hb.
  destruct (enter_list_run sink st b Hb)
    as (st1 & fmt & Hrun1 & Hdoc1 & Hstack1 & Hempty1 & Hindent).
  destruct (enter_item_run sink st1 task1 mark1 _ _ Hstack1)
    as (st2 & Hrun2 & Hdoc2 & Hstack2 & Hempty2 & _ & _).
  destruct (leave_item_run sink st2)
    as (st3 & Hrun3 & Hdoc3 & Hstack3 & Hempty3 & _).
  assert (Hstack3' : m_listStack st3 =
                     length (filter isInsertList (doc st)) :: m_listStack st)
    by (rewrite Hstack3, Hstack2; exact Hstack1).
  destruct (enter_item_run sink st3 task2 mark2 _ _ Hstack3')
    as (st4 & Hrun4 & Hdoc4 & Hstack4 & _ & _ & Hneeds4).
  rewrite Hempty1 in Hdoc2.
  rewrite Hempty3, Hempty2 in Hdoc4.
  exists st4, fmt. do 2 eexists.
  split.
  { rewrite (md_parse_cons sink _ _ st st1) by exact Hrun1.
    rewrite (md_parse_cons sink _ _ st1 st2) by exact Hrun2.
    rewrite (md_parse_cons sink _ _ st2 st3) by exact Hrun3.
    apply md_parse_one. exact Hrun4. }
  split.
  { rewrite Hdoc4, Hdoc3, Hdoc2, Hdoc1. cbn [app].
    rewrite <- !app_assoc. cbn [app]. reflexivity. }
  split; [rewrite Hstack4; exact Hstack3'|].
  split; [exact Hindent|].
  repeat split; try reflexivity. exact Hneeds4.
Qed.

Lemma list_items_share_the_lists_first_block_witness :
  isListType (blockType (BlockOL ".")) = true /\
  exists (st' : Importer) (fmt : QTextListFormat)
         (bf1 bf2 : QTextBlockFormat),
    md_parse gridSink
      [EnterBlock (BlockOL "."); EnterBlock (BlockLI true " ");
       LeaveBlock MD_BLOCK_LI; EnterBlock (BlockLI true "x")] anImporter
    = Some (0, st') /\
    doc st' =
      doc anImporter
      ++ [InsertList fmt; SetBlockFormat bf1;
          InsertBlock bf2 emptyCharFormat;
          ListAdd (length (filter isInsertList (doc anImporter)));
          SetBlockFormat bf2] /\
    m_listStack st' =
      length (filter isInsertList (doc anImporter))
      :: m_listStack anImporter /\
    lf_indent fmt = Some (Z.of_nat (length (m_listStack anImporter)) + 1) /\
    bf_marker bf1 = Some (taskMarker true " ") /\
    bf_marker bf2 = Some (taskMarker true "x") /\
    m_needsInsertBlock st' = false.
Proof.
  split; [reflexivity|].
  apply (list_items_share_the_lists_first_block gridSink anImporter
           (BlockOL ".") true true " " "x").
  reflexivity.
Defined.

(** *** The flag of an item that awaits its first paragraph *)

Lemma cbText_frame_flags :
  forall (sink : DocumentSink) (st : Importer) (t : MD_TEXTTYPE) (s : QString),
    m_imageSpan st = false ->
    exists st',
      cbText sink t s st = Some (0, st') /\
      m_emptyListItem st' = m_emptyListItem st /\
      m_emptyList st' = m_emptyList st /\
      m_listItem st' = m_listItem st /\
      m_tableRowCount st' = m_tableRowCount st /\
      m_tableColumnCount st' = m_tableColumnCount st.
Proof.
  intros sink st t s Himg.
  cbv [cbText textSwitch insertBlock bind gets modify emit ret when].
  rewrite Himg.
  destruct (insertBlock_formats st) as [bf cf] eqn:Hf.
  destruct (bool_cases (m_needsInsertBlock st)) as [E|E]; rewrite !E;
    destruct t; tidy; rewrite ?Hf; tidy;
    repeat (match goal with
      | |- context [?x =? 0] =>
          let E := fresh "E" in
          destruct (bool_cases (x =? 0)) as [E|E]; rewrite !E
      | |- context [isEmpty (m_spanFormatStack st)] =>
          destruct (m_spanFormatStack st) eqn:?
      | |- context [match m_blockType st with MD_BLOCK_DOC => _ | _ => _ end] =>
          destruct (m_blockType st) eqn:?
      | |- context [isEmpty s] => destruct (isEmpty s)
      | |- context [currentList ?k ?x] =>
          let E := fresh "E" in
          destruct (bool_cases (currentList k x)) as [E|E]; rewrite !E
      end; tidy);
    (eexists; (split; [reflexivity|]));
    tidy; repeat split; first [reflexivity | congruence].
Qed.

Lemma cbEnterBlock_emptyListItem :
  forall (sink : DocumentSink) (st : Importer) (b : Block),
    match cbEnterBlock sink b st with
    | Some (_, st') =>
        m_emptyListItem st' =
          match b with
          | BlockLI _ _ => true
          | BlockP =>
              if isEmpty (m_listStack st) then m_emptyListItem st else false
          | _ => m_emptyListItem st
          end
    | None => True
    end.
Proof.
  intros sink st b.
  destruct b;
    cbv [cbEnterBlock insertList insertTable currentTable listStack_top
         bind gets modify emit ret when undefined qWarning];
    cbn [m_currentTable m_listStack set_m_blockType set_m_needsInsertBlock
         set_m_tableCol set_m_tableColumnCount set_m_tableRowCount
         set_m_nonEmptyTableCells doc];
    block_cases st;
    cbn -[Z.add Z.sub Z.ltb Z.of_nat filter];
    try exact I; try reflexivity;
    match goal with
    | H : m_listStack st = _ |- _ => rewrite H; cbn [isEmpty]
    | H : isEmpty (m_listStack st) = _ |- _ => rewrite ?H
    end; first [reflexivity | congruence].
Qed.

Lemma cbLeaveBlock_emptyListItem :
  forall (sink : DocumentSink) (st : Importer) (t : MD_BLOCKTYPE),
    match cbLeaveBlock sink t st with
    | Some (_, st') => m_emptyListItem st' = m_emptyListItem st
    | None => True
    end.
Proof.
  intros sink st t.
  destruct t; try (cbn; reflexivity).
  - cbv [cbLeaveBlock listStack_pop bind gets modify ret undefined].
    destruct (m_listStack st); cbn; first [reflexivity | exact I].
  - cbv [cbLeaveBlock listStack_pop bind gets modify ret undefined].
    destruct (m_listStack st); cbn; first [reflexivity | exact I].
  - unfold cbLeaveBlock, bind at 1, gets at 1, bind at 1.
    rewrite mergeLoop_resolve. unfold ResolverSpec.mergesApplied.
    destruct (isEmpty _); [reflexivity|].
    destruct (m_currentTable st); cbn; first [reflexivity | exact I].
Qed.

Lemma cbEnterSpan_emptyListItem :
  forall (st : Importer) (sp : Span),
    match cbEnterSpan sp st with
    | Some (_, st') => m_emptyListItem st' = m_emptyListItem st
    | None => True
    end.
Proof.
  intros st sp.
  destruct sp; try (rewrite cbEnterSpan_plain by exact I; reflexivity).
  cbv [cbEnterSpan insertBlock bind gets modify emit ret when].
  cbn [m_needsInsertBlock set_m_imageSpan].
  destruct (bool_cases (m_needsInsertBlock st)) as [E|E]; rewrite E.
  - destruct (insertBlock_formats (set_m_imageSpan true st)). reflexivity.
  - reflexivity.
Qed.

Lemma cbLeaveSpan_emptyListItem :
  forall (st : Importer) (t : MD_SPANTYPE),
    match cbLeaveSpan t st with
    | Some (_, st') => m_emptyListItem st' = m_emptyListItem st
    | None => True
    end.
Proof.
  intros st t.
  cbv [cbLeaveSpan bind gets modify emit ret when].
  destruct (m_spanFormatStack st) as [|f [|g rest]]; destruct t; reflexivity.
Qed.

(** Only the enter of a list item sets the flag. *)
Lemma callback_emptyListItem :
  forall (sink : DocumentSink) (e : Event) (st st' : Importer) (status : Z),
    callback sink e st = Some (status, st') ->
    isItemEnter e = false ->
    m_emptyListItem st = false ->
    m_emptyListItem st' = false.
Proof.
  intros sink e st st' status Hrun He Hflag.
  destruct e as [b | t | sp | t | t s]; cbn [callback] in Hrun.
  - pose proof (cbEnterBlock_emptyListItem sink st b) as H.
    rewrite Hrun in H. rewrite H.
    destruct b; try exact Hflag; try discriminate He.
    destruct (isEmpty (m_listStack st)); [exact Hflag | reflexivity].
  - pose proof (cbLeaveBlock_emptyListItem sink st t) as H.
    rewrite Hrun in H. congruence.
  - pose proof (cbEnterSpan_emptyListItem st sp) as H.
    rewrite Hrun in H. congruence.
  - pose proof (cbLeaveSpan_emptyListItem st t) as H.
    rewrite Hrun in H. congruence.
  - destruct (bool_cases (m_imageSpan st)) as [Himg | Himg].
    + rewrite cbText_inside_image in Hrun by exact Himg.
      injection Hrun as _ <-. exact Hflag.
    + destruct (cbText_frame_flags sink st t s Himg)
        as (st1 & Hrun1 & Hflag1 & _).
      rewrite Hrun1 in Hrun. injection Hrun as _ <-. congruence.
Qed.

Lemma md_parse_emptyListItem :
  forall (sink : DocumentSink) (events : list Event) (st st' : Importer),
    forallb (fun e => negb (isItemEnter e)) events = true ->
    md_parse sink events st = Some (0, st') ->
    m_emptyListItem st = false ->
    m_emptyListItem st' = false.
Proof.
  intros sink events.
  induction events as [|e events IH]; intros st st' Hev Hrun Hflag.
  - injection Hrun as <-. exact Hflag.
  - cbn [forallb] in Hev. apply andb_prop in Hev. destruct Hev as [He Hev].
    apply negb_true_iff in He.
    cbn [md_parse] in Hrun. unfold bind in Hrun.
    destruct (callback sink e st) as [[z st1]|] eqn:Hstep; [|discriminate].
    destruct (Z.eqb_spec z 0) as [Hz | Hz].
    + apply (IH st1 st' Hev Hrun).
      exact (callback_emptyListItem sink e st st1 z Hstep He Hflag).
    + injection Hrun as Hz' _. congruence.
Qed.

(** X8: inside a list item the first paragraph defers no block, so that its
    text goes into the block of the item.  From then on, as long as no
    further list item is entered, whatever events come in between, every
    paragraph entered inside a list defers a block of its own. *)
Theorem first_paragraph_of_item_reuses_its_block :
  forall (sink : DocumentSink) (st : Importer) (task : bool) (mark : ascii)
         (between : list Event) (st1 st2 : Importer),
    md_parse sink [EnterBlock (BlockLI task mark); EnterBlock BlockP] st
    = Some (0, st1) ->
    forallb (fun e => negb (isItemEnter e)) between = true ->
    md_parse sink between st1 = Some (0, st2) ->
    m_listStack st2 <> [] ->
    m_needsInsertBlock st1 = false /\
    deferredBlock st1 = [] /\
    exists st3 : Importer,
      cbEnterBlock sink BlockP st2 = Some (0, st3) /\
      m_needsInsertBlock st3 = true.
Proof.
  intros sink st task mark between st1 st2 Hrun1 Hbetween Hrun2 Hstack2.
  assert (Hfirst : m_needsInsertBlock st1 = false
                   /\ m_emptyListItem st1 = false).
  { pose proof (cbEnterBlock_status sink st (BlockLI task mark)) as Hdef.
    cbn [md_parse] in Hrun1. unfold bind at 1 in Hrun1.
    cbn [callback] in Hrun1.
    destruct (cbEnterBlock sink (BlockLI task mark) st) as [[z sa]|] eqn:Hli;
      [|discriminate Hrun1].
    destruct Hdef as (Hundef & _). cbn [enterUndefined] in Hundef.
    destruct (m_listStack st) as [|l rest] eqn:Hl; [discriminate Hundef|].
    destruct (enter_item_run sink st task mark l rest Hl)
      as (sa' & Hruna & _ & Hstacka & _ & Hitema & Hneedsa).
    rewrite Hli in Hruna. injection Hruna as -> <-.
    cbn [Z.eqb] in Hrun1.
    destruct (enter_paragraph_run sink sa)
      as (sb & Hrunb & _ & _ & Hneedsb & Hitemb).
    unfold bind in Hrun1. rewrite Hrunb in Hrun1.
    cbn [Z.eqb ret] in Hrun1. injection Hrun1 as <-.
    rewrite Hstacka, Hl in Hneedsb, Hitemb. cbn [isEmpty] in Hneedsb, Hitemb.
    rewrite Hitema, Hneedsa in Hneedsb.
    split; assumption. }
  destruct Hfirst as [Hneeds1 Hflag1].
  split; [exact Hneeds1|].
  split; [unfold deferredBlock; now rewrite Hneeds1|].
  pose proof (md_parse_emptyListItem sink between st1 st2 Hbetween Hrun2 Hflag1)
    as Hflag2.
  destruct (enter_paragraph_run sink st2)
    as (st3 & Hrun3 & _ & _ & Hneeds3 & _).
  exists st3. split; [exact Hrun3|].
  rewrite Hneeds3, Hflag2.
  destruct (m_listStack st2); [now elim Hstack2 | reflexivity].
Qed.

Lemma first_paragraph_of_item_reuses_its_block_witness :
  md_parse gridSink itemWithParagraph insideList
  = Some (0, stateAfter gridSink itemWithParagraph insideList) /\
  forallb (fun e => negb (isItemEnter e)) afterFirstParagraph = true /\
  md_parse gridSink afterFirstParagraph
    (stateAfter gridSink itemWithParagraph insideList)
  = Some (0, stateAfter gridSink (itemWithParagraph ++ afterFirstParagraph)
               insideList) /\
  m_listStack (stateAfter gridSink (itemWithParagraph ++ afterFirstParagraph)
                 insideList) <> [] /\
  m_needsInsertBlock (stateAfter gridSink itemWithParagraph insideList)
  = false /\
  deferredBlock (stateAfter gridSink itemWithParagraph insideList) = [] /\
  exists st3 : Importer,
    cbEnterBlock gridSink BlockP
      (stateAfter gridSink (itemWithParagraph ++ afterFirstParagraph)
         insideList) = Some (0, st3) /\
    m_needsInsertBlock st3 = true.
Proof.
  assert (H1 : md_parse gridSink itemWithParagraph insideList
               = Some (0, stateAfter gridSink itemWithParagraph insideList))
    by (vm_compute; reflexivity).
  assert (H2 : md_parse gridSink afterFirstParagraph
                 (stateAfter gridSink itemWithParagraph insideList)
               = Some (0, stateAfter gridSink
                            (itemWithParagraph ++ afterFirstParagraph)
                            insideList))
    by (vm_compute; reflexivity).
  assert (H3 : m_listStack
                 (stateAfter gridSink
                    (itemWithParagraph ++ afterFirstParagraph) insideList)
               <> []) by (intro H; discriminate H).
  split; [exact H1|]. split; [reflexivity|].
  split; [exact H2|]. split; [exact H3|].
  exact (first_paragraph_of_item_reuses_its_block gridSink insideList
           false " " afterFirstParagraph _ _ H1 eq_refl H2 H3).
Defined.

(** The limit of X8: a nested item that has no paragraph of its own sets
    the flag again, and the next paragraph of the outer item then defers no
    block. *)
Example nested_item_without_paragraph :
  exists st' : Importer,
    md_parse gridSink
      (itemWithParagraph ++ afterFirstParagraph
       ++ [EnterBlock (BlockUL "-"); EnterBlock (BlockLI false " ");
           LeaveBlock MD_BLOCK_LI; LeaveBlock MD_BLOCK_UL;
           EnterBlock BlockP]) insideList = Some (0, st') /\
    m_listStack st' <> [] /\
    m_needsInsertBlock st' = false.
Proof.
  eexists. split; [vm_compute; reflexivity|].
  split; [intro H; discriminate H | reflexivity].
Qed.

(** ** Headings, quotes and code blocks around text *)

Lemma leave_block_run :
  forall (sink : DocumentSink) (st : Importer),
    (exists st' : Importer,
       cbLeaveBlock sink MD_BLOCK_H st = Some (0, st') /\
       doc st' = doc st ++ [SetCharFormat emptyCharFormat]) /\
    (exists st' : Importer,
       cbLeaveBlock sink MD_BLOCK_QUOTE st = Some (0, st') /\
       doc st' = doc st /\ m_imageSpan st' = m_imageSpan st /\
       m_needsInsertBlock st' = true /\
       m_blockQuoteDepth st' = m_blockQuoteDepth st - 1) /\
    (exists st' : Importer,
       cbLeaveBlock sink MD_BLOCK_CODE st = Some (0, st') /\
       doc st' = doc st /\ m_imageSpan st' = m_imageSpan st /\
       m_needsInsertBlock st' = true /\
       m_codeBlock st' = false /\
       m_spanFormatStack st' = m_spanFormatStack st).
Proof.
  intros sink st. repeat split;
    (eexists; split; [reflexivity|]); cbn; repeat split; reflexivity.
Qed.

Lemma enter_heading_run :
  forall (sink : DocumentSink) (st : Importer) (level : Z),
    exists st' : Importer,
      cbEnterBlock sink (BlockH level) st = Some (0, st') /\
      doc st' =
        doc st
        ++ [InsertBlock
              (setHeadingLevel (int_of_unsigned level) emptyBlockFormat)
              (setFontWeight QFont_Bold
                 (setFontSizeAdjustment (wrap_int (4 - int_of_unsigned level))
                    emptyCharFormat))] /\
      m_needsInsertBlock st' = false /\
      m_imageSpan st' = m_imageSpan st /\
      m_htmlTagDepth st' = m_htmlTagDepth st.
Proof.
  intros sink st level. eexists.
  unfold cbEnterBlock, bind, modify, emit, ret.
  cbn -[int_of_unsigned wrap_int Z.sub].
  split; [reflexivity|].
  cbn -[int_of_unsigned wrap_int Z.sub]. repeat split; reflexivity.
Qed.

(** X9: the text of a heading of level 1..6 is inserted into the one block
    the heading inserted, whose format carries the heading level, under the
    heading's own character format, bold with size adjustment 4 - level;
    leaving the heading resets the active character format to the empty
    format. *)
Theorem heading_text_is_bold_then_reset :
  forall (sink : DocumentSink) (st : Importer) (level : Z) (s : QString),
    1 <= level <= 6 ->
    m_imageSpan st = false -> m_htmlTagDepth st = 0 -> s <> [] ->
    exists (st' : Importer) (bf : QTextBlockFormat) (ops : list SinkOp),
      md_parse sink
        [EnterBlock (BlockH level); Text MD_TEXT_NORMAL s;
         LeaveBlock MD_BLOCK_H] st = Some (0, st') /\
      doc st' =
        doc st
        ++ InsertBlock bf
             (setFontWeight QFont_Bold
                (setFontSizeAdjustment (4 - level) emptyCharFormat))
           :: ops /\
      bf_headingLevel bf = Some level /\
      textRuns ops
        (setFontWeight QFont_Bold
           (setFontSizeAdjustment (4 - level) emptyCharFormat)) =
        [(s, setFontWeight QFont_Bold
               (setFontSizeAdjustment (4 - level) emptyCharFormat))] /\
      insertedBlocks ops = 0%nat /\
      activeCharFormat (doc st') = emptyCharFormat.
Proof.
  intros sink st level s Hlevel Himg Hdepth Hs.
  assert (Hcast : int_of_unsigned level = level).
  { apply int_of_unsigned_small. unfold INT_MAX. lia. }
  assert (Hadj : wrap_int (4 - level) = 4 - level).
  { apply wrap_int_small. unfold INT_MIN, INT_MAX. lia. }
  destruct (enter_heading_run sink st level)
    as (st1 & Hrun1 & Hdoc1 & Hneeds1 & Himg1 & Hdepth1).
  rewrite Hcast, Hadj in Hdoc1.
  rewrite Himg in Himg1. rewrite Hdepth in Hdepth1.
  destruct (cbText_outside_image sink st1 MD_TEXT_NORMAL s Himg1)
    as (st2 & Hrun2 & Hdoc2 & _).
  cbn [insertedContent] in Hdoc2. unfold deferredBlock, textCall in Hdoc2.
  rewrite Hneeds1, Hdepth1, (isEmpty_false _ s Hs) in Hdoc2.
  cbn [Z.eqb app] in Hdoc2.
  destruct (proj1 (leave_block_run sink st2)) as (st3 & Hrun3 & Hdoc3).
  exists st3. do 2 eexists.
  split.
  { rewrite (md_parse_cons sink _ _ st st1) by exact Hrun1.
    rewrite (md_parse_cons sink _ _ st1 st2) by exact Hrun2.
    apply md_parse_one. exact Hrun3. }
  split.
  { rewrite Hdoc3, Hdoc2, Hdoc1, <- !app_assoc. reflexivity. }
  split; [reflexivity|].
  split.
  { cbn [app textRuns]. rewrite textRuns_app, textRuns_listIndentReset.
    reflexivity. }
  split.
  { unfold insertedBlocks. cbn [app filter isInsertBlock].
    rewrite filter_app. unfold listIndentReset.
    destruct (currentList sink _); reflexivity. }
  rewrite Hdoc3. apply activeCharFormat_set.
Qed.

Lemma heading_text_is_bold_then_reset_witness :
  1 <= 1 <= 6 /\
  m_imageSpan anImporter = false /\
  m_htmlTagDepth anImporter = 0 /\
  qstr "Title" <> [] /\
  exists (st' : Importer) (bf : QTextBlockFormat) (ops : list SinkOp),
    md_parse gridSink
      [EnterBlock (BlockH 1); Text MD_TEXT_NORMAL (qstr "Title");
       LeaveBlock MD_BLOCK_H] anImporter = Some (0, st') /\
    doc st' =
      doc anImporter
      ++ InsertBlock bf
           (setFontWeight QFont_Bold
              (setFontSizeAdjustment 3 emptyCharFormat))
         :: ops /\
    bf_headingLevel bf = Some 1 /\
    textRuns ops
      (setFontWeight QFont_Bold (setFontSizeAdjustment 3 emptyCharFormat)) =
      [(qstr "Title",
        setFontWeight QFont_Bold
          (setFontSizeAdjustment 3 emptyCharFormat))] /\
    insertedBlocks ops = 0%nat /\
    activeCharFormat (doc st') = emptyCharFormat.
Proof.
  split; [lia|].
  split; [reflexivity|].
  split; [reflexivity|].
  split; [discriminate|].
  apply (heading_text_is_bold_then_reset gridSink anImporter 1
           (qstr "Title")).
  - lia.
  - reflexivity.
  - reflexivity.
  - discriminate.
Defined.

(** X10: whatever text comes first after a block quote or a code block has
    been left starts a new block.  After a quote the block is formatted for
    the enclosing depth: its left margin is the quote indent unit times the
    remaining depth, as long as that product fits an int.  After a code
    block the block carries no code language and its character format is
    the top of the span stack, without the monospaced font. *)
Theorem text_after_quote_or_code_starts_a_block :
  forall (sink : DocumentSink) (st : Importer) (t : MD_TEXTTYPE) (s : QString),
    m_imageSpan st = false ->
    INT_MIN <= BlockQuoteIndent * (m_blockQuoteDepth st - 1) <= INT_MAX ->
    (exists (st' : Importer) (bf : QTextBlockFormat) (cf : QTextCharFormat)
            (ops : list SinkOp),
       md_parse sink [LeaveBlock MD_BLOCK_QUOTE; Text t s] st
       = Some (0, st') /\
       doc st' = doc st ++ InsertBlock bf cf :: ops /\
       leftMargin bf = BlockQuoteIndent * (m_blockQuoteDepth st - 1)) /\
    (exists (st' : Importer) (bf : QTextBlockFormat) (ops : list SinkOp),
       md_parse sink [LeaveBlock MD_BLOCK_CODE; Text t s] st
       = Some (0, st') /\
       doc st' =
         doc st
         ++ InsertBlock bf (spanFormatTop (m_spanFormatStack st)) :: ops /\
       bf_blockCodeLanguage bf = None).
Proof.
  intros sink st t s Himg Hfit.
  destruct (leave_block_run sink st) as (_ & Hquote & Hcode).
  split.
  - destruct Hquote as (st1 & Hrun1 & Hdoc1 & Himg1 & Hneeds1 & Hdepth1).
    rewrite Himg in Himg1.
    destruct (cbText_outside_image sink st1 t s Himg1)
      as (st2 & Hrun2 & Hdoc2 & _).
    unfold deferredBlock in Hdoc2. rewrite Hneeds1, Hdoc1 in Hdoc2.
    pose proof (insertBlock_formats_margins st1) as Hm. cbv zeta in Hm.
    destruct Hm as (Hleft & _). rewrite Hdepth1 in Hleft.
    rewrite (wrap_int_small _ Hfit) in Hleft.
    exists st2. do 3 eexists.
    split.
    { rewrite (md_parse_cons sink _ _ st st1) by exact Hrun1.
      apply md_parse_one. exact Hrun2. }
    split; [|exact Hleft].
    rewrite Hdoc2, <- !app_assoc. reflexivity.
  - destruct Hcode
      as (st1 & Hrun1 & Hdoc1 & Himg1 & Hneeds1 & Hcode1 & Hstack1).
    rewrite Himg in Himg1.
    destruct (cbText_outside_image sink st1 t s Himg1)
      as (st2 & Hrun2 & Hdoc2 & _).
    unfold deferredBlock in Hdoc2. rewrite Hneeds1, Hdoc1 in Hdoc2.
    pose proof (insertBlock_formats_margins st1) as Hm. cbv zeta in Hm.
    destruct Hm as (_ & _ & _ & Hfmt). rewrite Hcode1 in Hfmt.
    destruct Hfmt as (Hlang & Hcf & _). rewrite Hcf, Hstack1 in Hdoc2.
    exists st2. do 2 eexists.
    split.
    { rewrite (md_parse_cons sink _ _ st st1) by exact Hrun1.
      apply md_parse_one. exact Hrun2. }
    split; [|exact Hlang].
    rewrite Hdoc2, <- !app_assoc. reflexivity.
Qed.

Lemma text_after_quote_or_code_starts_a_block_witness :
  md_parse gridSink codeInQuotedList anImporter
  = Some (0, inCodeInQuotedList) /\
  m_blockQuoteDepth inCodeInQuotedList = 2 /\
  m_imageSpan inCodeInQuotedList = false /\
  INT_MIN <= BlockQuoteIndent * (m_blockQuoteDepth inCodeInQuotedList - 1)
  <= INT_MAX /\
  (exists (st' : Importer) (bf : QTextBlockFormat) (cf : QTextCharFormat)
          (ops : list SinkOp),
     md_parse gridSink
       [LeaveBlock MD_BLOCK_QUOTE; Text MD_TEXT_NORMAL (qstr "x")]
       inCodeInQuotedList = Some (0, st') /\
     doc st' = doc inCodeInQuotedList ++ InsertBlock bf cf :: ops /\
     leftMargin bf = 40) /\
  (exists (st' : Importer) (bf : QTextBlockFormat) (ops : list SinkOp),
     md_parse gridSink
       [LeaveBlock MD_BLOCK_CODE; Text MD_TEXT_NORMAL (qstr "x")]
       inCodeInQuotedList = Some (0, st') /\
     doc st' =
       doc inCodeInQuotedList ++ InsertBlock bf emptyCharFormat :: ops /\
     bf_blockCodeLanguage bf = None).
Proof.
  assert (Hfit : INT_MIN
                 <= BlockQuoteIndent * (m_blockQuoteDepth inCodeInQuotedList - 1)
                 <= INT_MAX).
  { split; apply Z.leb_le; reflexivity. }
  split; [vm_compute; reflexivity|].
  split; [reflexivity|].
  split; [reflexivity|].
  split; [exact Hfit|].
  apply (text_after_quote_or_code_starts_a_block gridSink inCodeInQuotedList
           MD_TEXT_NORMAL (qstr "x") eq_refl Hfit).
Defined.

(** ** When the parser is stopped *)

Lemma callback_status :
  forall (sink : DocumentSink) (e : Event) (st st' : Importer) (status : Z),
    callback sink e st = Some (status, st') ->
    (status = 0 /\ warnings st' = warnings st) \/
    (status = 1 /\ isTableCellEnter e = true /\
     warnings st' =
       warnings st ++ ["malformed table in Markdown input"%string]).
Proof.
  intros sink e st st' status Hrun.
  destruct e as [b | t | sp | t | t s]; cbn [callback] in Hrun.
  - pose proof (cbEnterBlock_status sink st b) as H.
    rewrite Hrun in H. destruct H as (_ & _ & Hfail & Hok).
    destruct (bool_cases (cellLookupFails sink st b)) as [E | E].
    + right. destruct (Hfail E) as (Hs & Hw & _).
      split; [exact Hs|]. split; [|exact Hw].
      unfold cellLookupFails in E. destruct b; try discriminate E; reflexivity.
    + left. exact (Hok E).
  - pose proof (cbLeaveBlock_status sink st t) as H.
    rewrite Hrun in H. destruct H as (_ & Hs & Hw & _).
    left. split; assumption.
  - destruct (cbEnterSpan_frame st sp)
      as (st1 & Hrun1 & _ & _ & _ & _ & _ & _ & _ & _ & Hw & _).
    rewrite Hrun in Hrun1. injection Hrun1 as -> <-.
    left. split; [reflexivity | exact Hw].
  - destruct (cbLeaveSpan_frame st t)
      as (st1 & Hrun1 & _ & _ & _ & _ & _ & _ & _ & _ & Hw & _).
    rewrite Hrun in Hrun1. injection Hrun1 as -> <-.
    left. split; [reflexivity | exact Hw].
  - destruct (bool_cases (m_imageSpan st)) as [Himg | Himg].
    + rewrite cbText_inside_image in Hrun by exact Himg.
      injection Hrun as <- <-. left. split; reflexivity.
    + destruct (cbText_frame sink st t s Himg)
        as (st1 & Hrun1 & _ & _ & _ & _ & _ & _ & _ & _ & Hw).
      rewrite Hrun in Hrun1. injection Hrun1 as -> <-.
      left. split; [reflexivity | exact Hw].
Qed.

(** X11: the importer stops the parser only at a table cell.  A run of the
    callbacks over any events either returns 0 with no warning logged, or
    returns 1 with the one warning about a malformed table; in that case
    the events before some table header or data cell were all handled with
    status 0, that cell's lookup failed, and no event after it was
    handled. *)
Theorem parser_is_stopped_only_at_a_table_cell :
  forall (sink : DocumentSink) (events : list Event) (st st' : Importer)
         (status : Z),
    md_parse sink events st = Some (status, st') ->
    (status = 0 /\ warnings st' = warnings st) \/
    (status = 1 /\
     warnings st' =
       warnings st ++ ["malformed table in Markdown input"%string] /\
     exists (before after : list Event) (e : Event) (st1 : Importer),
       events = before ++ e :: after /\
       isTableCellEnter e = true /\
       md_parse sink before st = Some (0, st1) /\
       callback sink e st1 = Some (1, st')).
Proof.
  intros sink events.
  induction events as [|e events IH]; intros st st' status Hrun.
  - injection Hrun as <- <-. left. split; reflexivity.
  - cbn [md_parse] in Hrun. unfold bind in Hrun.
    destruct (callback sink e st) as [[z st1]|] eqn:Hstep; [|discriminate].
    destruct (callback_status sink e st st1 z Hstep)
      as [(Hz & Hw) | (Hz & He & Hw)].
    + subst z. cbn [Z.eqb] in Hrun.
      destruct (IH st1 st' status Hrun)
        as [(Hs & Hw') | (Hs & Hw' & before & after & e' & st2 &
                          Hev & He' & Hbefore & Hlast)].
      * left. split; [exact Hs | congruence].
      * right. split; [exact Hs|]. split; [congruence|].
        exists (e :: before), after, e', st2.
        split; [rewrite Hev; reflexivity|]. split; [exact He'|].
        split; [|exact Hlast].
        rewrite (md_parse_cons sink e before st st1) by exact Hstep.
        exact Hbefore.
    + subst z. cbn [Z.eqb] in Hrun. injection Hrun as <- <-.
      right. split; [reflexivity|]. split; [exact Hw|].
      exists [], events, e, st.
      repeat split; first [reflexivity | assumption].
Qed.

Lemma parser_is_stopped_only_at_a_table_cell_witness :
  exists (status : Z) (st' : Importer),
    md_parse gridSink
      [Text MD_TEXT_NORMAL (qstr "x"); EnterBlock (BlockTD MD_ALIGN_LEFT);
       Text MD_TEXT_NORMAL (qstr "y")] pastLastColumn
    = Some (status, st') /\
    ((status = 0 /\ warnings st' = warnings pastLastColumn) \/
     (status = 1 /\
      warnings st' =
        warnings pastLastColumn
        ++ ["malformed table in Markdown input"%string] /\
      exists (before after : list Event) (e : Event) (st1 : Importer),
        [Text MD_TEXT_NORMAL (qstr "x"); EnterBlock (BlockTD MD_ALIGN_LEFT);
         Text MD_TEXT_NORMAL (qstr "y")] = before ++ e :: after /\
        isTableCellEnter e = true /\
        md_parse gridSink before pastLastColumn = Some (0, st1) /\
        callback gridSink e st1 = Some (1, st'))).
Proof.
  do 2 eexists. split; [vm_compute; reflexivity|].
  apply (parser_is_stopped_only_at_a_table_cell gridSink
           [Text MD_TEXT_NORMAL (qstr "x"); EnterBlock (BlockTD MD_ALIGN_LEFT);
            Text MD_TEXT_NORMAL (qstr "y")] pastLastColumn).
  vm_compute; reflexivity.
Defined.

(** ** The tag counts of a raw HTML fragment *)

Lemma matchLoop_bounds :
  forall (p : QChar -> QChar -> bool) (s : QString) (fuel : nat)
         (startIdx n : Z),
    0 <= startIdx ->
    n <= matchLoop fuel p s startIdx n /\
    2 * (matchLoop fuel p s startIdx n - n)
    <= Z.max 0 (Z.of_nat (length s) - startIdx).
Proof.
  intros p s fuel. induction fuel as [|fuel IH]; intros startIdx n Hstart.
  - cbn [matchLoop]. lia.
  - cbn [matchLoop].
    destruct (0 <=? indexOf p s startIdx) eqn:Hfound; [|lia].
    apply Z.leb_le in Hfound. unfold indexOf in *.
    destruct (indexOfFrom_range p s 0 startIdx) as [Hnone | (H1 & H2 & H3)];
      [lia|].
    destruct (IH (indexOfFrom p s 0 startIdx + 2) (n + 1)) as [Hlo Hhi];
      [lia|].
    lia.
Qed.

(** X12: the two counting loops of a raw HTML fragment never count
    overlapping matches: whatever the pattern, the count is between zero and
    half the fragment's length, so one fragment moves the tag depth by at
    most half its length in either direction. *)
Theorem tag_count_is_at_most_half_the_length :
  forall (p : QChar -> QChar -> bool) (s : QString) (st : Importer),
    0 <= countMatches p s /\
    2 * countMatches p s <= Z.of_nat (length s) /\
    2 * Z.abs (depthAfter st s - m_htmlTagDepth st) <= Z.of_nat (length s).
Proof.
  intros p s st.
  assert (Hb : forall q, 0 <= countMatches q s /\
                         2 * countMatches q s <= Z.of_nat (length s)).
  { intro q. unfold countMatches.
    destruct (matchLoop_bounds q s (length s) 0 0) as [Hlo Hhi]; lia. }
  destruct (Hb p) as [Hp1 Hp2].
  destruct (Hb openingBracket) as [Ho1 Ho2].
  destruct (Hb closingBracket) as [Hc1 Hc2].
  unfold depthAfter. lia.
Qed.

(** ** A data row from its first event to its last *)

Lemma mergeCalls_app :
  forall a b : Trace, mergeCalls (a ++ b) = mergeCalls a ++ mergeCalls b.
Proof.
  induction a as [|o a IH]; intro b; [reflexivity|].
  destruct o; cbn [app mergeCalls]; rewrite IH; reflexivity.
Qed.

Lemma mergeCalls_text :
  forall (sink : DocumentSink) (st : Importer) (t : MD_TEXTTYPE) (s : QString)
         (d : Trace),
    mergeCalls ((deferredBlock st ++ insertedContent st t s)
                ++ listIndentReset sink d) = [].
Proof.
  intros sink st t s d. rewrite !mergeCalls_app.
  unfold deferredBlock, insertedContent, listIndentReset, textCall.
  destruct t;
    repeat match goal with
           | |- context [if ?c then _ else _] => destruct c
           end; reflexivity.
Qed.

Lemma keepShape_app :
  forall a b : Trace, keepShape (a ++ b) = keepShape a && keepShape b.
Proof. intros a b. unfold keepShape. apply forallb_app. Qed.

Lemma keepShape_text :
  forall (sink : DocumentSink) (st : Importer) (t : MD_TEXTTYPE) (s : QString)
         (d : Trace),
    keepShape ((deferredBlock st ++ insertedContent st t s)
               ++ listIndentReset sink d) = true.
Proof.
  intros sink st t s d. rewrite !keepShape_app.
  unfold deferredBlock, insertedContent, listIndentReset, textCall.
  destruct t;
    repeat match goal with
           | |- context [if ?c then _ else _] => destruct c
           end; reflexivity.
Qed.

Lemma contains_app :
  forall (l : list Z) (x z : Z),
    contains (l ++ [x]) z = contains l z || (z =? x).
Proof.
  intros l x z. unfold contains. rewrite existsb_app. cbn [existsb].
  now rewrite orb_false_r.
Qed.

(** *** The grid of the examples is a grid *)

Lemma tableSize_app :
  forall (d ops : Trace) (next t : TableHandle) (size : Z * Z),
    tableSize (d ++ ops) next t size =
    tableSize ops (next + length (filter isInsertTable d))%nat t
      (tableSize d next t size).
Proof.
  induction d as [|o d IH]; intros ops next t size.
  - cbn. now rewrite Nat.add_0_r.
  - destruct o; cbn [app tableSize filter isInsertTable length];
      rewrite IH; try reflexivity.
    now rewrite Nat.add_succ_r.
Qed.

Lemma tableSize_keepShape :
  forall (ops : Trace) (next t : TableHandle) (size : Z * Z),
    keepShape ops = true -> tableSize ops next t size = size.
Proof.
  induction ops as [|o ops IH]; intros next t size Hq; [reflexivity|].
  unfold keepShape in Hq. cbn [forallb] in Hq.
  apply andb_prop in Hq. destruct Hq as [Ho Hq].
  destruct o; try discriminate Ho; cbn [tableSize]; apply IH; exact Hq.
Qed.

Lemma gridSink_GridLike : GridLike gridSink.
Proof.
  constructor.
  - intros d t r c. cbn [cellIsValid rows columns gridSink].
    destruct (tableSize d 0%nat t (0, 0)); reflexivity.
  - intros d ops t Hq. cbn [rows gridSink].
    now rewrite tableSize_app, tableSize_keepShape.
  - intros d ops t Hq. cbn [columns gridSink].
    now rewrite tableSize_app, tableSize_keepShape.
  - intros d t n. cbn [rows gridSink].
    rewrite tableSize_app. cbn [tableSize]. now rewrite Nat.eqb_refl.
  - intros d t n. cbn [columns gridSink].
    rewrite tableSize_app. cbn [tableSize]. now rewrite Nat.eqb_refl.
Qed.

(** *** One event at a time *)

Lemma enter_row_run :
  forall (sink : DocumentSink) (st : Importer) (tb : TableHandle),
    m_currentTable st = Some tb ->
    exists st' : Importer,
      cbEnterBlock sink BlockTR st = Some (0, st') /\
      doc st' =
        doc st
        ++ (if rows sink (doc st) tb <? m_tableRowCount st + 1
            then [AppendRows tb 1] else []) /\
      m_currentTable st' = Some tb /\
      m_imageSpan st' = m_imageSpan st /\
      m_tableCol st' = -1 /\
      m_nonEmptyTableCells st' = [] /\
      m_tableRowCount st' = m_tableRowCount st + 1.
Proof.
  intros sink st tb Htb.
  cbv [cbEnterBlock currentTable bind gets modify emit ret when undefined].
  cbn -[Z.add Z.sub Z.ltb Z.of_nat length filter].
  rewrite Htb.
  cbn -[Z.add Z.sub Z.ltb Z.of_nat length filter].
  destruct (bool_cases (rows sink (doc st) tb <? m_tableRowCount st + 1))
    as [E|E]; rewrite !E;
    cbn -[Z.add Z.sub Z.ltb Z.of_nat length filter];
    (eexists; split; [reflexivity|]);
    cbn -[Z.add Z.sub Z.ltb Z.of_nat length filter];
    rewrite ?Htb, ?app_nil_r; repeat split; reflexivity.
Qed.

Lemma enter_cell_run :
  forall (sink : DocumentSink) (st : Importer) (tb : TableHandle)
         (a : MD_ALIGN),
    m_currentTable st = Some tb ->
    cellIsValid sink (doc st) tb (m_tableRowCount st - 1) (m_tableCol st + 1)
    = true ->
    exists (st' : Importer) (ops : list SinkOp),
      cbEnterBlock sink (BlockTD a) st = Some (0, st') /\
      doc st' = doc st ++ ops /\
      mergeCalls ops = [] /\
      keepShape ops = true /\
      m_currentTable st' = Some tb /\
      m_imageSpan st' = m_imageSpan st /\
      m_tableCol st' = m_tableCol st + 1 /\
      m_nonEmptyTableCells st' = m_nonEmptyTableCells st /\
      m_blockType st' = MD_BLOCK_TD /\
      m_tableRowCount st' = m_tableRowCount st.
Proof.
  intros sink st tb a Htb Hvalid.
  cbv [cbEnterBlock currentTable bind gets modify emit ret when undefined
       qWarning].
  cbn -[Z.add Z.sub Z.ltb Z.of_nat length filter].
  rewrite Htb.
  cbn -[Z.add Z.sub Z.ltb Z.of_nat length filter].
  rewrite Hvalid.
  cbn -[Z.add Z.sub Z.ltb Z.of_nat length filter].
  do 2 eexists. split; [reflexivity|].
  cbn -[Z.add Z.sub Z.ltb Z.of_nat length filter].
  rewrite ?Htb, <- ?app_assoc. repeat split; reflexivity.
Qed.

Lemma text_in_cell_run :
  forall (sink : DocumentSink) (st : Importer) (t : MD_TEXTTYPE) (s : QString),
    m_imageSpan st = false ->
    m_blockType st = MD_BLOCK_TD ->
    exists (st' : Importer) (ops : list SinkOp),
      cbText sink t s st = Some (0, st') /\
      doc st' = doc st ++ ops /\
      mergeCalls ops = [] /\
      keepShape ops = true /\
      m_currentTable st' = m_currentTable st /\
      m_imageSpan st' = false /\
      m_tableCol st' = m_tableCol st /\
      m_nonEmptyTableCells st' = m_nonEmptyTableCells st ++ [m_tableCol st] /\
      m_tableRowCount st' = m_tableRowCount st.
Proof.
  intros sink st t s Himg Hbt.
  destruct (cbText_outside_image sink st t s Himg)
    as (st1 & Hrun1 & Hdoc & _ & _ & Hne & _ & Himg1 & _).
  destruct (cbText_frame sink st t s Himg)
    as (st2 & Hrun2 & _ & _ & _ & _ & _ & Htb & Hcol & _).
  destruct (cbText_frame_flags sink st t s Himg)
    as (st3 & Hrun3 & _ & _ & _ & Hrows & _).
  rewrite Hrun1 in Hrun2, Hrun3.
  injection Hrun2 as <-. injection Hrun3 as <-.
  rewrite Hbt in Hne.
  exists st1.
  exists ((deferredBlock st ++ insertedContent st t s)
          ++ listIndentReset sink
               (doc st ++ deferredBlock st ++ insertedContent st t s)).
  split; [exact Hrun1|].
  split; [rewrite Hdoc, <- !app_assoc; reflexivity|].
  split; [apply mergeCalls_text|].
  split; [apply keepShape_text|].
  repeat split; assumption.
Qed.

Section RowInGrid.

Variable sink : DocumentSink.
Hypothesis grid : GridLike sink.
Variable tb : TableHandle.
Variable n : Z.

Lemma cell_in_grid :
  forall (st : Importer) (c : Z),
    cellsFit sink tb st n -> 0 <= c < n ->
    cellIsValid sink (doc st) tb (m_tableRowCount st - 1) c = true.
Proof.
  intros st c [Hrows Hcols] Hc.
  rewrite (cellAt_inside sink grid).
  repeat (apply andb_true_intro; split);
    first [apply Z.leb_le; lia | apply Z.ltb_lt; lia].
Qed.

Lemma cellsFit_kept :
  forall (st st' : Importer) (ops : list SinkOp),
    cellsFit sink tb st n ->
    doc st' = doc st ++ ops -> keepShape ops = true ->
    m_tableRowCount st' = m_tableRowCount st ->
    cellsFit sink tb st' n.
Proof.
  intros st st' ops [Hrows Hcols] Hdoc Hq Hrc. unfold cellsFit.
  rewrite Hdoc, Hrc, (rows_kept sink grid), (columns_kept sink grid)
    by exact Hq.
  split; assumption.
Qed.

Lemma textCell_run :
  forall (st : Importer) (p : MD_TEXTTYPE * QString) (c : Z),
    m_currentTable st = Some tb -> m_imageSpan st = false ->
    m_tableCol st = c -> -1 <= c -> c + 1 < n ->
    recordedUpTo st c -> cellsFit sink tb st n ->
    exists (st' : Importer) (ops : list SinkOp),
      md_parse sink (textCell p) st = Some (0, st') /\
      doc st' = doc st ++ ops /\
      mergeCalls ops = [] /\
      m_currentTable st' = Some tb /\
      m_imageSpan st' = false /\
      m_tableCol st' = c + 1 /\
      recordedUpTo st' (c + 1) /\
      cellsFit sink tb st' n.
Proof.
  intros st p c Htb Himg Hcol Hc Hroom Hrec Hfit.
  assert (Hvalid : cellIsValid sink (doc st) tb (m_tableRowCount st - 1)
                     (m_tableCol st + 1) = true)
    by (apply cell_in_grid; [exact Hfit | lia]).
  destruct (enter_cell_run sink st tb MD_ALIGN_DEFAULT Htb Hvalid)
    as (st1 & ops1 & Hrun1 & Hdoc1 & Hm1 & Hq1 & Htb1 & Himg1 & Hcol1 & Hne1
        & Hbt1 & Hrc1).
  rewrite Himg in Himg1.
  destruct (text_in_cell_run sink st1 (fst p) (snd p) Himg1 Hbt1)
    as (st2 & ops2 & Hrun2 & Hdoc2 & Hm2 & Hq2 & Htb2 & Himg2 & Hcol2 & Hne2
        & Hrc2).
  exists st2, (ops1 ++ ops2).
  split.
  { unfold textCell.
    rewrite (md_parse_cons sink _ _ st st1) by exact Hrun1.
    rewrite (md_parse_cons sink _ _ st1 st2) by exact Hrun2.
    reflexivity. }
  split; [rewrite Hdoc2, Hdoc1, app_assoc; reflexivity|].
  split; [rewrite mergeCalls_app, Hm1, Hm2; reflexivity|].
  split; [congruence|]. split; [exact Himg2|].
  split; [lia|].
  split.
  { intro z. rewrite Hne2, Hne1, Hcol1, Hcol, contains_app.
    rewrite orb_true_iff, (Hrec z), Z.eqb_eq. lia. }
  apply (cellsFit_kept st st2 (ops1 ++ ops2) Hfit).
  - rewrite Hdoc2, Hdoc1, app_assoc. reflexivity.
  - rewrite keepShape_app, Hq1, Hq2. reflexivity.
  - congruence.
Qed.

Lemma textCells_run :
  forall (texts : list (MD_TEXTTYPE * QString)) (st : Importer) (c : Z),
    m_currentTable st = Some tb -> m_imageSpan st = false ->
    m_tableCol st = c -> -1 <= c -> c + Z.of_nat (length texts) < n ->
    recordedUpTo st c -> cellsFit sink tb st n ->
    exists (st' : Importer) (ops : list SinkOp),
      md_parse sink (concat (map textCell texts)) st = Some (0, st') /\
      doc st' = doc st ++ ops /\
      mergeCalls ops = [] /\
      m_currentTable st' = Some tb /\
      m_tableCol st' = c + Z.of_nat (length texts) /\
      recordedUpTo st' (c + Z.of_nat (length texts)) /\
      cellsFit sink tb st' n.
Proof.
  induction texts as [|p texts IH];
    intros st c Htb Himg Hcol Hc Hroom Hrec Hfit.
  - exists st, []. cbn [length Z.of_nat]. rewrite app_nil_r, Z.add_0_r.
    split; [reflexivity|]. split; [reflexivity|]. split; [reflexivity|].
    split; [exact Htb|]. split; [exact Hcol|]. split; [exact Hrec|].
    exact Hfit.
  - cbn [length] in Hroom.
    destruct (textCell_run st p c Htb Himg Hcol Hc ltac:(lia) Hrec Hfit)
      as (st1 & ops1 & Hrun1 & Hdoc1 & Hm1 & Htb1 & Himg1 & Hcol1 & Hrec1
          & Hfit1).
    destruct (IH st1 (c + 1) Htb1 Himg1 Hcol1 ltac:(lia) ltac:(lia) Hrec1
                Hfit1)
      as (st2 & ops2 & Hrun2 & Hdoc2 & Hm2 & Htb2 & Hcol2 & Hrec2 & Hfit2).
    replace (c + 1 + Z.of_nat (length texts))
      with (c + Z.of_nat (length (p :: texts))) in Hcol2, Hrec2
      by (cbn [length]; lia).
    exists st2, (ops1 ++ ops2).
    split.
    { cbn [map concat].
      rewrite (md_parse_app sink _ _ st st1) by exact Hrun1. exact Hrun2. }
    split; [rewrite Hdoc2, Hdoc1, app_assoc; reflexivity|].
    split; [rewrite mergeCalls_app, Hm1, Hm2; reflexivity|].
    split; [exact Htb2|]. split; [exact Hcol2|]. split; [exact Hrec2|].
    exact Hfit2.
Qed.

Lemma emptyCells_run :
  forall (missing : nat) (st : Importer),
    m_currentTable st = Some tb ->
    -1 <= m_tableCol st -> m_tableCol st + Z.of_nat missing < n ->
    cellsFit sink tb st n ->
    exists (st' : Importer) (ops : list SinkOp),
      md_parse sink (concat (repeat emptyDataCell missing)) st
      = Some (0, st') /\
      doc st' = doc st ++ ops /\
      mergeCalls ops = [] /\
      m_currentTable st' = Some tb /\
      m_tableCol st' = m_tableCol st + Z.of_nat missing /\
      m_nonEmptyTableCells st' = m_nonEmptyTableCells st.
Proof.
  induction missing as [|missing IH]; intros st Htb Hc Hroom Hfit.
  - exists st, []. cbn [Z.of_nat]. rewrite app_nil_r, Z.add_0_r.
    repeat split; first [reflexivity | assumption].
  - assert (Hvalid : cellIsValid sink (doc st) tb (m_tableRowCount st - 1)
                       (m_tableCol st + 1) = true)
      by (apply cell_in_grid; [exact Hfit | lia]).
    destruct (enter_cell_run sink st tb MD_ALIGN_DEFAULT Htb Hvalid)
      as (st1 & ops1 & Hrun1 & Hdoc1 & Hm1 & Hq1 & Htb1 & _ & Hcol1 & Hne1
          & _ & Hrc1).
    assert (Hfit1 : cellsFit sink tb st1 n)
      by (apply (cellsFit_kept st st1 ops1 Hfit Hdoc1 Hq1 Hrc1)).
    destruct (IH st1 Htb1 ltac:(lia) ltac:(lia) Hfit1)
      as (st2 & ops2 & Hrun2 & Hdoc2 & Hm2 & Htb2 & Hcol2 & Hne2).
    exists st2, (ops1 ++ ops2).
    split.
    { cbn [repeat concat]. unfold emptyDataCell at 1. cbn [app].
      rewrite (md_parse_cons sink _ _ st st1) by exact Hrun1.
      rewrite (md_parse_cons sink _ _ st1 st1) by reflexivity.
      exact Hrun2. }
    split; [rewrite Hdoc2, Hdoc1, app_assoc; reflexivity|].
    split; [rewrite mergeCalls_app, Hm1, Hm2; reflexivity|].
    split; [exact Htb2|].
    split; [rewrite Hcol2, Hcol1; lia | congruence].
Qed.

End RowInGrid.

(** X13: a data row from Enter(TableRow) to Leave(TableRow).  In a table of
    a grid-like sink that has the rows counted so far and a column for
    every cell of the row, a row with one text event (of any subkind, with
    any content, even none) in each of its first cells and no text in its
    last [missing] cells is handled with status 0, and the only mergeCells
    call it makes is one that gives the last cell with text a span of
    missing + 1, made when at least two cells are missing; a row that
    misses one cell, or none, is not merged at all. *)
Theorem short_row_merges_its_missing_cells :
  forall (sink : DocumentSink) (st : Importer) (tb : TableHandle)
         (texts : list (MD_TEXTTYPE * QString)) (missing : nat),
    GridLike sink ->
    m_currentTable st = Some tb -> m_imageSpan st = false ->
    texts <> [] ->
    0 <= m_tableRowCount st <= rows sink (doc st) tb ->
    Z.of_nat (length texts + missing) <= columns sink (doc st) tb ->
    exists (st' : Importer) (ops : list SinkOp),
      md_parse sink (shortRow texts missing) st = Some (0, st') /\
      doc st' = doc st ++ ops /\
      mergeCalls ops =
        if (2 <=? missing)%nat
        then [(Z.of_nat (length texts) - 1, Z.of_nat missing + 1)]
        else [].
Proof.
  intros sink st tb texts missing grid Htb Himg Htexts Hrows Hcols.
  set (n := Z.of_nat (length texts + missing)) in *.
  destruct (enter_row_run sink st tb Htb)
    as (st1 & Hrun1 & Hdoc1 & Htb1 & Himg1 & Hcol1 & Hne1 & Hrc1).
  rewrite Himg in Himg1.
  assert (Hrec1 : recordedUpTo st1 (-1)).
  { intro z. rewrite Hne1. cbn. split; [discriminate | lia]. }
  assert (Hfit1 : cellsFit sink tb st1 n).
  { unfold cellsFit. rewrite Hdoc1, Hrc1.
    destruct (Z.ltb_spec (rows sink (doc st) tb) (m_tableRowCount st + 1)).
    - rewrite (rows_appended sink grid), (columns_of_appended sink grid).
      split; [lia | exact Hcols].
    - rewrite app_nil_r. split; [lia | exact Hcols]. }
  destruct (textCells_run sink grid tb n texts st1 (-1) Htb1 Himg1 Hcol1
              ltac:(lia) ltac:(unfold n; lia) Hrec1 Hfit1)
    as (st2 & ops2 & Hrun2 & Hdoc2 & Hm2 & Htb2 & Hcol2 & Hrec2 & Hfit2).
  assert (Hp : (1 <= length texts)%nat).
  { destruct texts; [now elim Htexts | cbn [length]; lia]. }
  destruct (emptyCells_run sink grid tb n missing st2 Htb2
              ltac:(rewrite Hcol2; lia) ltac:(rewrite Hcol2; unfold n; lia)
              Hfit2)
    as (st3 & ops3 & Hrun3 & Hdoc3 & Hm3 & Htb3 & Hcol3 & Hne3).
  assert (Hleave :=
    leave_row_trailing_empty_cells sink st3 tb (length texts) missing Htb3).
  assert (Hin : forall z, contains (m_nonEmptyTableCells st3) z = true
                          <-> 0 <= z <= Z.of_nat (length texts) - 1).
  { intro z. rewrite Hne3, (Hrec2 z). lia. }
  specialize (Hleave ltac:(rewrite Hcol3, Hcol2; lia) Hp).
  assert (Hpop : forall c : nat, (c < length texts)%nat ->
            contains (m_nonEmptyTableCells st3) (Z.of_nat c) = true).
  { intros c Hc. apply Hin. lia. }
  assert (Hemp : forall c : nat,
            (length texts <= c < length texts + missing)%nat ->
            contains (m_nonEmptyTableCells st3) (Z.of_nat c) = false).
  { intros c Hc.
    destruct (contains (m_nonEmptyTableCells st3) (Z.of_nat c)) eqn:E;
      [|reflexivity].
    apply Hin in E. lia. }
  specialize (Hleave Hpop Hemp).
  eexists.
  exists ((if rows sink (doc st) tb <? m_tableRowCount st + 1
           then [AppendRows tb 1] else [])
          ++ ops2 ++ ops3
          ++ if (2 <=? missing)%nat
             then [MergeCells tb (rows sink (doc st3) tb - 1)
                     (Z.of_nat (length texts) - 1) 1 (Z.of_nat missing + 1)]
             else []).
  split.
  { unfold shortRow, tableRow.
    rewrite (md_parse_cons sink _ _ st st1) by exact Hrun1.
    rewrite <- app_assoc.
    rewrite (md_parse_app sink _ _ st1 st2) by exact Hrun2.
    rewrite (md_parse_app sink _ _ st2 st3) by exact Hrun3.
    apply md_parse_one. exact Hleave. }
  split.
  { destruct (2 <=? missing)%nat; cbn [doc set_doc];
      rewrite Hdoc3, Hdoc2, Hdoc1, <- ?app_assoc, ?app_nil_r; reflexivity. }
  rewrite !mergeCalls_app, Hm2, Hm3.
  destruct (rows sink (doc st) tb <? m_tableRowCount st + 1);
    destruct (2 <=? missing)%nat; reflexivity.
Qed.

Lemma short_row_merges_its_missing_cells_witness :
  md_parse gridSink threeColumnHeader anImporter
  = Some (0, afterThreeColumnHeader) /\
  GridLike gridSink /\
  m_currentTable afterThreeColumnHeader = Some 0%nat /\
  m_imageSpan afterThreeColumnHeader = false /\
  [(MD_TEXT_NORMAL, qstr "d")] <> [] /\
  0 <= m_tableRowCount afterThreeColumnHeader
  <= rows gridSink (doc afterThreeColumnHeader) 0%nat /\
  Z.of_nat (length [(MD_TEXT_NORMAL, qstr "d")] + 2)
  <= columns gridSink (doc afterThreeColumnHeader) 0%nat /\
  exists (st' : Importer) (ops : list SinkOp),
    md_parse gridSink (shortRow [(MD_TEXT_NORMAL, qstr "d")] 2)
      afterThreeColumnHeader = Some (0, st') /\
    doc st' = doc afterThreeColumnHeader ++ ops /\
    mergeCalls ops = [(0, 3)].
Proof.
  assert (Hrows : 0 <= m_tableRowCount afterThreeColumnHeader
                  <= rows gridSink (doc afterThreeColumnHeader) 0%nat)
    by (split; apply Z.leb_le; reflexivity).
  assert (Hcols : Z.of_nat (length [(MD_TEXT_NORMAL, qstr "d")] + 2)
                  <= columns gridSink (doc afterThreeColumnHeader) 0%nat)
    by (apply Z.leb_le; reflexivity).
  assert (Htexts : [(MD_TEXT_NORMAL, qstr "d")] <> [])
    by (intro H; discriminate H).
  split; [vm_compute; reflexivity|].
  split; [exact gridSink_GridLike|].
  split; [reflexivity|].
  split; [reflexivity|].
  split; [exact Htexts|].
  split; [exact Hrows|].
  split; [exact Hcols|].
  exact (short_row_merges_its_missing_cells gridSink afterThreeColumnHeader
           0%nat [(MD_TEXT_NORMAL, qstr "d")] 2 gridSink_GridLike
           eq_refl eq_refl Htexts Hrows Hcols).
Defined.

(** ** A paragraph inserts its block once *)

Lemma insertedBlocks_app :
  forall a b : Trace,
    insertedBlocks (a ++ b) = (insertedBlocks a + insertedBlocks b)%nat.
Proof.
  intros a b. unfold insertedBlocks. now rewrite filter_app, length_app.
Qed.

Lemma insertedBlocks_text :
  forall (sink : DocumentSink) (st : Importer) (t : MD_TEXTTYPE) (s : QString)
         (d : Trace),
    insertedBlocks ((deferredBlock st ++ insertedContent st t s)
                    ++ listIndentReset sink d)
    = if m_needsInsertBlock st then 1%nat else 0%nat.
Proof.
  intros sink st t s d. rewrite !insertedBlocks_app.
  unfold deferredBlock, insertedContent, listIndentReset, textCall.
  destruct (m_needsInsertBlock st); destruct t;
    repeat match goal with
           | |- context [if ?c then _ else _] => destruct c
           end; reflexivity.
Qed.

Lemma texts_run :
  forall (sink : DocumentSink) (texts : list (MD_TEXTTYPE * QString))
         (st : Importer),
    m_imageSpan st = false ->
    exists (st' : Importer) (ops : list SinkOp),
      md_parse sink (map (fun p => Text (fst p) (snd p)) texts) st
      = Some (0, st') /\
      doc st' = doc st ++ ops /\
      insertedBlocks ops =
        (if m_needsInsertBlock st && negb (isEmpty texts) then 1 else 0)%nat /\
      m_needsInsertBlock st' =
        (if isEmpty texts then m_needsInsertBlock st else false).
Proof.
  intros sink texts.
  induction texts as [|[t s] texts IH]; intros st Himg.
  - exists st, []. rewrite app_nil_r, andb_false_r.
    repeat split; reflexivity.
  - destruct (cbText_outside_image sink st t s Himg)
      as (st1 & Hrun1 & Hdoc1 & _ & _ & _ & Hneeds1 & Himg1 & _).
    destruct (IH st1 Himg1) as (st2 & ops2 & Hrun2 & Hdoc2 & Hn2 & Hneeds2).
    exists st2.
    exists (((deferredBlock st ++ insertedContent st t s)
             ++ listIndentReset sink
                  (doc st ++ deferredBlock st ++ insertedContent st t s))
            ++ ops2).
    split.
    { cbn [map fst snd].
      rewrite (md_parse_cons sink _ _ st st1) by exact Hrun1. exact Hrun2. }
    split; [rewrite Hdoc2, Hdoc1, <- !app_assoc; reflexivity|].
    rewrite insertedBlocks_app, insertedBlocks_text, Hn2, Hneeds2, Hneeds1.
    cbn [isEmpty negb andb]. rewrite andb_true_r.
    split; [|now destruct (isEmpty texts)].
    destruct (m_needsInsertBlock st); reflexivity.
Qed.

(** X14: a paragraph outside any list inserts its block once, when its
    first text event arrives: however many text events it holds, of
    whatever subkind, they put exactly one block into the document; a
    paragraph with no text puts none, and the insertion stays pending for
    whatever comes next. *)
Theorem paragraph_inserts_its_block_once :
  forall (sink : DocumentSink) (st : Importer)
         (texts : list (MD_TEXTTYPE * QString)),
    m_listStack st = [] -> m_imageSpan st = false ->
    exists (st' : Importer) (ops : list SinkOp),
      md_parse sink (paragraphOf texts) st = Some (0, st') /\
      doc st' = doc st ++ ops /\
      insertedBlocks ops = (if isEmpty texts then 0 else 1)%nat /\
      m_needsInsertBlock st' = isEmpty texts.
Proof.
  intros sink st texts Hstack Himg.
  assert (Hp : exists st1 : Importer,
             cbEnterBlock sink BlockP st = Some (0, st1) /\
             doc st1 = doc st /\ m_imageSpan st1 = m_imageSpan st /\
             m_needsInsertBlock st1 = true).
  { cbv [cbEnterBlock bind gets modify emit ret when].
    cbn -[Z.add Z.sub Z.ltb Z.of_nat length filter].
    rewrite Hstack.
    cbn -[Z.add Z.sub Z.ltb Z.of_nat length filter].
    eexists. split; [reflexivity|]. cbn. repeat split; reflexivity. }
  destruct Hp as (st1 & Hrun1 & Hdoc1 & Himg1 & Hneeds1).
  rewrite Himg in Himg1.
  destruct (texts_run sink texts st1 Himg1)
    as (st2 & ops & Hrun2 & Hdoc2 & Hn2 & Hneeds2).
  exists st2, ops.
  split.
  { unfold paragraphOf.
    rewrite (md_parse_cons sink _ _ st st1) by exact Hrun1.
    rewrite (md_parse_app sink _ _ st1 st2) by exact Hrun2.
    apply md_parse_one. reflexivity. }
  split; [congruence|].
  rewrite Hn2, Hneeds2, Hneeds1.
  destruct (isEmpty texts); split; reflexivity.
Qed.

Lemma paragraph_inserts_its_block_once_witness :
  m_listStack anImporter = [] /\
  m_imageSpan anImporter = false /\
  exists (st' : Importer) (ops : list SinkOp),
    md_parse gridSink
      (paragraphOf [(MD_TEXT_NORMAL, qstr "a"); (MD_TEXT_SOFTBR, []);
                    (MD_TEXT_NORMAL, qstr "b")]) anImporter
    = Some (0, st') /\
    doc st' = doc anImporter ++ ops /\
    insertedBlocks ops = 1%nat /\
    m_needsInsertBlock st' = false.
Proof.
  split; [reflexivity|].
  split; [reflexivity|].
  apply (paragraph_inserts_its_block_once gridSink anImporter
           [(MD_TEXT_NORMAL, qstr "a"); (MD_TEXT_SOFTBR, []);
            (MD_TEXT_NORMAL, qstr "b")]).
  - reflexivity.
  - reflexivity.
Defined.
